(** * repoinit: the credential-resolution chain of [main.go]

    A shallow embedding of the token resolver ([resolveGitHubToken]), the
    token store ([readStoredToken], [writeStoredToken]), the companion-CLI
    delegate ([tryGhToken], [tryGhWebLogin]) and the OAuth device flow
    ([runDeviceFlow], [pollDeviceToken]) of [main.go], together with the
    properties the design document states about them; then [main] itself
    with [execCmd], and further properties of all of these.

    Conventions.
    - A Go [string] is a sequence of Unicode code points ([rune]s); the
      program only compares strings, concatenates them and calls
      [strings.TrimSpace], which works rune by rune (a byte that is not
      valid UTF-8 counts there as one rune that is not white space).
    - A Go [error] is its message; [nil] is [None].
    - Go's [int] (on the 64 bit platforms) and [time.Duration] are 64 bit
      signed integers; arithmetic on them wraps around ([wrap64]).
    - Time is a logical clock in nanoseconds.  A [time.Ticker] holds at most
      one tick that was not received; a [time.After] channel can be received
      from at any instant from its duration on; a [select] blocks until a
      case can proceed and then takes one of those that can.
    - Everything outside the process (environment, file system, the [gh]
      executable, the HTTP endpoints, the clock) is a field of an explicit
      world that the functions read and update; each external call is logged
      in a trace of effects.
    - [main] runs in a world of its own ([MainWorld]) that holds the world
      of the resolver and answers the GitHub API, [os.Getwd], [os.Stat],
      [os.ReadDir] and the commands; [log.Fatal] ends the run with the
      message it logs, the dereference of a [nil] pointer with a panic.
      [godotenv.Load] is a function on the environment; the messages of
      the logger are taken without their time stamp.
    - A file has what it holds and whether the process can read it;
      [os.WriteFile] leaves the mode of a file that exists, and with it
      whether it can be read, as it is. *)

From Stdlib Require Import ZArith NArith List Bool Lia String Ascii.
From Stdlib Require Import DecimalString.
Import ListNotations.

(* ================================================================== *)
(** ** Strings *)

Module GoString.

Definition rune := N.
Definition gostring := list rune.

(** A string literal of the source. *)
Definition lit (s : string) : gostring :=
  map N_of_ascii (list_ascii_of_string s).

Fixpoint eqb (a b : gostring) : bool :=
  match a, b with
  | [], [] => true
  | x :: a', y :: b' => N.eqb x y && eqb a' b'
  | _, _ => false
  end.

Definition isEmpty (s : gostring) : bool :=
  match s with [] => true | _ => false end.

(** [unicode.IsSpace]: the Latin-1 cases of the function and the remaining
    ranges of the [White_Space] table. *)
Definition isSpace (r : rune) : bool :=
  (if N.leb r 255 then
     ((N.leb 9 r && N.leb r 13) || N.eqb r 32 || N.eqb r 133 || N.eqb r 160)
   else
     (N.eqb r 5760 || (N.leb 8192 r && N.leb r 8202)
      || N.eqb r 8232 || N.eqb r 8233 || N.eqb r 8239
      || N.eqb r 8287 || N.eqb r 12288))%bool.

(** [strings.TrimLeftFunc s unicode.IsSpace]. *)
Fixpoint trimLeft (s : gostring) : gostring :=
  match s with
  | [] => []
  | c :: r => if isSpace c then trimLeft r else s
  end.

(** [strings.TrimRightFunc s unicode.IsSpace]. *)
Definition trimRight (s : gostring) : gostring := rev (trimLeft (rev s)).

(** [strings.TrimSpace]: the leading white space is cut, then the trailing. *)
Definition TrimSpace (s : gostring) : gostring := trimRight (trimLeft s).

(** [strings.Contains]. *)
Fixpoint hasPrefix (p s : gostring) : bool :=
  match p, s with
  | [], _ => true
  | x :: p', y :: s' => N.eqb x y && hasPrefix p' s'
  | _ :: _, [] => false
  end.


(** No white space at either end. *)
Definition trimmed (s : gostring) : Prop :=
  (forall c r, s = c :: r -> isSpace c = false) /\
  (forall r c, s = r ++ [c] -> isSpace c = false).

(** The data model's [Credential]: never empty, no white space around it. *)
Definition credential (s : gostring) : Prop := s <> [] /\ trimmed s.

Definition newline : rune := 10%N.

End GoString.
Import GoString.

(** [error]: the message of the error value. *)
Definition error := gostring.

(** [errors.New]. *)
Definition errorsNew (msg : string) : error := lit msg.

(** [err == nil]. *)
Definition isNil (e : option error) : bool :=
  match e with None => true | Some _ => false end.

(* ================================================================== *)
(** ** Machine integers *)

Definition two63 : Z := 2 ^ 63.
Definition two64 : Z := 2 ^ 64.

(** Wrap-around of 64 bit signed arithmetic. *)
Definition wrap64 (z : Z) : Z := ((z + two63) mod two64 - two63)%Z.

(** [time.Second], in nanoseconds. *)
Definition Second : Z := 1000000000%Z.

(** The largest number of seconds whose nanosecond count is a
    [time.Duration]. *)
Definition maxSeconds : Z := 9223372036%Z.

(* ================================================================== *)
(** ** Effects on the outside world *)

(** A file path, as its components: [filepath.Join] appends components and
    [filepath.Dir] drops the last one. *)
Definition path := list gostring.

Definition filepathJoin (dir : path) (elems : list gostring) : path :=
  dir ++ elems.

Definition filepathDir (p : path) : path := removelast p.

Fixpoint path_eqb (p q : path) : bool :=
  match p, q with
  | [], [] => true
  | x :: p', y :: q' => GoString.eqb x y && path_eqb p' q'
  | _, _ => false
  end.

(** [strings.Join]. *)
Fixpoint stringsJoin (elems : list gostring) (sep : gostring) : gostring :=
  match elems with
  | [] => []
  | [x] => x
  | x :: rest => x ++ sep ++ stringsJoin rest sep
  end.

(** The calls the program makes outside the process, in the order made. *)
Inductive effect : Type :=
| Getenv (name : gostring)
| UserConfigDir
| ReadFile (p : path)
| MkdirAll (p : path) (perm : N)
| WriteFile (p : path) (data : gostring) (perm : N)
| LookPath (file : gostring)
| ExecOutput (argv : list gostring)
| ExecRun (argv : list gostring)
| HttpPost (url : gostring) (form : list (gostring * gostring))
| Print (text : gostring)
| LogPrint (text : gostring).

Definition isFileRead (e : effect) : bool :=
  match e with ReadFile _ => true | _ => false end.
Definition isFileWrite (e : effect) : bool :=
  match e with MkdirAll _ _ | WriteFile _ _ _ => true | _ => false end.
Definition isSubprocess (e : effect) : bool :=
  match e with LookPath _ | ExecOutput _ | ExecRun _ => true | _ => false end.
Definition isNetwork (e : effect) : bool :=
  match e with HttpPost _ _ => true | _ => false end.
(** Anything shown to the human: standard output or the logger. *)
Definition isReport (e : effect) : bool :=
  match e with Print _ | LogPrint _ => true | _ => false end.

(* ================================================================== *)
(** ** Device flow: responses *)

Record deviceCodeResponse : Type := {
  DeviceCode : gostring;
  UserCode : gostring;
  VerificationURI : gostring;
  VerificationURIComplete : gostring;
  ExpiresIn : Z;
  Interval : Z
}.

Record deviceTokenResponse : Type := {
  AccessToken : gostring;
  TokenType : gostring;
  TokenScope : gostring;
  Error : gostring;
  ErrorDesc : gostring
}.

(** The JSON object of a device-code response; [None] is an absent (or
    [null]) member. *)
Record codeJSON : Type := {
  j_device_code : option gostring;
  j_user_code : option gostring;
  j_verification_uri : option gostring;
  j_verification_uri_complete : option gostring;
  j_expires_in : option Z;
  j_interval : option Z
}.

(** The JSON object of a token response. *)
Record tokenJSON : Type := {
  j_access_token : option gostring;
  j_token_type : option gostring;
  j_scope : option gostring;
  j_error : option gostring;
  j_error_description : option gostring
}.

(** A response body as [json.Decoder.Decode] sees it: not decodable, or an
    object. *)
Inductive jsonBody (J : Type) : Type :=
| Malformed (e : error)
| Object (j : J).
Arguments Malformed {J} e.
Arguments Object {J} j.

(** What one HTTP exchange comes to: the request cannot be built, the round
    trip fails, or a response arrives with a status, its raw text and its
    body as the JSON decoder sees it. *)
Inductive httpResult (J : Type) : Type :=
| NewRequestFailed (e : error)
| DoFailed (e : error)
| Response (status : Z) (raw : gostring) (body : jsonBody J).
Arguments NewRequestFailed {J} e.
Arguments DoFailed {J} e.
Arguments Response {J} status raw body.

(** A member decoded into a [string] field: the zero value when absent. *)
Definition stringField (o : option gostring) : gostring :=
  match o with Some s => s | None => [] end.

Definition inInt (z : Z) : bool :=
  ((- two63 <=? z) && (z <? two63))%Z.

(** The decimal digits of an integer, as a JSON document writes it. *)
Definition decimal (z : Z) : gostring :=
  lit (NilZero.string_of_int (Z.to_int z)).

(** The decoder's error for a number that does not fit the [int] field of
    [deviceCodeResponse] that the member [field] goes to: the text quotes
    the number and the field.  When both numbers of a response are out of
    range the decoder reports the one that comes first in the document; the
    model reports [expires_in] first, and no statement depends on which. *)
Definition intRangeError (field : string) (z : Z) : error :=
  lit "json: cannot unmarshal number " ++ decimal z
  ++ lit " into Go struct field deviceCodeResponse." ++ lit field
  ++ lit " of type int".

(** A member decoded into an [int] field. *)
Definition intField (field : string) (o : option Z) : error + Z :=
  match o with
  | None => inr 0%Z
  | Some z => if inInt z then inr z else inl (intRangeError field z)
  end.

(** [json.NewDecoder(resp.Body).Decode(&dc)]. *)
Definition decodeCode (b : jsonBody codeJSON) : error + deviceCodeResponse :=
  match b with
  | Malformed e => inl e
  | Object j =>
      match intField "expires_in" (j_expires_in j),
            intField "interval" (j_interval j) with
      | inr ex, inr iv =>
          inr {| DeviceCode := stringField (j_device_code j);
                 UserCode := stringField (j_user_code j);
                 VerificationURI := stringField (j_verification_uri j);
                 VerificationURIComplete :=
                   stringField (j_verification_uri_complete j);
                 ExpiresIn := ex;
                 Interval := iv |}
      | inl e, _ => inl e
      | _, inl e => inl e
      end
  end.

(** [json.NewDecoder(resp.Body).Decode(&tr)]. *)
Definition decodeToken (b : jsonBody tokenJSON) : error + deviceTokenResponse :=
  match b with
  | Malformed e => inl e
  | Object j =>
      inr {| AccessToken := stringField (j_access_token j);
             TokenType := stringField (j_token_type j);
             TokenScope := stringField (j_scope j);
             Error := stringField (j_error j);
             ErrorDesc := stringField (j_error_description j) |}
  end.

(* ================================================================== *)
(** ** Device flow: one poll *)

Definition deviceCodeURL : gostring := lit "https://github.com/login/device/code".
Definition accessTokenURL : gostring :=
  lit "https://github.com/login/oauth/access_token".
Definition grantType : gostring :=
  lit "urn:ietf:params:oauth:grant-type:device_code".

(** The form of a token request, in the key order of [url.Values.Encode]. *)
Definition pollForm (clientID deviceCode : gostring)
  : list (gostring * gostring) :=
  [ (lit "client_id", clientID);
    (lit "device_code", deviceCode);
    (lit "grant_type", grantType) ].

(** The [switch tr.Error] of [pollDeviceToken]. *)
Definition classify (tr : deviceTokenResponse)
  : gostring * bool * option error :=
  if GoString.eqb (Error tr) [] then
    (TrimSpace (AccessToken tr), false, None)
  else if GoString.eqb (Error tr) (lit "authorization_pending") then
    ([], true, None)
  else if GoString.eqb (Error tr) (lit "slow_down") then
    ([], true, None)
  else if GoString.eqb (Error tr) (lit "expired_token") then
    ([], false, Some (errorsNew "device code expired"))
  else if GoString.eqb (Error tr) (lit "access_denied") then
    ([], false, Some (errorsNew "access denied by user"))
  else
    ([], false, Some (lit "oauth error: " ++ Error tr)).

(** [pollDeviceToken]: the triple [(token, continuePolling, err)] for one
    exchange with the token endpoint.  The status of the response is not
    looked at. *)
Definition pollDeviceToken (r : httpResult tokenJSON)
  : gostring * bool * option error :=
  match r with
  | NewRequestFailed e => ([], true, Some e)
  | DoFailed e => ([], true, Some e)
  | Response _ _ body =>
      match decodeToken body with
      | inl e => ([], true, Some e)
      | inr tr => classify tr
      end
  end.

(** The requests [pollDeviceToken] sends: none when the request cannot be
    built. *)
Definition pollEffects (clientID deviceCode : gostring)
  (r : httpResult tokenJSON) : list effect :=
  match r with
  | NewRequestFailed _ => []
  | _ => [HttpPost accessTokenURL (pollForm clientID deviceCode)]
  end.

(* ================================================================== *)
(** ** Device flow: the polling loop *)

(** Time is counted in nanoseconds from the creation of the ticker.

    The cases of the [select] in [runDeviceFlow]. *)
Inductive selCase : Type := CaseDone | CaseTimeout | CaseTick.

(** What the device flow meets outside the process. *)
Record DeviceWorld : Type := {
  (** the exchange with the device-code endpoint *)
  dw_init : httpResult codeJSON;
  (** when [ctx.Done()] is closed, and [ctx.Err()] then; [None]: never *)
  dw_cancel : option (Z * error);
  (** how long the i-th call of [pollDeviceToken] takes, and its exchange
      as it ended: the request is made with the context, so an exchange
      that the context cuts short is one whose round trip failed *)
  dw_poll : nat -> N * httpResult tokenJSON;
  (** which cases the i-th [select] prefers when several can proceed (the
      language leaves the choice open) *)
  dw_prio : nat -> list selCase
}.

(** The variables of the loop: the clock, the ticker (its period and the
    instant from which a tick waits in [ticker.C]), the [time.After] instant,
    and what was sent so far. *)
Record loopState : Type := {
  now : Z;
  period : Z;
  nextTick : Z;
  deadline : Z;
  polled : nat;
  sent : list effect
}.

(** Whether a case of the [select] can proceed at instant [t]. *)
Definition ready (dw : DeviceWorld) (st : loopState) (t : Z) (c : selCase)
  : bool :=
  match c with
  | CaseDone =>
      match dw_cancel dw with
      | Some (tc, _) => (tc <=? t)%Z
      | None => false
      end
  | CaseTimeout => (deadline st <=? t)%Z
  | CaseTick => (nextTick st <=? t)%Z
  end.

(** The instant at which the [select] returns: at once when a case can
    proceed, and otherwise when the first of them can. *)
Definition wakeTime (dw : DeviceWorld) (st : loopState) : Z :=
  let first := Z.min (nextTick st) (deadline st) in
  let first :=
    match dw_cancel dw with
    | Some (tc, _) => Z.min first tc
    | None => first
    end in
  Z.max (now st) first.

(** The case the [select] takes: the first one of the preference that can
    proceed. *)
Definition selectCase (dw : DeviceWorld) (st : loopState) : selCase :=
  let t := wakeTime dw st in
  match find (ready dw st t)
             (dw_prio dw (polled st) ++ [CaseDone; CaseTimeout; CaseTick]) with
  | Some c => c
  | None => CaseTick
  end.

Definition ctxErr (dw : DeviceWorld) : error :=
  match dw_cancel dw with
  | Some (_, e) => e
  | None => []
  end.

Definition expiredError : error :=
  errorsNew "device code expired; please try again".
Definition declinedError : error := errorsNew "authorization declined".

(** One pass through the body of the [for]: it returns from
    [runDeviceFlow], or goes round again. *)
Inductive iterResult : Type :=
| Return (st : loopState) (token : gostring) (err : option error)
| Continue (st : loopState).

(** The loop when the [select] has returned. *)
Definition woken (dw : DeviceWorld) (st : loopState) : loopState :=
  {| now := wakeTime dw st; period := period st; nextTick := nextTick st;
     deadline := deadline st; polled := polled st; sent := sent st |}.

(** The loop when the tick was received and [pollDeviceToken] has returned:
    the ticker goes on with the period it was created with. *)
Definition afterPoll (dw : DeviceWorld) (clientID deviceCode : gostring)
  (st : loopState) : loopState :=
  let t := wakeTime dw st in
  {| now := (t + Z.of_N (fst (dw_poll dw (polled st))))%Z;
     period := period st;
     nextTick := ((t / period st + 1) * period st)%Z;
     deadline := deadline st;
     polled := S (polled st);
     sent := sent st
             ++ pollEffects clientID deviceCode (snd (dw_poll dw (polled st))) |}.

(** The body of the [for].  In the tick case the exchange of the poll is the
    one the world has for it, as it ended ([dw_poll]): when the context is
    done while the request is in flight, that is a round trip that failed,
    and the pass returns its error like that of any other failed poll. *)
Definition loopIter (dw : DeviceWorld) (clientID deviceCode : gostring)
  (st : loopState) : iterResult :=
  match selectCase dw st with
  | CaseDone => Return (woken dw st) [] (Some (ctxErr dw))
  | CaseTimeout => Return (woken dw st) [] (Some expiredError)
  | CaseTick =>
      let after := afterPoll dw clientID deviceCode st in
      let '(token, cont, err) :=
        pollDeviceToken (snd (dw_poll dw (polled st))) in
      match err with
      | Some e => Return after [] (Some e)
      | None =>
          if negb (isEmpty token) then Return after token None
          else if negb cont then Return after [] (Some declinedError)
          else Continue after
      end
  end.

(** How a call ends. *)
Inductive outcome : Type :=
| Returned (token : gostring) (err : option error)
| Panicked (msg : gostring)
| Running.

(** A run of the device flow: how it ends, the clock then, the calls of
    [pollDeviceToken] made, and the effects in order. *)
Record flowRun : Type := {
  fr_outcome : outcome;
  fr_time : Z;
  fr_period : Z;
  fr_polls : nat;
  fr_effects : list effect
}.

(** The [for] loop, for at most [fuel] passes. *)
Fixpoint deviceLoop (fuel : nat) (dw : DeviceWorld)
  (clientID deviceCode : gostring) (st : loopState) : flowRun :=
  match fuel with
  | O => {| fr_outcome := Running; fr_time := now st; fr_period := period st;
            fr_polls := polled st; fr_effects := sent st |}
  | S fuel' =>
      match loopIter dw clientID deviceCode st with
      | Return st' token err =>
          {| fr_outcome := Returned token err; fr_time := now st';
             fr_period := period st';
             fr_polls := polled st'; fr_effects := sent st' |}
      | Continue st' => deviceLoop fuel' dw clientID deviceCode st'
      end
  end.

(** The period handed to [time.NewTicker]: [pollInterval * time.Second]. *)
Definition pollInterval (dc : deviceCodeResponse) : Z :=
  if (Interval dc <=? 0)%Z then 5%Z else Interval dc.

Definition tickerPeriod (dc : deviceCodeResponse) : Z :=
  wrap64 (pollInterval dc * Second).

(** The duration handed to [time.After]. *)
Definition expiryDuration (dc : deviceCodeResponse) : Z :=
  wrap64 (ExpiresIn dc * Second).

(** The form of the device-code request. *)
Definition codeForm (clientID : gostring) (scopes : list gostring)
  : list (gostring * gostring) :=
  [ (lit "client_id", clientID);
    (lit "scope", stringsJoin scopes (lit ",")) ].

(** The lines shown to the human after initiation. *)
Definition display (dc : deviceCodeResponse) : list effect :=
  Print (lit "To authenticate with GitHub, open this link in your browser:"
         ++ [newline]) ::
  (if negb (isEmpty (VerificationURIComplete dc)) then
     [Print (lit "  " ++ VerificationURIComplete dc ++ [newline])]
   else
     [Print (lit "  " ++ VerificationURI dc ++ [newline]);
      Print (lit "and enter the code: " ++ UserCode dc ++ [newline])]).

Definition stopped (o : outcome) (effs : list effect) : flowRun :=
  {| fr_outcome := o; fr_time := 0%Z; fr_period := 0%Z; fr_polls := 0;
     fr_effects := effs |}.

(** [runDeviceFlow]. *)
Definition runDeviceFlow (fuel : nat) (dw : DeviceWorld)
  (clientID : gostring) (scopes : list gostring) : flowRun :=
  let post := HttpPost deviceCodeURL (codeForm clientID scopes) in
  match dw_init dw with
  | NewRequestFailed e => stopped (Returned [] (Some e)) []
  | DoFailed e => stopped (Returned [] (Some e)) [post]
  | Response status raw body =>
      if ((status <? 200) || (300 <=? status))%Z then
        stopped (Returned []
                   (Some (lit "device code request failed: " ++ TrimSpace raw)))
                [post]
      else
        match decodeCode body with
        | inl e => stopped (Returned [] (Some e)) [post]
        | inr dc =>
            let shown := post :: display dc in
            if (tickerPeriod dc <=? 0)%Z then
              stopped (Panicked (lit "non-positive interval for NewTicker"))
                      shown
            else
              deviceLoop fuel dw clientID (DeviceCode dc)
                {| now := 0%Z;
                   period := tickerPeriod dc;
                   nextTick := tickerPeriod dc;
                   deadline := expiryDuration dc;
                   polled := 0;
                   sent := shown |}
        end
  end.

(* ================================================================== *)
(** ** The world of the resolver *)

(** The token file as [os.ReadFile] finds it: there is none, there is one
    that cannot be read (with the error of the read, and what it holds all
    the same), or there is one that can be read. *)
Inductive fileState : Type :=
| Absent
| Unreadable (e : error) (hidden : gostring)
| Content (data : gostring).

(** What a file holds, whether or not it can be read. *)
Definition holds (f : fileState) (data : gostring) : Prop :=
  match f with
  | Absent => False
  | Unreadable _ d | Content d => d = data
  end.

(** A file after [os.WriteFile] succeeded on it.  An existing file is
    truncated and written and keeps its mode: one that could not be read
    still cannot.  A file that did not exist is created with the mode
    given, 0600 here, and the process can read it. *)
Definition overwrite (f : fileState) (data : gostring) : fileState :=
  match f with
  | Unreadable e _ => Unreadable e data
  | Absent | Content _ => Content data
  end.

Record World : Type := {
  (** [os.Getenv]: the empty string for a variable that is not set *)
  w_env : gostring -> gostring;
  (** [os.UserConfigDir] *)
  w_configDir : error + path;
  w_fs : path -> fileState;
  (** the outcome of [os.MkdirAll] and of [os.WriteFile] at a path *)
  w_mkdirErr : path -> option error;
  w_writeErr : path -> option error;
  (** [exec.LookPath "gh"] *)
  w_ghPath : option error;
  (** standard output and error of [gh auth token], as things stand *)
  w_ghToken : gostring * option error;
  (** the error of [gh auth login], and what [gh auth token] gives after it *)
  w_ghLogin : option error * (gostring * option error);
  w_device : DeviceWorld;
  (** the effects so far, oldest first *)
  w_trace : list effect
}.

(** A computation on the world. *)
Definition M (A : Type) : Type := World -> A * World.

Definition ret {A : Type} (a : A) : M A := fun w => (a, w).
Definition bind {A B : Type} (m : M A) (k : A -> M B) : M B :=
  fun w => let '(a, w') := m w in k a w'.

Declare Scope world_scope.
Delimit Scope world_scope with world.
Notation "x <- m ;; k" := (bind m (fun x => k))
  (at level 61, m at next level, right associativity) : world_scope.
Notation "m ;;; k" := (bind m (fun _ => k))
  (at level 61, right associativity) : world_scope.
Open Scope world_scope.

Definition emit (es : list effect) (w : World) : World :=
  {| w_env := w_env w; w_configDir := w_configDir w; w_fs := w_fs w;
     w_mkdirErr := w_mkdirErr w; w_writeErr := w_writeErr w;
     w_ghPath := w_ghPath w; w_ghToken := w_ghToken w;
     w_ghLogin := w_ghLogin w; w_device := w_device w;
     w_trace := w_trace w ++ es |}.

Definition setFile (p : path) (f : fileState) (w : World) : World :=
  {| w_env := w_env w; w_configDir := w_configDir w;
     w_fs := fun q => if path_eqb q p then f else w_fs w q;
     w_mkdirErr := w_mkdirErr w; w_writeErr := w_writeErr w;
     w_ghPath := w_ghPath w; w_ghToken := w_ghToken w;
     w_ghLogin := w_ghLogin w; w_device := w_device w;
     w_trace := w_trace w |}.

Definition setGhToken (g : gostring * option error) (w : World) : World :=
  {| w_env := w_env w; w_configDir := w_configDir w; w_fs := w_fs w;
     w_mkdirErr := w_mkdirErr w; w_writeErr := w_writeErr w;
     w_ghPath := w_ghPath w; w_ghToken := g;
     w_ghLogin := w_ghLogin w; w_device := w_device w;
     w_trace := w_trace w |}.

Definition pathString (p : path) : gostring := stringsJoin p (lit "/").

(** The system calls. *)
Definition osGetenv (name : string) : M gostring :=
  fun w => (w_env w (lit name), emit [Getenv (lit name)] w).

Definition osUserConfigDir : M (error + path) :=
  fun w => (w_configDir w, emit [UserConfigDir] w).

Definition osReadFile (p : path) : M (gostring * option error) :=
  fun w =>
    (match w_fs w p with
     | Absent =>
         ([], Some (lit "open " ++ pathString p
                    ++ lit ": no such file or directory"))
     | Unreadable e _ => ([], Some e)
     | Content data => (data, None)
     end, emit [ReadFile p] w).

(** [os.MkdirAll]: [perm] is the mode of the directories the call creates,
    missing parents included; directories that exist keep theirs. *)
Definition osMkdirAll (p : path) (perm : N) : M (option error) :=
  fun w => (w_mkdirErr w p, emit [MkdirAll p perm] w).

(** [os.WriteFile] opens with truncation: on success the file holds the data
    and nothing else.  [perm] is the mode of a file that the call creates;
    the mode of a file that exists is left as it is ([overwrite]). *)
Definition osWriteFile (p : path) (data : gostring) (perm : N)
  : M (option error) :=
  fun w =>
    match w_writeErr w p with
    | Some e => (Some e, emit [WriteFile p data perm] w)
    | None =>
        (None,
         emit [WriteFile p data perm]
              (setFile p (overwrite (w_fs w p) data) w))
    end.

Definition execLookPath (file : string) : M (option error) :=
  fun w => (w_ghPath w, emit [LookPath (lit file)] w).

Definition ghAuthToken : list gostring := [lit "gh"; lit "auth"; lit "token"].
Definition ghAuthLogin : list gostring :=
  [lit "gh"; lit "auth"; lit "login"; lit "--web"; lit "--scopes"; lit "repo"].

(** [cmd.Output()] of [gh auth token]. *)
Definition execOutput (argv : list gostring) : M (gostring * option error) :=
  fun w => (w_ghToken w, emit [ExecOutput argv] w).

(** [cmd.Run()] of [gh auth login], on the standard streams of the process. *)
Definition execRun (argv : list gostring) : M (option error) :=
  fun w =>
    (fst (w_ghLogin w), emit [ExecRun argv] (setGhToken (snd (w_ghLogin w)) w)).

(* ================================================================== *)
(** ** Token store *)

Definition configTokenPath : M (path * option error) :=
  d <- osUserConfigDir ;;
  match d with
  | inl e => ret ([], Some e)
  | inr dir => ret (filepathJoin dir [lit "repoinit"; lit "token"], None)
  end.

Definition readStoredToken : M (gostring * option error) :=
  pe <- configTokenPath ;;
  match snd pe with
  | Some e => ret ([], Some e)
  | None =>
      de <- osReadFile (fst pe) ;;
      match snd de with
      | Some e => ret ([], Some e)
      | None => ret (TrimSpace (fst de), None)
      end
  end.

Definition writeStoredToken (token : gostring) : M (option error) :=
  pe <- configTokenPath ;;
  match snd pe with
  | Some e => ret (Some e)
  | None =>
      me <- osMkdirAll (filepathDir (fst pe)) 448 ;;
      match me with
      | Some e => ret (Some e)
      | None => osWriteFile (fst pe) (TrimSpace token ++ [newline]) 384
      end
  end.

(* ================================================================== *)
(** ** Companion CLI *)

Definition tryGhToken : M (gostring * option error) :=
  le <- execLookPath "gh" ;;
  match le with
  | Some e => ret ([], Some e)
  | None =>
      oe <- execOutput ghAuthToken ;;
      match snd oe with
      | Some e => ret ([], Some e)
      | None =>
          let token := TrimSpace (fst oe) in
          if isEmpty token then ret ([], Some (errorsNew "empty gh token"))
          else ret (token, None)
      end
  end.

Definition tryGhWebLogin : M (option error) :=
  le <- execLookPath "gh" ;;
  match le with
  | Some e => ret (Some e)
  | None => execRun ghAuthLogin
  end.

(* ================================================================== *)
(** ** Token resolver *)

Definition noTokenError : error :=
  errorsNew "no token found. Set GITHUB_TOKEN, or install GitHub CLI (gh) to login via web, or set GITHUB_OAUTH_CLIENT_ID to use device OAuth. See https://docs.github.com/apps/oauth-apps/building-oauth-apps/authorizing-oauth-apps for details.".

(** The device flow as the resolver calls it: its effects join the trace. *)
Definition callDeviceFlow (fuel : nat) (clientID : gostring)
  (scopes : list gostring) : M outcome :=
  fun w =>
    let run := runDeviceFlow fuel (w_device w) clientID scopes in
    (fr_outcome run, emit (fr_effects run) w).

(** Step 4 of [resolveGitHubToken] and the final error. *)
Definition resolveByDeviceFlow (fuel : nat) : M outcome :=
  c <- osGetenv "GITHUB_OAUTH_CLIENT_ID" ;;
  let clientID := TrimSpace c in
  if negb (isEmpty clientID) then
    o <- callDeviceFlow fuel clientID [lit "repo"] ;;
    match o with
    | Returned token (Some e) => ret (Returned [] (Some e))
    | Returned token None =>
        if negb (isEmpty token) then
          writeStoredToken token ;;;
          ret (Returned token None)
        else ret (Returned [] (Some noTokenError))
    | Panicked msg => ret (Panicked msg)
    | Running => ret Running
    end
  else ret (Returned [] (Some noTokenError)).

(** Step 3: the [gh] CLI, with the interactive login when the first query
    gives nothing. *)
Definition resolveByGh (fuel : nat) : M outcome :=
  te <- tryGhToken ;;
  if isNil (snd te) && negb (isEmpty (fst te)) then
    writeStoredToken (fst te) ;;;
    ret (Returned (fst te) None)
  else
    le <- tryGhWebLogin ;;
    match le with
    | None =>
        te2 <- tryGhToken ;;
        if isNil (snd te2) && negb (isEmpty (fst te2)) then
          writeStoredToken (fst te2) ;;;
          ret (Returned (fst te2) None)
        else resolveByDeviceFlow fuel
    | Some _ => resolveByDeviceFlow fuel
    end.

(** [resolveGitHubToken]. *)
Definition resolveGitHubToken (fuel : nat) : M outcome :=
  e <- osGetenv "GITHUB_TOKEN" ;;
  let envToken := TrimSpace e in
  if negb (isEmpty envToken) then ret (Returned envToken None)
  else
    te <- readStoredToken ;;
    if negb (isEmpty (fst te)) then ret (Returned (fst te) None)
    else resolveByGh fuel.

(* ================================================================== *)
(** ** Vocabulary of the statements *)

(** The error codes [pollDeviceToken] knows. *)
Definition recognized : list gostring :=
  [ lit "authorization_pending"; lit "slow_down";
    lit "expired_token"; lit "access_denied" ].

Definition unrecognized (e : gostring) : Prop :=
  e <> [] /\ ~ In e recognized.

(** A token exchange that makes [pollDeviceToken] go on polling: the
    [Pending] and [SlowDown] outcomes. *)
Definition continues (r : httpResult tokenJSON) : Prop :=
  pollDeviceToken r = ([], true, None).

(** A poll attempt that itself errors with [e]: the request fails, the body
    is not decodable, or the error member holds a code the program does not
    know. *)
Definition pollFails (r : httpResult tokenJSON) (e : error) : Prop :=
  r = NewRequestFailed e \/
  r = DoFailed e \/
  (exists status raw, r = Response status raw (Malformed e)) \/
  (exists status raw j,
      r = Response status raw (Object j) /\
      unrecognized (stringField (j_error j)) /\
      e = lit "oauth error: " ++ stringField (j_error j)).

(** What holds each time the loop arrives at the [select] when polls take at
    most [L], less than the period [d]: no tick is waiting yet, the ticks are
    at the multiples of the period, and the clock is at most one poll past
    the expiry [D]. *)
Definition atSelect (d D L : Z) (st : loopState) : Prop :=
  period st = d /\ deadline st = D /\
  (0 <= now st < nextTick st)%Z /\
  (now st <= Z.max 0 D + L)%Z /\
  exists k, nextTick st = (k * d)%Z.


(** The path of the token file under a configuration directory. *)
Definition tokenPath (dir : path) : path :=
  filepathJoin dir [lit "repoinit"; lit "token"].

(** The world with other outcomes for the creation of the directory and the
    writing of the file. *)
Definition withWriteOutcome (mk wr : path -> option error) (w : World)
  : World :=
  {| w_env := w_env w; w_configDir := w_configDir w; w_fs := w_fs w;
     w_mkdirErr := mk; w_writeErr := wr;
     w_ghPath := w_ghPath w; w_ghToken := w_ghToken w;
     w_ghLogin := w_ghLogin w; w_device := w_device w;
     w_trace := w_trace w |}.

(** The effects of a computation: what it appends to the trace. *)
Definition effectsOf {A : Type} (m : M A) (w : World) : list effect :=
  skipn (List.length (w_trace w)) (w_trace (snd (m w))).

(** The effects of the device flow: requests and lines on standard
    output. *)
Definition isFlowEffect (e : effect) : bool :=
  match e with HttpPost _ _ | Print _ => true | _ => false end.

(** What a call of the resolver comes to, in terms of the world it started
    in: a token it returns is a credential; what it writes to the store is
    the returned credential and a newline; an error it returns is the final
    one when no client id is configured and the device flow's own otherwise;
    it panics or runs on only inside the device flow. *)
Definition summary (fuel : nat) (w : World) : Prop :=
  let o := fst (resolveGitHubToken fuel w) in
  let es := effectsOf (resolveGitHubToken fuel) w in
  let clientID := TrimSpace (w_env w (lit "GITHUB_OAUTH_CLIENT_ID")) in
  let flow := runDeviceFlow fuel (w_device w) clientID [lit "repo"] in
  (forall token, o = Returned token None -> credential token)
  /\ (forall p data perm,
        In (WriteFile p data perm) es ->
        exists c, credential c /\ data = c ++ [newline] /\ o = Returned c None)
  /\ (forall token e,
        o = Returned token (Some e) ->
        token = [] /\
        ((clientID = [] /\ e = noTokenError) \/
         (clientID <> [] /\ fr_outcome flow = Returned [] (Some e))))
  /\ (forall msg, o = Panicked msg ->
        clientID <> [] /\ fr_outcome flow = Panicked msg)
  /\ (o = Running -> clientID <> [] /\ fr_outcome flow = Running).

(* ================================================================== *)
(** ** Sample worlds *)

Module Sample.

(** A token response with the given [access_token] and [error] members. *)
Definition tokenObject (tok err : option string) : httpResult tokenJSON :=
  Response 200 []
    (Object {| j_access_token := option_map lit tok;
               j_token_type := None;
               j_scope := None;
               j_error := option_map lit err;
               j_error_description := None |}).

(** A device-code response with the given [expires_in] and [interval]. *)
Definition codeObject (ex iv : option Z) : httpResult codeJSON :=
  Response 200 []
    (Object {| j_device_code := Some (lit "D");
               j_user_code := Some (lit "ABCD-1234");
               j_verification_uri := Some (lit "https://github.com/login/device");
               j_verification_uri_complete := None;
               j_expires_in := ex;
               j_interval := iv |}).

Definition pending : httpResult tokenJSON :=
  tokenObject None (Some "authorization_pending"%string).

(** A flow that is never cancelled, in which every poll takes [took]
    nanoseconds and gives [answer]. *)
Definition steady (ex iv : option Z) (took : N)
  (answer : nat -> httpResult tokenJSON) : DeviceWorld :=
  {| dw_init := codeObject ex iv;
     dw_cancel := None;
     dw_poll := fun i => (took, answer i);
     dw_prio := fun _ => [] |}.

(** The loop as [runDeviceFlow] enters it with [interval] 5 and
    [expires_in] 900. *)
Definition entry : loopState :=
  {| now := 0; period := 5 * Second; nextTick := 5 * Second;
     deadline := 900 * Second; polled := 0; sent := [] |}.

Definition unknownCode : DeviceWorld :=
  steady (Some 900%Z) (Some 5%Z) 0
         (fun _ => tokenObject None (Some "unsupported_grant_type"%string)).

Definition blankToken : DeviceWorld :=
  steady (Some 900%Z) (Some 5%Z) 0 (fun _ => tokenObject (Some "  "%string) None).

Definition brokenBody : DeviceWorld :=
  steady (Some 900%Z) (Some 5%Z) 0
         (fun _ => Response 200 (lit "<html>") (Malformed (lit "invalid character '<' looking for beginning of value"))).

(** [expires_in] 10, [interval] 5, every poll pending after a tenth of a
    second. *)
Definition tenSeconds : DeviceWorld :=
  steady (Some 10%Z) (Some 5%Z) 100000000 (fun _ => pending).

(** The same, with polls that return at once. *)
Definition tenSecondsAtOnce : DeviceWorld :=
  steady (Some 10%Z) (Some 5%Z) 0 (fun _ => pending).

(** The same, with a server that takes a hundred seconds to answer. *)
Definition slowPoll : DeviceWorld :=
  steady (Some 10%Z) (Some 5%Z) 100000000000 (fun _ => pending).

(** An [interval] beyond the seconds a [time.Duration] can count. *)
Definition hugeInterval : DeviceWorld :=
  steady (Some 900%Z) (Some 9223372037%Z) 0 (fun _ => pending).

(** [interval] 7, and a server that answers [slow_down] every time. *)
Definition slowDown : DeviceWorld :=
  steady (Some 900%Z) (Some 7%Z) 0
         (fun _ => tokenObject None (Some "slow_down"%string)).

(** The decoded device-code response of [codeObject ex iv] when both
    numbers fit. *)
Definition codeOf (ex iv : Z) : deviceCodeResponse :=
  {| DeviceCode := lit "D";
     UserCode := lit "ABCD-1234";
     VerificationURI := lit "https://github.com/login/device";
     VerificationURIComplete := [];
     ExpiresIn := ex;
     Interval := iv |}.

Definition configDir : path := [[]; lit "home"; lit "u"; lit ".config"].

(** A machine with nothing configured: no variables, no token file, no
    [gh], and no network. *)
Definition bare : World :=
  {| w_env := fun _ => [];
     w_configDir := inr configDir;
     w_fs := fun _ => Absent;
     w_mkdirErr := fun _ => None;
     w_writeErr := fun _ => None;
     w_ghPath := Some (lit "exec: gh: executable file not found in $PATH");
     w_ghToken := ([], Some (lit "exit status 1"));
     w_ghLogin := (Some (lit "exit status 1"), ([], Some (lit "exit status 1")));
     w_device :=
       {| dw_init := DoFailed (lit "dial tcp: lookup github.com: no such host");
          dw_cancel := None;
          dw_poll := fun _ => (0%N, pending);
          dw_prio := fun _ => [] |};
     w_trace := [] |}.

Definition withEnv (name : string) (value : gostring) (w : World) : World :=
  {| w_env := fun n => if GoString.eqb n (lit name) then value else w_env w n;
     w_configDir := w_configDir w; w_fs := w_fs w;
     w_mkdirErr := w_mkdirErr w; w_writeErr := w_writeErr w;
     w_ghPath := w_ghPath w; w_ghToken := w_ghToken w;
     w_ghLogin := w_ghLogin w; w_device := w_device w;
     w_trace := w_trace w |}.

Definition withGh (out : gostring) (w : World) : World :=
  {| w_env := w_env w; w_configDir := w_configDir w; w_fs := w_fs w;
     w_mkdirErr := w_mkdirErr w; w_writeErr := w_writeErr w;
     w_ghPath := None; w_ghToken := (out, None);
     w_ghLogin := (None, (out, None)); w_device := w_device w;
     w_trace := w_trace w |}.

Definition withDevice (dw : DeviceWorld) (w : World) : World :=
  {| w_env := w_env w; w_configDir := w_configDir w; w_fs := w_fs w;
     w_mkdirErr := w_mkdirErr w; w_writeErr := w_writeErr w;
     w_ghPath := w_ghPath w; w_ghToken := w_ghToken w;
     w_ghLogin := w_ghLogin w; w_device := dw;
     w_trace := w_trace w |}.

(** The environment credential is set, with white space around it. *)
Definition envToken : World :=
  withEnv "GITHUB_TOKEN" (lit " ghp_env" ++ [newline]) bare.


(** [gh] gives a token, and the configuration directory cannot be written. *)
Definition readOnlyHome : World :=
  withWriteOutcome (fun _ => None)
    (fun _ => Some (lit "open /home/u/.config/repoinit/token: permission denied"))
    (withGh (lit "gho_abc" ++ [newline]) bare).

(** The token file holds white space only. *)
Definition blankFile : World :=
  setFile (tokenPath configDir) (Content [32%N; newline; 9%N; newline]) bare.

(** The token file holds an older credential. *)
Definition oldFile : World :=
  setFile (tokenPath configDir) (Content (lit "ghp_old" ++ [newline])) bare.

(** The token file holds an older credential and has lost its read
    permission: it can be written and not read. *)
Definition writeOnly : World :=
  setFile (tokenPath configDir)
    (Unreadable (lit "open /home/u/.config/repoinit/token: permission denied")
                (lit "ghp_old" ++ [newline]))
    bare.

(** A device flow granted at the third poll, the token with white space. *)
Definition granted : DeviceWorld :=
  steady (Some 900%Z) (Some 5%Z) 0
    (fun i => match i with
              | 0 | 1 => pending
              | _ => tokenObject (Some " ghu_xyz "%string) None
              end).

Definition viaDevice : World :=
  withDevice granted (withEnv "GITHUB_OAUTH_CLIENT_ID" (lit "Iv1.abc") bare).

End Sample.

(* ================================================================== *)
(** * [main], and more vocabulary *)

(** ** Vocabulary for the device flow *)

(** What holds each time the loop arrives at the [select], whatever the
    polls take and whichever cases the [select] prefers: the polls made so
    far each waited for a tick of their own. *)
Definition paced (st : loopState) : Prop :=
  (0 < period st)%Z /\
  (Z.of_nat (polled st) * period st <= now st)%Z /\
  ((Z.of_nat (polled st) + 1) * period st <= nextTick st)%Z.

(** The token request of a flow. *)
Definition tokenPost (clientID deviceCode : gostring) : effect :=
  HttpPost accessTokenURL (pollForm clientID deviceCode).

(** The device-code response the flow goes on with: a 2xx response whose
    body decodes. *)
Definition initiated (dw : DeviceWorld) : option deviceCodeResponse :=
  match dw_init dw with
  | Response status _ body =>
      if ((status <? 200) || (300 <=? status))%Z then None
      else match decodeCode body with
           | inr dc => Some dc
           | inl _ => None
           end
  | _ => None
  end.

(** When every poll takes less than a period [d], poll number [i] (from 0)
    starts at tick [i + 1].  No request is in flight at [tc]: each poll is
    over before [tc], or starts after it. *)
Definition idleAt (dw : DeviceWorld) (d tc : Z) : Prop :=
  forall i : nat,
    (tc < (Z.of_nat i + 1) * d)%Z \/
    ((Z.of_nat i + 1) * d + Z.of_N (fst (dw_poll dw i)) < tc)%Z.

(** The loop at the [select], with the context done at [tc] and not yet
    noticed: the polls so far were on time and over before [tc]. *)
Definition beforeCancel (d D tc : Z) (st : loopState) : Prop :=
  period st = d /\ deadline st = D /\
  nextTick st = ((Z.of_nat (polled st) + 1) * d)%Z /\
  (0 <= now st < nextTick st)%Z /\
  (now st <= tc)%Z /\
  (Z.of_nat (polled st) * d <= tc)%Z.

(** The loop before its poll number [i] (from 0) when no poll was late. *)
Definition onTime (d D : Z) (i : nat) (st : loopState) : Prop :=
  period st = d /\ deadline st = D /\ polled st = i /\
  (0 <= now st < nextTick st)%Z /\
  nextTick st = ((Z.of_nat i + 1) * d)%Z.

(** ** Vocabulary for the resolver *)

Definition isTokenQuery (e : effect) : bool :=
  match e with ExecOutput _ => true | _ => false end.
Definition isLogin (e : effect) : bool :=
  match e with ExecRun _ => true | _ => false end.
Definition isStoreWrite (e : effect) : bool :=
  match e with WriteFile _ _ _ => true | _ => false end.
Definition isMkdir (e : effect) : bool :=
  match e with MkdirAll _ _ => true | _ => false end.

(** How often a kind of effect occurs. *)
Definition count (P : effect -> bool) (es : list effect) : nat :=
  List.length (filter P es).

(** How a computation [m] of the resolver treats the world it starts in:
    it only appends to the trace; it reads the token file at most [reads]
    times, queries [gh] for a token at most twice,
    starts the login at most once, and creates the directory and writes the
    file at most once each; it runs [gh] only when [gh] is on the path, the
    login only when the token query gave nothing; it sends requests only
    with a client id; it calls [os.WriteFile] only on the token file, with
    [perm] 0600, in a run that called [os.MkdirAll] on its directory, with
    [perm] 0700; it leaves the environment alone. *)
Definition discipline (reads : nat) (m : M outcome) (w : World) : Prop :=
  let r := m w in
  let es := effectsOf m w in
  let clientID := TrimSpace (w_env w (lit "GITHUB_OAUTH_CLIENT_ID")) in
  w_trace (snd r) = w_trace w ++ es
  /\ (count isFileRead es <= reads /\
      count isTokenQuery es <= 2 /\ count isLogin es <= 1 /\
      count isMkdir es <= 1 /\ count isStoreWrite es <= 1)
  /\ (w_ghPath w <> None ->
      forall e, In e es -> isTokenQuery e = false /\ isLogin e = false)
  /\ (forall e, In e es -> isLogin e = true ->
        e = ExecRun ghAuthLogin /\ w_ghPath w = None /\
        (snd (w_ghToken w) <> None \/ TrimSpace (fst (w_ghToken w)) = []))
  /\ (forall e, In e es -> isNetwork e = true -> clientID <> [])
  /\ (forall p data perm, In (WriteFile p data perm) es ->
        exists dir,
          w_configDir w = inr dir /\ p = tokenPath dir /\ perm = 384%N /\
          In (MkdirAll (filepathDir p) 448) es /\
          w_mkdirErr w (filepathDir p) = None /\
          (w_writeErr w p = None ->
           w_fs (snd r) p = overwrite (w_fs w p) data))
  /\ (forall p perm, In (MkdirAll p perm) es ->
        exists dir, w_configDir w = inr dir /\
                    p = filepathDir (tokenPath dir) /\ perm = 448%N)
  /\ (w_env (snd r) = w_env w /\ w_configDir (snd r) = w_configDir w).

(** The world [w1] is [w] with [pre] appended to the trace. *)
Definition later (pre : list effect) (w w1 : World) : Prop :=
  w_env w1 = w_env w /\ w_configDir w1 = w_configDir w /\
  w_fs w1 = w_fs w /\
  w_mkdirErr w1 = w_mkdirErr w /\ w_writeErr w1 = w_writeErr w /\
  w_ghPath w1 = w_ghPath w /\ w_ghToken w1 = w_ghToken w /\
  w_trace w1 = w_trace w ++ pre.

(** Effects that touch neither [gh], nor the store's directory and file,
    nor the network. *)
Definition harmless (e : effect) : bool :=
  negb (isTokenQuery e || isLogin e || isMkdir e || isStoreWrite e
        || isNetwork e).

(** [gh] is installed and hands out [out]: at the first query, or at the
    query after a login that succeeds when the first query gave nothing. *)
Definition ghAnswers (w : World) (out : gostring) : Prop :=
  w_ghPath w = None /\ TrimSpace out <> [] /\
  (w_ghToken w = (out, None) \/
   ((snd (w_ghToken w) <> None \/ TrimSpace (fst (w_ghToken w)) = []) /\
    w_ghLogin w = (None, (out, None)))).

(** Neither the environment nor the token file holds a credential. *)
Definition nothingStored (w : World) : Prop :=
  TrimSpace (w_env w (lit "GITHUB_TOKEN")) = [] /\
  forall dir data,
    w_configDir w = inr dir -> w_fs w (tokenPath dir) = Content data ->
    TrimSpace data = [].

(** [gh] gives no token: it is not installed, or its first query gives
    nothing and then the login fails or the second query gives nothing. *)
Definition ghSilent (w : World) : Prop :=
  w_ghPath w <> None \/
  ((snd (w_ghToken w) <> None \/ TrimSpace (fst (w_ghToken w)) = []) /\
   (fst (w_ghLogin w) <> None \/ snd (snd (w_ghLogin w)) <> None \/
    TrimSpace (fst (snd (w_ghLogin w))) = [])).

(* ================================================================== *)
(** ** The program: [main] and [execCmd] *)

(** [filepath.Base] on a path with [/] as separator: trailing slashes are
    cut, then everything up to the last slash. *)
Definition slash : rune := 47%N.

Fixpoint dropSlashes (s : gostring) : gostring :=
  match s with
  | [] => []
  | c :: r => if N.eqb c slash then dropSlashes r else s
  end.

Fixpoint upToSlash (s : gostring) : gostring :=
  match s with
  | [] => []
  | c :: r => if N.eqb c slash then [] else c :: upToSlash r
  end.

Definition filepathBase (p : gostring) : gostring :=
  if isEmpty p then lit "."
  else
    let last := rev (upToSlash (dropSlashes (rev p))) in
    if isEmpty last then [slash] else last.

(** What the GitHub client hands back; a [nil] pointer field is [None]. *)
Record repository : Type := {
  HTMLURL : option gostring;
  FullName : option gostring
}.

Record user : Type := { Login : option gostring }.

(** [client.Repositories.Create]: the repository, or an error with the
    status of the response when there is one. *)
Inductive createResult : Type :=
| Created (r : repository)
| CreateFailed (status : option Z) (e : error).

(** [os.Stat]: found, failing with an error that [os.IsNotExist] accepts,
    or failing otherwise. *)
Inductive statResult : Type := StatFound | StatNotExist | StatError.

(** An entry of [os.ReadDir]. *)
Record dirEntry : Type := { entryName : gostring; entryIsDir : bool }.

(** The calls of [main] outside the process, in the order made; those of
    the resolver are wrapped in [Auth]. *)
Inductive mainEvent : Type :=
| DotenvLoad
| Auth (e : effect)
| Getwd
| ApiCreate (token name : gostring)
| ApiGetUser (token : gostring)
| ApiGetRepo (token owner name : gostring)
| Stat (name : gostring)
| Exec (argv : list gostring) (attached : bool)
| Output (argv : list gostring)
| ReadDir (name : gostring)
| Stdout (text : gostring)
| Logged (text : gostring).

(** How the process ends: [main] returns, [log.Fatal] exits with status 1,
    a panic, or the device flow is still polling. *)
Inductive mainOutcome : Type :=
| Finished
| Fatal (msg : gostring)
| MainPanicked (msg : gostring)
| MainRunning.

Record MainWorld : Type := {
  (** what [godotenv.Load] makes of the environment *)
  mw_dotenv : (gostring -> gostring) -> gostring -> gostring;
  (** the world of the resolver *)
  mw_auth : World;
  mw_getwd : error + gostring;
  (** the GitHub API, by token and arguments *)
  mw_create : gostring -> gostring -> createResult;
  mw_user : gostring -> error + user;
  mw_repo : gostring -> gostring -> gostring -> error + repository;
  mw_stat : gostring -> statResult;
  (** [cmd.Run] of a command, by the number of events before it *)
  mw_run : nat -> list gostring -> option error;
  (** [cmd.Output] *)
  mw_output : list gostring -> gostring * option error;
  mw_readDir : error + list dirEntry;
  mw_events : list mainEvent
}.

(** A step of [main]: it goes on with a value, or the process ends. *)
Definition Prog (A : Type) : Type := MainWorld -> (A + mainOutcome) * MainWorld.

Definition done {A : Type} (a : A) : Prog A := fun mw => (inl a, mw).
Definition stop {A : Type} (o : mainOutcome) : Prog A := fun mw => (inr o, mw).
Definition andThen {A B : Type} (m : Prog A) (k : A -> Prog B) : Prog B :=
  fun mw =>
    match m mw with
    | (inl a, mw') => k a mw'
    | (inr o, mw') => (inr o, mw')
    end.

Declare Scope prog_scope.
Delimit Scope prog_scope with prog.
Notation "x <-- m ;; k" := (andThen m (fun x => k))
  (at level 61, m at next level, right associativity) : prog_scope.
Notation "m ;;- k" := (andThen m (fun _ => k))
  (at level 61, right associativity) : prog_scope.

Definition record (evs : list mainEvent) (mw : MainWorld) : MainWorld :=
  {| mw_dotenv := mw_dotenv mw; mw_auth := mw_auth mw;
     mw_getwd := mw_getwd mw; mw_create := mw_create mw;
     mw_user := mw_user mw; mw_repo := mw_repo mw; mw_stat := mw_stat mw;
     mw_run := mw_run mw; mw_output := mw_output mw;
     mw_readDir := mw_readDir mw;
     mw_events := mw_events mw ++ evs |}.

Definition setAuth (w : World) (mw : MainWorld) : MainWorld :=
  {| mw_dotenv := mw_dotenv mw; mw_auth := w;
     mw_getwd := mw_getwd mw; mw_create := mw_create mw;
     mw_user := mw_user mw; mw_repo := mw_repo mw; mw_stat := mw_stat mw;
     mw_run := mw_run mw; mw_output := mw_output mw;
     mw_readDir := mw_readDir mw;
     mw_events := mw_events mw |}.

(** [fmt.Println] and [fmt.Printf] on standard output. *)
Definition printOut (text : gostring) : Prog unit :=
  fun mw => (inl tt, record [Stdout text] mw).

(** [log.Printf]. *)
Definition logPrint (text : gostring) : Prog unit :=
  fun mw => (inl tt, record [Logged text] mw).

(** [log.Fatal] and [log.Fatalf]: the message is logged and the process
    exits. *)
Definition logFatal {A : Type} (text : gostring) : Prog A :=
  fun mw => (inr (Fatal text), record [Logged text] mw).

(** A [nil] pointer is dereferenced. *)
Definition nilDereference : gostring :=
  lit "runtime error: invalid memory address or nil pointer dereference".

Definition deref {A : Type} (o : option A) : Prog A :=
  match o with
  | Some a => done a
  | None => stop (MainPanicked nilDereference)
  end.

(** [cmd.Run]; [attached] says whether the command writes to the standard
    output and error of the process. *)
Definition runCmd (attached : bool) (argv : list gostring)
  : Prog (option error) :=
  fun mw =>
    (inl (mw_run mw (List.length (mw_events mw)) argv),
     record [Exec argv attached] mw).

(** [execCmd]. *)
Definition execCmd (argv : list gostring) : Prog (option error) :=
  runCmd true argv.

Definition osStat (name : string) : Prog statResult :=
  fun mw => (inl (mw_stat mw (lit name)), record [Stat (lit name)] mw).

(** [context.Background()] is never done. *)
Definition withBackground (dw : DeviceWorld) : DeviceWorld :=
  {| dw_init := dw_init dw; dw_cancel := None;
     dw_poll := dw_poll dw; dw_prio := dw_prio dw |}.

(** The world in which [main] calls the resolver: the environment is as
    [godotenv.Load] left it, the context is the background one. *)
Definition authWorld (mw : MainWorld) : World :=
  let w := mw_auth mw in
  {| w_env := mw_dotenv mw (w_env w); w_configDir := w_configDir w;
     w_fs := w_fs w; w_mkdirErr := w_mkdirErr w; w_writeErr := w_writeErr w;
     w_ghPath := w_ghPath w; w_ghToken := w_ghToken w;
     w_ghLogin := w_ghLogin w; w_device := withBackground (w_device w);
     w_trace := w_trace w |}.

(** [%v] of an error. *)
Definition showError (e : option error) : gostring :=
  match e with Some m => m | None => lit "<nil>" end.

(** The first lines of [main]: [godotenv.Load()], then the resolver, and
    the exit when there is no token. *)
Definition authenticate (fuel : nat) : Prog gostring :=
  fun mw =>
    let w0 := authWorld mw in
    let '(o, w1) := resolveGitHubToken fuel w0 in
    let mw1 :=
      record (DotenvLoad
              :: map Auth (effectsOf (resolveGitHubToken fuel) w0))
             (setAuth w1 mw) in
    match o with
    | Returned token err =>
        if negb (isNil err) || isEmpty token then
          logFatal (lit "Authentication required. " ++ showError err) mw1
        else (inl token, mw1)
    | Panicked msg => (inr (MainPanicked msg), mw1)
    | Running => (inr MainRunning, mw1)
    end.

Definition osGetwd : Prog (error + gostring) :=
  fun mw => (inl (mw_getwd mw), record [Getwd] mw).

Definition apiCreate (token name : gostring) : Prog createResult :=
  fun mw => (inl (mw_create mw token name), record [ApiCreate token name] mw).

Definition apiGetUser (token : gostring) : Prog (error + user) :=
  fun mw => (inl (mw_user mw token), record [ApiGetUser token] mw).

Definition apiGetRepo (token owner name : gostring)
  : Prog (error + repository) :=
  fun mw => (inl (mw_repo mw token owner name),
             record [ApiGetRepo token owner name] mw).

(** The repository [main] goes on with: the one just created, or the
    existing one when the creation is refused with status 422. *)
Definition obtainRepository (token repoName : gostring) : Prog repository :=
  (c <-- apiCreate token repoName ;;
   match c with
   | CreateFailed status e =>
       match status with
       | Some 422%Z =>
           u <-- apiGetUser token ;;
           match u with
           | inl e' => logFatal (lit "Failed to get user:" ++ e')
           | inr usr =>
               login <-- deref (Login usr) ;;
               r <-- apiGetRepo token login repoName ;;
               match r with
               | inl e' =>
                   logFatal (lit "Failed to get existing repository:" ++ e')
               | inr repo =>
                   url <-- deref (HTMLURL repo) ;;
                   printOut (lit "Using existing repository: " ++ url
                             ++ [newline]) ;;-
                   done repo
               end
           end
       | _ => logFatal (lit "Failed to create repository:" ++ e)
       end
   | Created repo =>
       url <-- deref (HTMLURL repo) ;;
       printOut (lit "Created repository: " ++ url ++ [newline]) ;;-
       done repo
   end)%prog.

Definition git (args : list string) : list gostring :=
  lit "git" :: map lit args.

(** The test of the staging loop. *)
Definition staged (f : dirEntry) : bool :=
  negb (hasPrefix (lit ".") (entryName f))
  && negb (entryIsDir f)
  && negb (GoString.eqb (entryName f) (lit ".gitignore")).

(** The loop over the directory entries. *)
Fixpoint addFiles (files : list dirEntry) : Prog unit :=
  match files with
  | [] => done tt
  | f :: rest =>
      ((if staged f then
          e <-- execCmd (git ["add"%string] ++ [entryName f]) ;;
          match e with
          | Some err =>
              logPrint (lit "Warning: Failed to add " ++ entryName f
                        ++ lit ": " ++ err)
          | None => done tt
          end
        else done tt) ;;-
       addFiles rest)%prog
  end.

Definition cmdOutput (argv : list gostring) : Prog (gostring * option error) :=
  fun mw => (inl (mw_output mw argv), record [Output argv] mw).

Definition osReadDir : Prog (error + list dirEntry) :=
  fun mw => (inl (mw_readDir mw), record [ReadDir (lit ".")] mw).

Definition successLine : gostring :=
  lit "Successfully initialized and pushed repository!" ++ [newline].

(** What [main] does with the repository: the local git commands. *)
Definition initAndPush (repo : repository) : Prog unit :=
  (s <-- osStat ".git" ;;
   (match s with
    | StatNotExist =>
        e <-- execCmd (git ["init"%string]) ;;
        match e with
        | Some err => logFatal (lit "Failed to init git:" ++ err)
        | None => done tt
        end
    | _ => done tt
    end) ;;-
   runCmd false (git ["remote"; "remove"; "origin"]%string) ;;-
   full <-- deref (FullName repo) ;;
   e <-- execCmd (git ["remote"; "add"; "origin"]%string
                  ++ [lit "git@github.com:" ++ full ++ lit ".git"]) ;;
   (match e with
    | Some err => logFatal (lit "Failed to add remote:" ++ err)
    | None => done tt
    end) ;;-
   s' <-- osStat ".gitignore" ;;
   (match s' with
    | StatFound =>
        e' <-- execCmd (git ["add"; ".gitignore"]%string) ;;
        match e' with
        | Some err =>
            logPrint (lit "Warning: Failed to add .gitignore: " ++ err)
        | None => done tt
        end
    | _ => done tt
    end) ;;-
   d <-- osReadDir ;;
   match d with
   | inl err => logFatal (lit "Failed to read directory:" ++ err)
   | inr files =>
       addFiles files ;;-
       e1 <-- execCmd (git ["commit"; "-m"; "Initial commit"]%string) ;;
       (match e1 with
        | Some err => logFatal (lit "Failed to commit:" ++ err)
        | None => done tt
        end) ;;-
       b <-- cmdOutput (git ["rev-parse"; "--abbrev-ref"; "HEAD"]%string) ;;
       match snd b with
       | Some err => logFatal (lit "Failed to get branch name:" ++ err)
       | None =>
           e2 <-- execCmd (git ["push"; "-u"; "origin"]%string
                           ++ [TrimSpace (fst b)]) ;;
           match e2 with
           | Some err => logFatal (lit "Failed to push:" ++ err)
           | None => printOut successLine
           end
       end
   end)%prog.

(** [main]. *)
Definition mainProg (fuel : nat) : Prog unit :=
  (token <-- authenticate fuel ;;
   p <-- osGetwd ;;
   match p with
   | inl err => logFatal (lit "Failed to get current directory:" ++ err)
   | inr pwd =>
       repo <-- obtainRepository token (filepathBase pwd) ;;
       initAndPush repo
   end)%prog.

Definition main (fuel : nat) (mw : MainWorld) : mainOutcome * MainWorld :=
  match mainProg fuel mw with
  | (inl _, mw') => (Finished, mw')
  | (inr o, mw') => (o, mw')
  end.

(** The events of a step: what it appends. *)
Definition eventsOf {A : Type} (m : Prog A) (mw : MainWorld) : list mainEvent :=
  skipn (List.length (mw_events mw)) (mw_events (snd (m mw))).

Definition isExec (ev : mainEvent) : bool :=
  match ev with Exec _ _ => true | _ => false end.

Definition isLogged (ev : mainEvent) : bool :=
  match ev with Logged _ => true | _ => false end.

(** The [git add] of an entry, as [execCmd] runs it. *)
Definition addOf (f : dirEntry) : mainEvent :=
  Exec (git ["add"%string] ++ [entryName f]) true.

Definition commitCmd : list gostring :=
  git ["commit"; "-m"; "Initial commit"]%string.
Definition branchCmd : list gostring :=
  git ["rev-parse"; "--abbrev-ref"; "HEAD"]%string.
Definition pushCmd (branch : gostring) : list gostring :=
  git ["push"; "-u"; "origin"]%string ++ [branch].
Definition remoteAddCmd (full : gostring) : list gostring :=
  git ["remote"; "add"; "origin"]%string
  ++ [lit "git@github.com:" ++ full ++ lit ".git"].
Definition remoteRemoveCmd : list gostring :=
  git ["remote"; "remove"; "origin"]%string.

(** The last events of a run that succeeds. *)
Definition closing (branch : gostring) : list mainEvent :=
  [ Exec commitCmd true; Output branchCmd;
    Exec (pushCmd branch) true; Stdout successLine ].

(** The events of a run of [main]. *)
Definition mainEvents (fuel : nat) (mw : MainWorld) : list mainEvent :=
  skipn (List.length (mw_events mw)) (mw_events (snd (main fuel mw))).

(** The events of the first lines of [main]. *)
Definition authEvents (fuel : nat) (mw : MainWorld) : list mainEvent :=
  DotenvLoad
  :: map Auth (effectsOf (resolveGitHubToken fuel) (authWorld mw)).

(** What [main] does beyond finding a credential and logging. *)
Definition isWork (ev : mainEvent) : bool :=
  match ev with
  | DotenvLoad | Auth _ | Logged _ => false
  | _ => true
  end.

(** The token an API call is made with. *)
Definition apiToken (ev : mainEvent) : option gostring :=
  match ev with
  | ApiCreate token _ | ApiGetUser token | ApiGetRepo token _ _ => Some token
  | _ => None
  end.

(** The world after the first lines of [main]. *)
Definition authenticated (fuel : nat) (mw : MainWorld) : MainWorld :=
  record (authEvents fuel mw)
         (setAuth (snd (resolveGitHubToken fuel (authWorld mw))) mw).

(** [git add ...]. *)
Definition isAdd (argv : list gostring) : bool :=
  match argv with
  | _ :: sub :: _ => GoString.eqb sub (lit "add")
  | _ => false
  end.

(** The repository the API answers with: the new one, or the one of the
    same name that the user already has. *)
Definition answered (mw : MainWorld) (token name : gostring)
    (repo : repository) : Prop :=
  mw_create mw token name = Created repo \/
  exists e usr login,
    mw_create mw token name = CreateFailed (Some 422%Z) e /\
    mw_user mw token = inr usr /\ Login usr = Some login /\
    mw_repo mw token login name = inr repo.

(** The commands whose failure ends [main]. *)
Definition vital (full branch : gostring) : list (list gostring) :=
  [git ["init"%string]; remoteAddCmd full; commitCmd; pushCmd branch].

(** ** Further sample worlds *)

Module Demo.

(** A device-code response without [expires_in]. *)
Definition noExpiry : DeviceWorld :=
  Sample.steady None (Some 5%Z) 0 (fun _ => Sample.pending).

(** The context is cancelled after twelve seconds; every poll is pending
    after a tenth of a second. *)
Definition interrupted : DeviceWorld :=
  {| dw_init := Sample.codeObject (Some 900%Z) (Some 5%Z);
     dw_cancel := Some ((12 * Second)%Z, lit "context canceled");
     dw_poll := fun _ => (100000000%N, Sample.pending);
     dw_prio := fun _ => [] |}.

(** The token object of [Sample.granted]. *)
Definition grant : tokenJSON :=
  {| j_access_token := Some (lit " ghu_xyz ");
     j_token_type := None; j_scope := None; j_error := None;
     j_error_description := None |}.

(** A project directory without [.git]: the API creates the repository,
    every [git add] fails, every other command succeeds. *)
Definition project : MainWorld :=
  {| mw_dotenv := fun env => env;
     mw_auth := Sample.envToken;
     mw_getwd := inr (lit "/home/u/work/demo");
     mw_create := fun _ name =>
       Created {| HTMLURL := Some (lit "https://github.com/u/" ++ name);
                  FullName := Some (lit "u/" ++ name) |};
     mw_user := fun _ => inl (lit "unexpected");
     mw_repo := fun _ _ _ => inl (lit "unexpected");
     mw_stat := fun _ => StatNotExist;
     mw_run := fun _ argv =>
       if isAdd argv then Some (lit "exit status 128") else None;
     mw_output := fun _ => (lit "master" ++ [newline], None);
     mw_readDir :=
       inr [ {| entryName := lit ".env"; entryIsDir := false |};
             {| entryName := lit "README.md"; entryIsDir := false |};
             {| entryName := lit "src"; entryIsDir := true |} ];
     mw_events := [] |}.

Definition demoRepository : repository :=
  {| HTMLURL := Some (lit "https://github.com/u/demo");
     FullName := Some (lit "u/demo") |}.

(** The same directory on a machine with no credential anywhere. *)
Definition stranded : MainWorld := setAuth Sample.bare project.

(** The same directory, and an API that rejects the credential. *)
Definition refused : MainWorld :=
  {| mw_dotenv := mw_dotenv project; mw_auth := mw_auth project;
     mw_getwd := mw_getwd project;
     mw_create := fun _ _ =>
       CreateFailed (Some 401%Z) (lit "401 Bad credentials");
     mw_user := mw_user project; mw_repo := mw_repo project;
     mw_stat := mw_stat project; mw_run := mw_run project;
     mw_output := mw_output project; mw_readDir := mw_readDir project;
     mw_events := [] |}.

(** [gh] is installed and logged in; nothing else is configured. *)
Definition ghReady : World := Sample.withGh (lit "gho_abc" ++ [newline]) Sample.bare.

End Demo.

(* ================================================================== *)
(** * Properties *)

(** ** Strings *)

Section StringFacts.

Lemma eqb_eq (a b : gostring) : GoString.eqb a b = true <-> a = b.
Proof.
  revert b; induction a as [|x a IH]; intros [|y b]; simpl;
    try (split; [discriminate | congruence]); try tauto.
  rewrite andb_true_iff, N.eqb_eq, IH.
  split; [intros [-> ->]; reflexivity | intros H; inversion H; auto].
Qed.

Lemma eqb_refl (a : gostring) : GoString.eqb a a = true.
Proof. apply eqb_eq; reflexivity. Qed.

Lemma eqb_neq (a b : gostring) : GoString.eqb a b = false <-> a <> b.
Proof.
  rewrite <- eqb_eq. destruct (GoString.eqb a b); split; congruence.
Qed.

Lemma isEmpty_true (s : gostring) : isEmpty s = true <-> s = [].
Proof. destruct s; simpl; split; congruence. Qed.

Lemma isEmpty_false (s : gostring) : isEmpty s = false <-> s <> [].
Proof. destruct s; simpl; split; congruence. Qed.

Lemma path_eqb_refl (p : path) : path_eqb p p = true.
Proof.
  induction p as [|x p IH]; simpl; [reflexivity|].
  rewrite eqb_refl, IH; reflexivity.
Qed.

(** [trimLeft] cuts a prefix of white space and stops at the first other
    rune. *)
Lemma trimLeft_split (s : gostring) :
  exists p, s = p ++ trimLeft s /\ forallb isSpace p = true.
Proof.
  induction s as [|c r [p [E F]]]; simpl.
  - exists []; split; reflexivity.
  - destruct (isSpace c) eqn:Hc.
    + exists (c :: p); simpl; rewrite Hc, F; split; [congruence | reflexivity].
    + exists []; split; reflexivity.
Qed.

Lemma trimLeft_head (s : gostring) c r :
  trimLeft s = c :: r -> isSpace c = false.
Proof.
  induction s as [|x s IH]; simpl; [discriminate|].
  destruct (isSpace x) eqn:Hx; [exact IH|].
  intros H; inversion H; subst; exact Hx.
Qed.

Lemma trimLeft_id (s : gostring) :
  (forall c r, s = c :: r -> isSpace c = false) -> trimLeft s = s.
Proof.
  destruct s as [|c r]; simpl; [reflexivity|].
  intros H; rewrite (H c r eq_refl); reflexivity.
Qed.

Lemma trimRight_split (s : gostring) :
  exists q, s = trimRight s ++ q /\ forallb isSpace q = true.
Proof.
  unfold trimRight.
  destruct (trimLeft_split (rev s)) as [p [E F]].
  exists (rev p); split.
  - rewrite <- rev_app_distr, <- E, rev_involutive; reflexivity.
  - rewrite forallb_forall in *; intros x Hx; apply F, in_rev, Hx.
Qed.

Lemma trimRight_last (s : gostring) r c :
  trimRight s = r ++ [c] -> isSpace c = false.
Proof.
  unfold trimRight; intros H.
  apply (f_equal (@rev rune)) in H.
  rewrite rev_involutive, rev_app_distr in H; simpl in H.
  exact (trimLeft_head _ _ _ H).
Qed.

Lemma trimRight_id (s : gostring) :
  (forall r c, s = r ++ [c] -> isSpace c = false) -> trimRight s = s.
Proof.
  intros H; unfold trimRight.
  rewrite trimLeft_id; [apply rev_involutive|].
  intros c r E; apply (H (rev r) c).
  rewrite <- (rev_involutive s), E; reflexivity.
Qed.

Lemma trimRight_head (s : gostring) c r :
  (forall c' r', s = c' :: r' -> isSpace c' = false) ->
  trimRight s = c :: r -> isSpace c = false.
Proof.
  intros H E.
  destruct (trimRight_split s) as [q [Es _]].
  rewrite E in Es; simpl in Es.
  exact (H _ _ Es).
Qed.

(** What [strings.TrimSpace] returns has no white space at either end. *)
Lemma TrimSpace_trimmed (s : gostring) : trimmed (TrimSpace s).
Proof.
  unfold TrimSpace; split.
  - intros c r E.
    apply (trimRight_head (trimLeft s) c r); [|exact E].
    intros c' r'; apply trimLeft_head.
  - intros r c E; exact (trimRight_last _ _ _ E).
Qed.

(** A string with no white space around it is left as it is. *)
Lemma TrimSpace_id (s : gostring) : trimmed s -> TrimSpace s = s.
Proof.
  intros [Hh Hl]; unfold TrimSpace.
  rewrite (trimLeft_id _ Hh); exact (trimRight_id _ Hl).
Qed.

Lemma TrimSpace_idem (s : gostring) : TrimSpace (TrimSpace s) = TrimSpace s.
Proof. apply TrimSpace_id, TrimSpace_trimmed. Qed.

(** A white-space rune appended to a trimmed string is cut again. *)
Lemma TrimSpace_app_space (t : gostring) (c : rune) :
  trimmed t -> isSpace c = true -> TrimSpace (t ++ [c]) = t.
Proof.
  intros [Hh Hl] Hc; unfold TrimSpace.
  destruct t as [|x r].
  - simpl; rewrite Hc; reflexivity.
  - assert (Hx : isSpace x = false) by exact (Hh x r eq_refl).
    rewrite trimLeft_id.
    + unfold trimRight; rewrite rev_app_distr; simpl rev at 2.
      simpl app at 1. simpl trimLeft at 1. rewrite Hc.
      exact (trimRight_id _ Hl).
    + simpl; intros c' r' E; inversion E; subst; exact Hx.
Qed.

Lemma TrimSpace_credential (s : gostring) :
  TrimSpace s <> [] -> credential (TrimSpace s).
Proof. intros H; split; [exact H | apply TrimSpace_trimmed]. Qed.

End StringFacts.

(* ================================================================== *)
(** ** The switch of [pollDeviceToken] *)

Section Classify.

Variable tr : deviceTokenResponse.

Lemma classify_granted :
  Error tr = [] -> classify tr = (TrimSpace (AccessToken tr), false, None).
Proof. intros E; unfold classify; rewrite E; reflexivity. Qed.

Lemma classify_pending :
  Error tr = lit "authorization_pending" -> classify tr = ([], true, None).
Proof. intros E; unfold classify; rewrite E; reflexivity. Qed.

Lemma classify_slow_down :
  Error tr = lit "slow_down" -> classify tr = ([], true, None).
Proof. intros E; unfold classify; rewrite E; reflexivity. Qed.

Lemma classify_expired :
  Error tr = lit "expired_token" ->
  classify tr = ([], false, Some (errorsNew "device code expired")).
Proof. intros E; unfold classify; rewrite E; reflexivity. Qed.

Lemma classify_denied :
  Error tr = lit "access_denied" ->
  classify tr = ([], false, Some (errorsNew "access denied by user")).
Proof. intros E; unfold classify; rewrite E; reflexivity. Qed.

Lemma classify_unrecognized :
  unrecognized (Error tr) ->
  classify tr = ([], false, Some (lit "oauth error: " ++ Error tr)).
Proof.
  intros [Hne Hnot]; unfold classify.
  assert (H0 : GoString.eqb (Error tr) [] = false) by (apply eqb_neq; exact Hne).
  rewrite H0.
  repeat match goal with
  | |- context [GoString.eqb (Error tr) ?c] =>
      let H := fresh in
      assert (H : GoString.eqb (Error tr) c = false)
        by (apply eqb_neq; intros E; apply Hnot; rewrite E;
            unfold recognized; simpl; tauto);
      rewrite H; clear H
  end.
  reflexivity.
Qed.

(** Whenever the switch gives an error, polling is not to continue or the
    token is empty: the triple never carries both a token and an error. *)
Lemma classify_token_no_error :
  forall e, snd (classify tr) = Some e -> fst (fst (classify tr)) = [].
Proof.
  unfold classify; intros e.
  repeat match goal with
  | |- context [if ?b then _ else _] => destruct b
  end; simpl; congruence.
Qed.

End Classify.

(* ================================================================== *)
(** ** One pass of the polling loop *)

Section OnePass.

Variables (dw : DeviceWorld) (clientID deviceCode : gostring).
Variable st : loopState.

Hypothesis tick : selectCase dw st = CaseTick.

Let exchange := snd (dw_poll dw (polled st)).
Let next := afterPoll dw clientID deviceCode st.
Let pass := loopIter dw clientID deviceCode st.

Lemma pass_on_tick :
  pass =
  match pollDeviceToken exchange with
  | (_, _, Some e) => Return next [] (Some e)
  | (token, cont, None) =>
      if negb (isEmpty token) then Return next token None
      else if negb cont then Return next [] (Some declinedError)
      else Continue next
  end.
Proof.
  unfold pass, loopIter; rewrite tick; fold exchange; fold next.
  destruct (pollDeviceToken exchange) as [[token cont] [e|]]; reflexivity.
Qed.

Lemma pass_error e :
  snd (pollDeviceToken exchange) = Some e -> pass = Return next [] (Some e).
Proof.
  rewrite pass_on_tick.
  destruct (pollDeviceToken exchange) as [[token cont] err]; simpl.
  intros ->; reflexivity.
Qed.

Lemma pass_continue :
  continues exchange -> pass = Continue next.
Proof.
  unfold continues; rewrite pass_on_tick; intros ->; reflexivity.
Qed.

Lemma pass_token token cont :
  pollDeviceToken exchange = (token, cont, None) -> token <> [] ->
  pass = Return next token None.
Proof.
  rewrite pass_on_tick; intros -> Hne.
  apply isEmpty_false in Hne; rewrite Hne; reflexivity.
Qed.

Lemma pass_declined :
  pollDeviceToken exchange = ([], false, None) ->
  pass = Return next [] (Some declinedError).
Proof. rewrite pass_on_tick; intros ->; reflexivity. Qed.

End OnePass.

(* ================================================================== *)
(** ** Claims on the single poll *)

(** C1.  A decoded token response is classified by its [error] member, and
    the loop acts on the class at once.  With no error member (or an empty
    one) and an access token that is not blank, the poll grants: the loop
    returns that token, as a credential (white space around it cut), with no
    error.  [authorization_pending] and [slow_down] make the loop go round
    again, the ticker keeping its period.  [expired_token] ends the flow with
    an expiry error, [access_denied] with a denial error, in that very pass.
    Any other code that is not empty ends the flow with an error that carries
    the code: it is not taken as transient. *)
Theorem poll_classification
  (dw : DeviceWorld) (clientID deviceCode : gostring) (st : loopState)
  (status : Z) (raw : gostring) (j : tokenJSON) :
  selectCase dw st = CaseTick ->
  snd (dw_poll dw (polled st)) = Response status raw (Object j) ->
  let e := stringField (j_error j) in
  let token := TrimSpace (stringField (j_access_token j)) in
  let r := Response status raw (Object j) in
  let next := afterPoll dw clientID deviceCode st in
  let pass := loopIter dw clientID deviceCode st in
  (e = [] -> token <> [] ->
   pollDeviceToken r = (token, false, None) /\
   pass = Return next token None /\ credential token)
  /\ (e = lit "authorization_pending" ->
      pollDeviceToken r = ([], true, None) /\
      pass = Continue next /\ period next = period st)
  /\ (e = lit "slow_down" ->
      pollDeviceToken r = ([], true, None) /\
      pass = Continue next /\ period next = period st)
  /\ (e = lit "expired_token" ->
      pollDeviceToken r = ([], false, Some (errorsNew "device code expired")) /\
      pass = Return next [] (Some (errorsNew "device code expired")))
  /\ (e = lit "access_denied" ->
      pollDeviceToken r = ([], false, Some (errorsNew "access denied by user")) /\
      pass = Return next [] (Some (errorsNew "access denied by user")))
  /\ (unrecognized e ->
      pollDeviceToken r = ([], false, Some (lit "oauth error: " ++ e)) /\
      pass = Return next [] (Some (lit "oauth error: " ++ e))).
Proof.
  intros Htick Hex e token r next pass.
  pose proof (pass_on_tick dw clientID deviceCode st Htick) as Hpass.
  rewrite Hex in Hpass. fold r next pass in Hpass.
  assert (Hr : pollDeviceToken r
               = classify {| AccessToken := stringField (j_access_token j);
                             TokenType := stringField (j_token_type j);
                             TokenScope := stringField (j_scope j);
                             Error := e;
                             ErrorDesc := stringField (j_error_description j) |})
    by reflexivity.
  rewrite Hr in *.
  repeat split.
  - rewrite classify_granted by assumption; reflexivity.
  - rewrite Hpass, classify_granted by assumption. simpl AccessToken.
    fold token. apply isEmpty_false in H0. rewrite H0; reflexivity.
  - assumption.
  - apply TrimSpace_trimmed.
  - apply TrimSpace_trimmed.
  - rewrite classify_pending by assumption; reflexivity.
  - rewrite Hpass, classify_pending by assumption; reflexivity.
  - rewrite classify_slow_down by assumption; reflexivity.
  - rewrite Hpass, classify_slow_down by assumption; reflexivity.
  - rewrite classify_expired by assumption; reflexivity.
  - rewrite Hpass, classify_expired by assumption; reflexivity.
  - rewrite classify_denied by assumption; reflexivity.
  - rewrite Hpass, classify_denied by assumption; reflexivity.
  - rewrite classify_unrecognized by assumption; reflexivity.
  - rewrite Hpass, classify_unrecognized by assumption; reflexivity.
Qed.

Lemma poll_classification_witness :
  loopIter Sample.unknownCode (lit "cid") (lit "D") Sample.entry
  = Return (afterPoll Sample.unknownCode (lit "cid") (lit "D") Sample.entry) []
           (Some (lit "oauth error: unsupported_grant_type")).
Proof.
  destruct (poll_classification Sample.unknownCode (lit "cid") (lit "D")
              Sample.entry 200 []
              {| j_access_token := None; j_token_type := None; j_scope := None;
                 j_error := Some (lit "unsupported_grant_type");
                 j_error_description := None |}
              eq_refl eq_refl) as (_ & _ & _ & _ & _ & H).
  apply H. split.
  - discriminate.
  - vm_compute. intros [E|[E|[E|[E|[]]]]]; discriminate E.
Defined.

Lemma deviceLoop_return fuel dw clientID deviceCode st st' token err :
  loopIter dw clientID deviceCode st = Return st' token err ->
  deviceLoop (S fuel) dw clientID deviceCode st
  = {| fr_outcome := Returned token err; fr_time := now st';
       fr_period := period st'; fr_polls := polled st';
       fr_effects := sent st' |}.
Proof. intros H; simpl; rewrite H; reflexivity. Qed.

Lemma deviceLoop_continue fuel dw clientID deviceCode st st' :
  loopIter dw clientID deviceCode st = Continue st' ->
  deviceLoop (S fuel) dw clientID deviceCode st
  = deviceLoop fuel dw clientID deviceCode st'.
Proof. intros H; simpl; rewrite H; reflexivity. Qed.

(** C9.  A token response with no error member (or an empty one) and a blank
    access token ends the flow in that pass with the error
    "authorization declined": the loop does not go round again, no token is
    returned, and the error is not one of the protocol errors; the poll just
    made is the last one. *)
Theorem blank_token_declines
  (dw : DeviceWorld) (clientID deviceCode : gostring) (st : loopState)
  (status : Z) (raw : gostring) (j : tokenJSON) (fuel : nat) :
  selectCase dw st = CaseTick ->
  snd (dw_poll dw (polled st)) = Response status raw (Object j) ->
  stringField (j_error j) = [] ->
  TrimSpace (stringField (j_access_token j)) = [] ->
  let next := afterPoll dw clientID deviceCode st in
  let run := deviceLoop (S fuel) dw clientID deviceCode st in
  loopIter dw clientID deviceCode st
  = Return next [] (Some (errorsNew "authorization declined"))
  /\ fr_outcome run = Returned [] (Some (errorsNew "authorization declined"))
  /\ fr_polls run = S (polled st)
  /\ fr_time run = (wakeTime dw st + Z.of_N (fst (dw_poll dw (polled st))))%Z.
Proof.
  intros Htick Hex He Htok next run.
  assert (Hpass : loopIter dw clientID deviceCode st
                  = Return next [] (Some declinedError)).
  { apply pass_declined; [exact Htick|].
    rewrite Hex; unfold pollDeviceToken, decodeToken.
    rewrite classify_granted by exact He.
    simpl AccessToken; rewrite Htok; reflexivity. }
  split; [exact Hpass|].
  unfold run; rewrite (deviceLoop_return fuel _ _ _ _ _ _ _ Hpass).
  repeat split.
Qed.

Lemma blank_token_declines_witness :
  fr_outcome (deviceLoop 1 Sample.blankToken (lit "cid") (lit "D") Sample.entry)
  = Returned [] (Some (errorsNew "authorization declined")).
Proof.
  apply (blank_token_declines Sample.blankToken (lit "cid") (lit "D")
           Sample.entry 200 []
           {| j_access_token := Some (lit "  "); j_token_type := None;
              j_scope := None; j_error := None;
              j_error_description := None |} 0
           eq_refl eq_refl eq_refl eq_refl).
Defined.

Lemma pollFails_error r e : pollFails r e -> snd (pollDeviceToken r) = Some e.
Proof.
  intros [-> | [-> | [(status & raw & ->) | (status & raw & j & -> & Hu & ->)]]];
    try reflexivity.
  unfold pollDeviceToken, decodeToken.
  rewrite classify_unrecognized by exact Hu; reflexivity.
Qed.

(** C10.  A poll attempt that itself errors (the request fails, the body is
    not decodable as JSON, or the error member holds a code the program does
    not know) ends the whole flow in that pass with that error: the pass
    returns, it never goes round again, and the requests sent are those up to
    and including this poll. *)
Theorem poll_error_ends_flow
  (dw : DeviceWorld) (clientID deviceCode : gostring) (st : loopState)
  (e : error) (fuel : nat) :
  selectCase dw st = CaseTick ->
  pollFails (snd (dw_poll dw (polled st))) e ->
  let next := afterPoll dw clientID deviceCode st in
  let run := deviceLoop (S fuel) dw clientID deviceCode st in
  loopIter dw clientID deviceCode st = Return next [] (Some e)
  /\ fr_outcome run = Returned [] (Some e)
  /\ fr_polls run = S (polled st)
  /\ fr_effects run
     = sent st ++ pollEffects clientID deviceCode (snd (dw_poll dw (polled st))).
Proof.
  intros Htick Hfail next run.
  assert (Hpass : loopIter dw clientID deviceCode st = Return next [] (Some e))
    by (apply pass_error; [exact Htick | exact (pollFails_error _ _ Hfail)]).
  split; [exact Hpass|].
  unfold run; rewrite (deviceLoop_return fuel _ _ _ _ _ _ _ Hpass).
  repeat split.
Qed.

Lemma poll_error_ends_flow_witness :
  fr_outcome (deviceLoop 3 Sample.brokenBody (lit "cid") (lit "D") Sample.entry)
  = Returned []
      (Some (lit "invalid character '<' looking for beginning of value"))
  /\ fr_polls (deviceLoop 3 Sample.brokenBody (lit "cid") (lit "D") Sample.entry)
     = 1.
Proof.
  destruct (poll_error_ends_flow Sample.brokenBody (lit "cid") (lit "D")
              Sample.entry
              (lit "invalid character '<' looking for beginning of value") 2
              eq_refl
              (or_intror (or_intror (or_introl
                 (ex_intro _ 200%Z (ex_intro _ (lit "<html>") eq_refl))))))
    as (_ & Ho & Hp & _).
  split; [exact Ho | exact Hp].
Defined.

(* ================================================================== *)
(** ** The select and the timers *)

Lemma wrap64_small z : (- two63 <= z < two63)%Z -> wrap64 z = z.
Proof.
  intros H; unfold wrap64.
  rewrite Z.mod_small; [lia|].
  unfold two63, two64 in *; lia.
Qed.

Lemma pollInterval_pos dc : (0 < pollInterval dc)%Z.
Proof. unfold pollInterval; destruct (Z.leb_spec (Interval dc) 0); lia. Qed.

Lemma tickerPeriod_seconds dc :
  (Interval dc <= maxSeconds)%Z ->
  tickerPeriod dc = (pollInterval dc * Second)%Z.
Proof.
  intros H; unfold tickerPeriod; apply wrap64_small.
  pose proof (pollInterval_pos dc) as Hp.
  assert (pollInterval dc <= maxSeconds)%Z
    by (unfold pollInterval, maxSeconds in *;
        destruct (Z.leb_spec (Interval dc) 0); lia).
  unfold two63, Second, maxSeconds in *; lia.
Qed.

Lemma expiryDuration_seconds dc :
  (0 <= ExpiresIn dc <= maxSeconds)%Z ->
  expiryDuration dc = (ExpiresIn dc * Second)%Z.
Proof.
  intros H; unfold expiryDuration; apply wrap64_small.
  unfold two63, Second, maxSeconds in *; lia.
Qed.

(** The [select] takes a case that can proceed. *)
Lemma selectCase_ready dw st :
  ready dw st (wakeTime dw st) (selectCase dw st) = true.
Proof.
  unfold selectCase.
  destruct (find _ _) as [c|] eqn:F.
  - apply find_some in F; tauto.
  - exfalso.
    pose proof (find_none _ _ F) as Hn.
    assert (H1 := Hn CaseDone). assert (H2 := Hn CaseTimeout).
    assert (H3 := Hn CaseTick).
    rewrite in_app_iff in H1, H2, H3; simpl in H1, H2, H3.
    specialize (H1 ltac:(tauto)); specialize (H2 ltac:(tauto));
      specialize (H3 ltac:(tauto)).
    unfold wakeTime in *.
    destruct (dw_cancel dw) as [[tc e]|];
      repeat match goal with
             | H : (_ <=? _)%Z = false |- _ => apply Z.leb_gt in H
             end; lia.
Qed.

(** The loop does not touch the ticker's period nor the expiry. *)
Lemma loopIter_period dw clientID deviceCode st :
  match loopIter dw clientID deviceCode st with
  | Return st' _ _ | Continue st' =>
      period st' = period st /\ deadline st' = deadline st
  end.
Proof.
  unfold loopIter.
  destruct (selectCase dw st); try (split; reflexivity).
  destruct (pollDeviceToken _) as [[token cont] [e|]]; [split; reflexivity|].
  destruct (negb (isEmpty token)); [split; reflexivity|].
  destruct (negb cont); split; reflexivity.
Qed.

Lemma loopIter_continue dw clientID deviceCode st st' :
  loopIter dw clientID deviceCode st = Continue st' ->
  selectCase dw st = CaseTick /\ st' = afterPoll dw clientID deviceCode st.
Proof.
  unfold loopIter.
  destruct (selectCase dw st); try discriminate.
  destruct (pollDeviceToken _) as [[token cont] [e|]]; [discriminate|].
  destruct (negb (isEmpty token)); [discriminate|].
  destruct (negb cont); [discriminate|].
  intros H; inversion H; split; reflexivity.
Qed.

Lemma deviceLoop_period fuel dw clientID deviceCode :
  forall st, fr_period (deviceLoop fuel dw clientID deviceCode st) = period st.
Proof.
  induction fuel as [|fuel IH]; intros st; simpl; [reflexivity|].
  pose proof (loopIter_period dw clientID deviceCode st) as H.
  destruct (loopIter dw clientID deviceCode st) as [st' token err|st'].
  - simpl; tauto.
  - rewrite IH; tauto.
Qed.

(** More passes do not change how a run that returned has ended. *)
Lemma deviceLoop_more_fuel fuel dw clientID deviceCode :
  forall st token err,
    fr_outcome (deviceLoop fuel dw clientID deviceCode st) = Returned token err ->
    forall fuel', fuel <= fuel' ->
      deviceLoop fuel' dw clientID deviceCode st
      = deviceLoop fuel dw clientID deviceCode st.
Proof.
  induction fuel as [|fuel IH]; intros st token err H fuel' Hle.
  - discriminate H.
  - destruct fuel' as [|fuel']; [lia|].
    simpl in *.
    destruct (loopIter dw clientID deviceCode st) as [st' t e|st'].
    + reflexivity.
    + apply (IH st' token err H); lia.
Qed.

(* ================================================================== *)
(** ** Expiry while every poll says to go on *)

Section Expiry.

Variables (dw : DeviceWorld) (clientID deviceCode : gostring).
(** The ticker's period, the expiry, and a bound on the time a poll takes. *)
Variables (d D L : Z).

Hypothesis never_cancelled : dw_cancel dw = None.
Hypothesis all_continue : forall i, continues (snd (dw_poll dw i)).
Hypothesis polls_short : forall i, (Z.of_N (fst (dw_poll dw i)) <= L)%Z.
Hypothesis within_period : (L < d)%Z.

Lemma L_nonneg : (0 <= L)%Z.
Proof. pose proof (polls_short 0); lia. Qed.

Lemma pass_at_select st :
  atSelect d D L st ->
  (loopIter dw clientID deviceCode st
     = Return (woken dw st) [] (Some expiredError) /\
   (Z.max 0 D <= wakeTime dw st <= Z.max 0 D + L)%Z)
  \/
  ((nextTick st <= D)%Z /\
   loopIter dw clientID deviceCode st
     = Continue (afterPoll dw clientID deviceCode st) /\
   atSelect d D L (afterPoll dw clientID deviceCode st) /\
   nextTick (afterPoll dw clientID deviceCode st) = (nextTick st + d)%Z).
Proof.
  intros (Hp & Hd & Hnow & Hle & k & Hk).
  pose proof L_nonneg as HL.
  pose proof (selectCase_ready dw st) as Hr.
  assert (Hw : wakeTime dw st = Z.max (now st) (Z.min (nextTick st) D))
    by (unfold wakeTime; rewrite never_cancelled, Hd; reflexivity).
  destruct (selectCase dw st) eqn:Hsel; simpl in Hr.
  - rewrite never_cancelled in Hr; discriminate.
  - left. apply Z.leb_le in Hr. rewrite Hd in Hr. split.
    + unfold loopIter; rewrite Hsel; reflexivity.
    + lia.
  - right. apply Z.leb_le in Hr.
    assert (Ht : wakeTime dw st = nextTick st /\ (nextTick st <= D)%Z) by lia.
    destruct Ht as [Ht HtD].
    split; [exact HtD|]. split.
    + apply pass_continue; [exact Hsel | apply all_continue].
    + assert (Hn : nextTick (afterPoll dw clientID deviceCode st)
                   = (nextTick st + d)%Z).
      { unfold afterPoll; simpl. rewrite Ht, Hp, Hk.
        rewrite Z.div_mul by lia. lia. }
      split; [|exact Hn].
      unfold atSelect. rewrite Hn.
      unfold afterPoll; simpl. rewrite Ht.
      pose proof (polls_short (polled st)) as Hs.
      pose proof (N2Z.is_nonneg (fst (dw_poll dw (polled st)))) as H0.
      repeat split; try assumption; try lia.
      exists (k + 1)%Z; lia.
Qed.

(** With enough passes the loop returns, with the expiry error, at an
    instant from the expiry to one poll after it. *)
Lemma loop_expires :
  forall n st,
    atSelect d D L st ->
    (D < nextTick st + Z.of_nat n * d)%Z ->
    forall fuel, n < fuel ->
      let run := deviceLoop fuel dw clientID deviceCode st in
      fr_outcome run = Returned [] (Some expiredError) /\
      (Z.max 0 D <= fr_time run <= Z.max 0 D + L)%Z /\
      fr_period run = d.
Proof.
  induction n as [|n IH]; intros st Hinv Hn fuel Hfuel;
    (destruct fuel as [|fuel]; [lia|]);
    destruct (pass_at_select st Hinv) as [[Hret Ht] | (HtD & Hco & Hinv' & Hn')].
  - rewrite (deviceLoop_return fuel _ _ _ _ _ _ _ Hret); simpl.
    destruct Hinv as (Hp & _); auto.
  - lia.
  - rewrite (deviceLoop_return fuel _ _ _ _ _ _ _ Hret); simpl.
    destruct Hinv as (Hp & _); auto.
  - rewrite (deviceLoop_continue fuel _ _ _ _ _ Hco).
    apply IH; [exact Hinv' | rewrite Hn'; lia | lia].
Qed.

End Expiry.

(** Whatever time the polls take: while every poll says to go on and nobody
    cancels, the loop can only end with the expiry error, and not before the
    expiry. *)
Lemma only_expiry_ends fuel dw clientID deviceCode :
  dw_cancel dw = None ->
  (forall i, continues (snd (dw_poll dw i))) ->
  forall st token err,
    fr_outcome (deviceLoop fuel dw clientID deviceCode st) = Returned token err ->
    token = [] /\ err = Some expiredError /\
    (deadline st <= fr_time (deviceLoop fuel dw clientID deviceCode st))%Z.
Proof.
  intros Hc Hall.
  induction fuel as [|fuel IH]; intros st token err; simpl; [discriminate|].
  pose proof (selectCase_ready dw st) as Hr.
  pose proof (loopIter_period dw clientID deviceCode st) as Hp.
  destruct (selectCase dw st) eqn:Hsel; simpl in Hr.
  - rewrite Hc in Hr; discriminate.
  - unfold loopIter; rewrite Hsel; simpl.
    intros H; inversion H; subst. apply Z.leb_le in Hr. auto.
  - rewrite (pass_continue dw clientID deviceCode st Hsel (Hall _)) in *.
    intros H. destruct (IH _ _ _ H) as (Ht & He & Hd).
    destruct Hp as [_ Hp]. rewrite Hp in Hd. auto.
Qed.

Lemma runDeviceFlow_loop fuel dw clientID scopes status raw body dc :
  dw_init dw = Response status raw body ->
  (200 <= status < 300)%Z ->
  decodeCode body = inr dc ->
  (0 < tickerPeriod dc)%Z ->
  runDeviceFlow fuel dw clientID scopes
  = deviceLoop fuel dw clientID (DeviceCode dc)
      {| now := 0; period := tickerPeriod dc; nextTick := tickerPeriod dc;
         deadline := expiryDuration dc; polled := 0;
         sent := HttpPost deviceCodeURL (codeForm clientID scopes)
                 :: display dc |}.
Proof.
  intros Hi Hs Hd Hp; unfold runDeviceFlow; rewrite Hi.
  replace ((status <? 200) || (300 <=? status))%Z with false
    by (symmetry; apply orb_false_iff; split;
        [apply Z.ltb_ge | apply Z.leb_gt]; lia).
  rewrite Hd.
  destruct (Z.leb_spec (tickerPeriod dc) 0); [lia | reflexivity].
Qed.

(** C5, as amended.  The expiry timer is looked at between polls, it does
    not interrupt a poll in flight.  In a run that is not cancelled, in which
    every poll says to go on (pending or slow down, in any mix) and takes at
    most [L], less than one period of the ticker, and whose interval and
    expiry are durations the clock can count, the flow ends with the expiry
    error, whatever the polls answered, no earlier than the expiry and no
    later than [L] after it. *)
Theorem expiry_ends_flow
  (dw : DeviceWorld) (clientID : gostring) (scopes : list gostring)
  (status : Z) (raw : gostring) (body : jsonBody codeJSON)
  (dc : deviceCodeResponse) (L : Z) (fuel : nat) :
  dw_init dw = Response status raw body ->
  (200 <= status < 300)%Z ->
  decodeCode body = inr dc ->
  (Interval dc <= maxSeconds)%Z ->
  (0 <= ExpiresIn dc <= maxSeconds)%Z ->
  dw_cancel dw = None ->
  (forall i, continues (snd (dw_poll dw i))) ->
  (forall i, (Z.of_N (fst (dw_poll dw i)) <= L)%Z) ->
  (L < pollInterval dc * Second)%Z ->
  Z.to_nat (ExpiresIn dc / pollInterval dc) < fuel ->
  let run := runDeviceFlow fuel dw clientID scopes in
  fr_outcome run
  = Returned [] (Some (errorsNew "device code expired; please try again"))
  /\ (ExpiresIn dc * Second <= fr_time run <= ExpiresIn dc * Second + L)%Z
  /\ fr_period run = (pollInterval dc * Second)%Z.
Proof.
  intros Hi Hs Hd Hiv Hex Hc Hall Hshort HL Hfuel run.
  pose proof (pollInterval_pos dc) as Hpos.
  pose proof (tickerPeriod_seconds dc Hiv) as Hper.
  pose proof (expiryDuration_seconds dc Hex) as Hdl.
  assert (HL0 : (0 <= L)%Z)
    by (pose proof (Hshort 0);
        pose proof (N2Z.is_nonneg (fst (dw_poll dw 0))); lia).
  assert (Hd0 : (0 < tickerPeriod dc)%Z) by (unfold Second in *; lia).
  unfold run.
  rewrite (runDeviceFlow_loop fuel dw clientID scopes status raw body dc
             Hi Hs Hd Hd0).
  assert (HLd : (L < tickerPeriod dc)%Z) by (rewrite Hper; exact HL).
  assert (Hq : (0 <= ExpiresIn dc / pollInterval dc)%Z)
    by (apply Z.div_pos; lia).
  assert (Hm : (ExpiresIn dc
                < pollInterval dc * (ExpiresIn dc / pollInterval dc)
                  + pollInterval dc)%Z).
  { pose proof (Z.div_mod (ExpiresIn dc) (pollInterval dc) ltac:(lia)) as E.
    pose proof (Z.mod_pos_bound (ExpiresIn dc) (pollInterval dc) Hpos).
    lia. }
  set (st0 := {| now := 0; period := tickerPeriod dc;
                 nextTick := tickerPeriod dc;
                 deadline := expiryDuration dc; polled := 0;
                 sent := HttpPost deviceCodeURL (codeForm clientID scopes)
                         :: display dc |}).
  assert (Hinv : atSelect (tickerPeriod dc) (expiryDuration dc) L st0).
  { unfold atSelect, st0; simpl. repeat split; try lia. exists 1%Z; lia. }
  assert (Hn : (expiryDuration dc
                < nextTick st0
                  + Z.of_nat (Z.to_nat (ExpiresIn dc / pollInterval dc))
                    * tickerPeriod dc)%Z).
  { unfold st0; simpl. rewrite Hper, Hdl, Z2Nat.id by lia.
    unfold Second; nia. }
  destruct (loop_expires dw clientID (DeviceCode dc)
              (tickerPeriod dc) (expiryDuration dc) L
              Hc Hall Hshort HLd
              (Z.to_nat (ExpiresIn dc / pollInterval dc)) st0 Hinv Hn
              fuel Hfuel) as (Ho & Ht & Hp).
  rewrite Hdl, Z.max_r in Ht by (unfold Second; lia).
  rewrite Hper in Hp.
  repeat split; try assumption; lia.
Qed.

Lemma expiry_ends_flow_witness :
  let run := runDeviceFlow 3 Sample.tenSeconds (lit "cid") [lit "repo"] in
  fr_outcome run
  = Returned [] (Some (errorsNew "device code expired; please try again"))
  /\ (10 * Second <= fr_time run <= 10 * Second + 100000000)%Z
  /\ fr_period run = (5 * Second)%Z.
Proof.
  apply (expiry_ends_flow Sample.tenSeconds (lit "cid") [lit "repo"]
           200 [] _ (Sample.codeOf 10 5) 100000000 3 eq_refl).
  - lia.
  - reflexivity.
  - vm_compute; discriminate.
  - vm_compute; split; discriminate.
  - reflexivity.
  - intros i; reflexivity.
  - intros i; vm_compute; discriminate.
  - vm_compute; reflexivity.
  - vm_compute; lia.
Defined.

(** With polls that return at once the flow ends at the expiry itself. *)
Example expiry_at_ten_seconds :
  let run := runDeviceFlow 3 Sample.tenSecondsAtOnce (lit "cid") [lit "repo"] in
  fr_outcome run = Returned [] (Some expiredError)
  /\ fr_time run = (10 * Second)%Z /\ fr_polls run = 1.
Proof. vm_compute; repeat split. Qed.

(** C5, as stated, fails when a poll is slow.  With [expires_in] 10,
    [interval] 5 and a server that answers "authorization_pending" after a
    hundred seconds, every poll says to go on and the run is not cancelled,
    yet after the first pass the clock is at 105 seconds and the flow is
    still in its loop; it ends with the expiry error at 105 seconds, not at
    about 10. *)
Lemma slow_poll_outlasts_expiry :
  continues Sample.pending
  /\ dw_poll Sample.slowPoll = (fun _ => (100000000000%N, Sample.pending))
  /\ dw_cancel Sample.slowPoll = None
  /\ (let run := runDeviceFlow 1 Sample.slowPoll (lit "cid") [lit "repo"] in
      fr_outcome run = Running /\ fr_time run = (105 * Second)%Z)
  /\ (let run := runDeviceFlow 2 Sample.slowPoll (lit "cid") [lit "repo"] in
      fr_outcome run = Returned [] (Some expiredError)
      /\ fr_time run = (105 * Second)%Z
      /\ (10 * Second + 60 * Second < fr_time run)%Z).
Proof. vm_compute; repeat split. Qed.

Lemma decodeCode_interval j dc :
  decodeCode (Object j) = inr dc ->
  j_interval j = None -> Interval dc = 0%Z.
Proof.
  unfold decodeCode; intros H Hn; rewrite Hn in H; simpl in H.
  destruct (intField _ (j_expires_in j)); inversion H; reflexivity.
Qed.

(** C7, as amended.  For an interval whose nanoseconds a [time.Duration] can
    count (at most 9223372036 seconds), the period of the ticker is the
    server-given interval in whole seconds when that is positive, and 5
    seconds when the interval member is absent or not positive; the loop
    keeps that period in every pass, also after a slow-down answer, and the
    ticks stay at the multiples of it. *)
Theorem ticker_period_fixed
  (fuel : nat) (dw : DeviceWorld) (clientID : gostring)
  (scopes : list gostring) (status : Z) (raw : gostring) (j : codeJSON)
  (dc : deviceCodeResponse) :
  dw_init dw = Response status raw (Object j) ->
  (200 <= status < 300)%Z ->
  decodeCode (Object j) = inr dc ->
  (Interval dc <= maxSeconds)%Z ->
  let run := runDeviceFlow fuel dw clientID scopes in
  ((0 < Interval dc)%Z -> fr_period run = (Interval dc * Second)%Z)
  /\ ((Interval dc <= 0)%Z -> fr_period run = (5 * Second)%Z)
  /\ (j_interval j = None -> fr_period run = (5 * Second)%Z)
  /\ (forall st st',
        loopIter dw clientID (DeviceCode dc) st = Continue st' ->
        period st' = period st /\
        nextTick st' = ((wakeTime dw st / period st + 1) * period st)%Z).
Proof.
  intros Hi Hs Hd Hiv run.
  pose proof (pollInterval_pos dc) as Hpos.
  pose proof (tickerPeriod_seconds dc Hiv) as Hper.
  assert (Hrun : fr_period run = (pollInterval dc * Second)%Z).
  { unfold run.
    rewrite (runDeviceFlow_loop fuel dw clientID scopes status raw _ dc
               Hi Hs Hd) by (unfold Second in *; lia).
    rewrite deviceLoop_period; simpl; exact Hper. }
  assert (Hdef : (Interval dc <= 0)%Z -> fr_period run = (5 * Second)%Z).
  { intros Hle; rewrite Hrun; unfold pollInterval.
    destruct (Z.leb_spec (Interval dc) 0); [reflexivity | lia]. }
  repeat split.
  - intros Hgt; rewrite Hrun; unfold pollInterval.
    destruct (Z.leb_spec (Interval dc) 0); [lia | reflexivity].
  - exact Hdef.
  - intros Hn; apply Hdef. rewrite (decodeCode_interval j dc Hd Hn); lia.
  - apply loopIter_continue in H; destruct H as [_ ->]; reflexivity.
  - apply loopIter_continue in H; destruct H as [_ ->]; reflexivity.
Qed.

Lemma ticker_period_fixed_witness :
  fr_period (runDeviceFlow 4 Sample.slowDown (lit "cid") [lit "repo"])
  = (7 * Second)%Z.
Proof.
  destruct (ticker_period_fixed 4 Sample.slowDown (lit "cid") [lit "repo"]
              200 [] _ (Sample.codeOf 900 7) eq_refl
              ltac:(lia) eq_refl ltac:(vm_compute; discriminate))
    as (H & _).
  apply H. reflexivity.
Defined.

(** C7, as stated, fails beyond the range of [time.Duration].  An interval
    of 9223372037 seconds is positive and fits an [int], but its nanoseconds
    wrap around to a negative period, and [time.NewTicker] panics. *)
Lemma huge_interval_wraps :
  decodeCode (Object {| j_device_code := Some (lit "D");
                        j_user_code := Some (lit "ABCD-1234");
                        j_verification_uri :=
                          Some (lit "https://github.com/login/device");
                        j_verification_uri_complete := None;
                        j_expires_in := Some 900%Z;
                        j_interval := Some 9223372037%Z |})
  = inr (Sample.codeOf 900 9223372037)
  /\ (0 < Interval (Sample.codeOf 900 9223372037))%Z
  /\ tickerPeriod (Sample.codeOf 900 9223372037) = (-9223372036709551616)%Z
  /\ tickerPeriod (Sample.codeOf 900 9223372037)
     <> (Interval (Sample.codeOf 900 9223372037) * Second)%Z
  /\ fr_outcome (runDeviceFlow 4 Sample.hugeInterval (lit "cid") [lit "repo"])
     = Panicked (lit "non-positive interval for NewTicker").
Proof.
  repeat split; try reflexivity.
  vm_compute; discriminate.
Qed.

(* ================================================================== *)
(** ** Token store *)

Ltac unfold_world :=
  unfold resolveGitHubToken, resolveByGh, resolveByDeviceFlow,
    readStoredToken, writeStoredToken, tryGhToken, tryGhWebLogin,
    configTokenPath, callDeviceFlow,
    osGetenv, osUserConfigDir, osReadFile, osMkdirAll, osWriteFile,
    execLookPath, execOutput, execRun,
    bind, ret, emit, setFile, setGhToken, withWriteOutcome.

Ltac simpl_world :=
  cbn [fst snd w_env w_configDir w_fs w_mkdirErr w_writeErr w_ghPath
       w_ghToken w_ghLogin w_device w_trace isNil andb negb].

Lemma readStoredToken_result (u : World) (dir : path) :
  w_configDir u = inr dir ->
  fst (readStoredToken u)
  = match w_fs u (tokenPath dir) with
    | Absent =>
        ([], Some (lit "open " ++ pathString (tokenPath dir)
                   ++ lit ": no such file or directory"))
    | Unreadable e _ => ([], Some e)
    | Content data => (TrimSpace data, None)
    end.
Proof.
  intros Hd; destruct u; unfold_world; simpl_world; simpl in Hd; rewrite Hd.
  simpl_world. fold (tokenPath dir).
  destruct (w_fs0 (tokenPath dir)); reflexivity.
Qed.

Lemma writeStoredToken_file (payload : gostring) (w : World) :
  fst (writeStoredToken payload w) = None ->
  exists dir,
    w_configDir w = inr dir /\
    w_configDir (snd (writeStoredToken payload w)) = inr dir /\
    w_fs (snd (writeStoredToken payload w)) (tokenPath dir)
    = overwrite (w_fs w (tokenPath dir)) (TrimSpace payload ++ [newline]).
Proof.
  destruct w. unfold_world; simpl_world.
  destruct w_configDir0 as [e|dir]; simpl_world; [discriminate|].
  destruct (w_mkdirErr0 _); simpl_world; [discriminate|].
  destruct (w_writeErr0 _); simpl_world; [discriminate|].
  intros _. exists dir. fold (tokenPath dir).
  rewrite path_eqb_refl. auto.
Qed.

(** C6, as amended.  When the write succeeds and the token file was absent,
    or there and readable, a read after it returns the trimmed payload,
    whatever white space or newline the payload had at its ends.  The write
    replaces what the file held: the file then holds the trimmed payload
    and a newline and nothing of what it held before.  The write does not
    change the mode of a file that exists: a token file that could not be
    read before still cannot, and the read after the write fails as it
    failed before.  A read returns an error when the file is absent or
    unreadable; when the file is empty after trimming it returns the empty
    string and no error (the resolver takes the empty string for no stored
    credential). *)
Theorem store_round_trip (payload : gostring) (w : World) :
  fst (writeStoredToken payload w) = None ->
  let w1 := snd (writeStoredToken payload w) in
  (exists dir,
     w_configDir w = inr dir /\
     holds (w_fs w1 (tokenPath dir)) (TrimSpace payload ++ [newline]) /\
     ((forall e d, w_fs w (tokenPath dir) <> Unreadable e d) ->
      fst (readStoredToken w1) = (TrimSpace payload, None) /\
      w_fs w1 (tokenPath dir) = Content (TrimSpace payload ++ [newline])) /\
     (forall e d,
        w_fs w (tokenPath dir) = Unreadable e d ->
        fst (readStoredToken w1) = ([], Some e)))
  /\ (forall (u : World) (dir : path),
        w_configDir u = inr dir ->
        match w_fs u (tokenPath dir) with
        | Absent => exists e, fst (readStoredToken u) = ([], Some e)
        | Unreadable e _ => fst (readStoredToken u) = ([], Some e)
        | Content data =>
            fst (readStoredToken u) = (TrimSpace data, None) /\
            (TrimSpace data = [] -> fst (readStoredToken u) = ([], None))
        end).
Proof.
  intros Hw w1. split.
  - destruct (writeStoredToken_file payload w Hw) as (dir & Hd & Hd1 & Hf).
    fold w1 in Hd1, Hf. exists dir. split; [exact Hd|].
    rewrite (readStoredToken_result w1 dir Hd1), Hf.
    destruct (w_fs w (tokenPath dir)) as [|e0 d0|d0]; cbn [overwrite holds].
    + split; [reflexivity|]. split; [|intros e d H; discriminate H].
      intros _. split; [|reflexivity].
      rewrite TrimSpace_app_space;
        [reflexivity | apply TrimSpace_trimmed | reflexivity].
    + split; [reflexivity|]. split.
      * intros H. exfalso. exact (H e0 d0 eq_refl).
      * intros e d H. inversion H. reflexivity.
    + split; [reflexivity|]. split; [|intros e d H; discriminate H].
      intros _. split; [|reflexivity].
      rewrite TrimSpace_app_space;
        [reflexivity | apply TrimSpace_trimmed | reflexivity].
  - intros u dir Hd. rewrite (readStoredToken_result u dir Hd).
    destruct (w_fs u (tokenPath dir)); eauto.
    split; [reflexivity | intros ->; reflexivity].
Qed.

Lemma store_round_trip_witness :
  fst (readStoredToken
         (snd (writeStoredToken ([32%N; 9%N] ++ lit "ghp_new" ++ [newline; 32%N])
                                Sample.oldFile)))
  = (lit "ghp_new", None).
Proof.
  destruct (store_round_trip
              ([32%N; 9%N] ++ lit "ghp_new" ++ [newline; 32%N])
              Sample.oldFile eq_refl) as [(dir & Hd & _ & Hr & _) _].
  injection Hd as <-.
  apply Hr. intros e d H. discriminate H.
Defined.

(** A token file that can be written and not read: the write succeeds, the
    file holds the new credential, and the read after it fails as before. *)
Example write_only_file_stays_unreadable :
  let w1 := snd (writeStoredToken (lit "ghp_new") Sample.writeOnly) in
  fst (writeStoredToken (lit "ghp_new") Sample.writeOnly) = None
  /\ holds (w_fs w1 (tokenPath Sample.configDir)) (lit "ghp_new" ++ [newline])
  /\ fst (readStoredToken w1)
     = ([], Some (lit "open /home/u/.config/repoinit/token: permission denied")).
Proof. vm_compute; repeat split. Qed.

(** C6, as stated, fails on a file that is empty after trimming: the read
    returns the empty string with a [nil] error, it does not fail. *)
Lemma blank_file_read_does_not_fail :
  w_fs Sample.blankFile (tokenPath Sample.configDir)
  = Content [32%N; newline; 9%N; newline]
  /\ TrimSpace [32%N; newline; 9%N; newline] = []
  /\ fst (readStoredToken Sample.blankFile) = ([], None).
Proof. vm_compute; repeat split. Qed.

(* ================================================================== *)
(** ** What the device flow returns *)

Lemma trimmed_nil : trimmed [].
Proof.
  split; intros a b E; [discriminate E | destruct a; discriminate E].
Qed.

Lemma pollDeviceToken_trimmed r : trimmed (fst (fst (pollDeviceToken r))).
Proof.
  destruct r as [e|e|status raw [e|j]]; simpl; try exact trimmed_nil.
  unfold classify; simpl.
  repeat match goal with
  | |- context [if ?b then _ else _] => destruct b
  end; simpl; try exact trimmed_nil.
  apply TrimSpace_trimmed.
Qed.

(** A pass returns a token or an error, never both and never neither. *)
Lemma loopIter_return dw clientID deviceCode st st' token err :
  loopIter dw clientID deviceCode st = Return st' token err ->
  (err = None /\ credential token) \/ (token = [] /\ err <> None).
Proof.
  unfold loopIter.
  destruct (selectCase dw st).
  - intros H; inversion H; right; split; [reflexivity | discriminate].
  - intros H; inversion H; right; split; [reflexivity | discriminate].
  - pose proof (pollDeviceToken_trimmed (snd (dw_poll dw (polled st)))) as Ht.
    destruct (pollDeviceToken _) as [[tok cont] [e|]]; simpl in Ht.
    + intros H; inversion H; right; split; [reflexivity | discriminate].
    + destruct (isEmpty tok) eqn:He; simpl.
      * destruct cont; simpl; [discriminate|].
        intros H; inversion H; right; split; [reflexivity | discriminate].
      * intros H; inversion H; subst; left; split; [reflexivity|].
        split; [apply isEmpty_false; exact He | exact Ht].
Qed.

Lemma deviceLoop_returned fuel dw clientID deviceCode :
  forall st token err,
    fr_outcome (deviceLoop fuel dw clientID deviceCode st) = Returned token err ->
    (err = None /\ credential token) \/ (token = [] /\ err <> None).
Proof.
  induction fuel as [|fuel IH]; intros st token err; simpl; [discriminate|].
  destruct (loopIter dw clientID deviceCode st) as [st' t e|st'] eqn:Hp.
  - simpl; intros H; inversion H; subst.
    exact (loopIter_return _ _ _ _ _ _ _ Hp).
  - apply IH.
Qed.

Lemma runDeviceFlow_returned fuel dw clientID scopes token err :
  fr_outcome (runDeviceFlow fuel dw clientID scopes) = Returned token err ->
  (err = None /\ credential token) \/ (token = [] /\ err <> None).
Proof.
  unfold runDeviceFlow.
  destruct (dw_init dw) as [e|e|status raw body]; simpl;
    try (intros H; inversion H; right; split; [reflexivity | discriminate]).
  destruct ((status <? 200) || (300 <=? status))%Z; simpl;
    try (intros H; inversion H; right; split; [reflexivity | discriminate]).
  destruct (decodeCode body) as [e|dc]; simpl;
    try (intros H; inversion H; right; split; [reflexivity | discriminate]).
  destruct (tickerPeriod dc <=? 0)%Z; simpl; [discriminate|].
  apply deviceLoop_returned.
Qed.

(* ================================================================== *)
(** ** Token resolver *)

Lemma skipn_app_length {A : Type} (l es : list A) :
  skipn (List.length l) (l ++ es) = es.
Proof. induction l as [|x l IH]; simpl; [reflexivity | exact IH]. Qed.

(** C2.  When the environment credential is set and not blank, the resolver
    returns it trimmed, and the only thing it has done is to read that
    variable: no file was read or written (the credential is not stored),
    no subprocess was started and no request was sent; the world is as it
    was. *)
Theorem env_token_short_circuit (fuel : nat) (w : World) :
  TrimSpace (w_env w (lit "GITHUB_TOKEN")) <> [] ->
  let token := TrimSpace (w_env w (lit "GITHUB_TOKEN")) in
  resolveGitHubToken fuel w
  = (Returned token None, emit [Getenv (lit "GITHUB_TOKEN")] w)
  /\ effectsOf (resolveGitHubToken fuel) w = [Getenv (lit "GITHUB_TOKEN")]
  /\ (forall e, In e (effectsOf (resolveGitHubToken fuel) w) ->
        isFileRead e = false /\ isFileWrite e = false /\
        isSubprocess e = false /\ isNetwork e = false)
  /\ w_fs (snd (resolveGitHubToken fuel w)) = w_fs w
  /\ credential token.
Proof.
  intros Hne token.
  assert (Hrun : resolveGitHubToken fuel w
                 = (Returned token None, emit [Getenv (lit "GITHUB_TOKEN")] w)).
  { unfold resolveGitHubToken, bind, osGetenv, ret.
    fold token. apply isEmpty_false in Hne. fold token in Hne.
    rewrite Hne; reflexivity. }
  assert (Heff : effectsOf (resolveGitHubToken fuel) w
                 = [Getenv (lit "GITHUB_TOKEN")]).
  { unfold effectsOf; rewrite Hrun; simpl. apply skipn_app_length. }
  repeat split; try assumption.
  - rewrite Heff in H; destruct H as [<-|[]]; reflexivity.
  - rewrite Heff in H; destruct H as [<-|[]]; reflexivity.
  - rewrite Heff in H; destruct H as [<-|[]]; reflexivity.
  - rewrite Heff in H; destruct H as [<-|[]]; reflexivity.
  - rewrite Hrun; reflexivity.
  - apply TrimSpace_trimmed.
  - apply TrimSpace_trimmed.
Qed.

Lemma env_token_short_circuit_witness :
  resolveGitHubToken 0 Sample.envToken
  = (Returned (lit "ghp_env") None,
     emit [Getenv (lit "GITHUB_TOKEN")] Sample.envToken).
Proof.
  exact (proj1 (env_token_short_circuit 0 Sample.envToken
                  ltac:(vm_compute; discriminate))).
Defined.

Lemma pollEffects_flow clientID deviceCode r :
  forallb isFlowEffect (pollEffects clientID deviceCode r) = true.
Proof. destruct r; reflexivity. Qed.

Lemma loopIter_sent dw clientID deviceCode st :
  forallb isFlowEffect (sent st) = true ->
  match loopIter dw clientID deviceCode st with
  | Return st' _ _ | Continue st' => forallb isFlowEffect (sent st') = true
  end.
Proof.
  intros H.
  assert (Ha : forallb isFlowEffect
                 (sent (afterPoll dw clientID deviceCode st)) = true).
  { unfold afterPoll; simpl.
    rewrite forallb_app, H, pollEffects_flow; reflexivity. }
  unfold loopIter.
  destruct (selectCase dw st); try exact H.
  destruct (pollDeviceToken _) as [[token cont] [e|]]; [exact Ha|].
  destruct (negb (isEmpty token)); [exact Ha|].
  destruct (negb cont); exact Ha.
Qed.

Lemma deviceLoop_effects fuel dw clientID deviceCode :
  forall st,
    forallb isFlowEffect (sent st) = true ->
    forallb isFlowEffect
      (fr_effects (deviceLoop fuel dw clientID deviceCode st)) = true.
Proof.
  induction fuel as [|fuel IH]; intros st H; simpl; [exact H|].
  pose proof (loopIter_sent dw clientID deviceCode st H) as Hs.
  destruct (loopIter dw clientID deviceCode st);
    [exact Hs | apply IH; exact Hs].
Qed.

(** The device flow sends requests and prints; it does nothing else. *)
Lemma runDeviceFlow_effects fuel dw clientID scopes :
  forallb isFlowEffect
    (fr_effects (runDeviceFlow fuel dw clientID scopes)) = true.
Proof.
  unfold runDeviceFlow.
  destruct (dw_init dw) as [e|e|status raw body]; try reflexivity.
  destruct ((status <? 200) || (300 <=? status))%Z; try reflexivity.
  destruct (decodeCode body) as [e|dc]; try reflexivity.
  assert (Hd : forallb isFlowEffect
                 (HttpPost deviceCodeURL (codeForm clientID scopes)
                  :: display dc) = true).
  { unfold display;
      destruct (negb (isEmpty (VerificationURIComplete dc))); reflexivity. }
  destruct (tickerPeriod dc <=? 0)%Z; [exact Hd|].
  apply deviceLoop_effects; exact Hd.
Qed.

Lemma flow_effect_not_write fuel dw clientID scopes p data perm :
  ~ In (WriteFile p data perm)
       (fr_effects (runDeviceFlow fuel dw clientID scopes)).
Proof.
  intros H.
  pose proof (runDeviceFlow_effects fuel dw clientID scopes) as F.
  rewrite forallb_forall in F. specialize (F _ H). discriminate F.
Qed.

Lemma credential_fix t : credential t -> TrimSpace t = t.
Proof. intros [_ H]; exact (TrimSpace_id t H). Qed.

(** Case analysis along the paths of the resolver. *)
Ltac crush_match :=
  match goal with
  | |- context [match ?x with _ => _ end] =>
      lazymatch x with
      | context [match _ with _ => _ end] => fail
      | _ => destruct x eqn:?
      end
  end.

Ltac resolver_cases :=
  unfold_world; simpl_world;
  repeat (crush_match; simpl_world).

Ltac nonblank :=
  repeat match goal with
  | H : negb (isEmpty ?t) = true |- _ =>
      apply negb_true_iff, isEmpty_false in H
  | H : negb (isEmpty ?t) = false |- _ =>
      apply negb_false_iff, isEmpty_true in H
  | H : isEmpty ?t = false |- _ => apply isEmpty_false in H
  | H : isEmpty ?t = true |- _ => apply isEmpty_true in H
  end.

Ltac in_trace H :=
  repeat (rewrite in_app_iff in H || simpl In in H);
  repeat match type of H with
  | _ \/ _ => destruct H as [H|H]
  end; try discriminate H; try contradiction;
  try (exfalso; exact (flow_effect_not_write _ _ _ _ _ _ _ H)).

Ltac flow_facts :=
  repeat match goal with
  | H : fr_outcome (runDeviceFlow _ _ _ _) = Returned _ _ |- _ =>
      let Hc := fresh "Hflow" in
      pose proof (runDeviceFlow_returned _ _ _ _ _ _ H) as Hc;
      revert H
  end; intros.

Ltac credential_goal :=
  first
    [ apply TrimSpace_credential; assumption
    | match goal with
      | H : (_ = None /\ credential ?t) \/ _ |- credential ?t =>
          destruct H as [[_ H]|[H _]]; [exact H | congruence]
      end ].

Lemma resolver_summary (fuel : nat) (w : World) : summary fuel w.
Proof.
  unfold summary, effectsOf.
  destruct w as [env cfg fs mk wr ghp [gho ghe] [lge [lgo lgerr]] dev tr].
  resolver_cases.
  all: rewrite <- ?app_assoc, ?skipn_app_length.
  all: cbn [fst snd app isEmpty negb] in *; try discriminate.
  all: nonblank; flow_facts.
  all: (split; [| split; [| split; [| split]]]).
  all: try (intros rtok Hret; inversion Hret; subst; credential_goal).
  all: try (intros rmsg Hret; inversion Hret; subst; split; assumption).
  all: try (intros Hret; inversion Hret; subst; split; assumption).
  all: try (intros wp wdata wperm Hin; in_trace Hin;
            inversion Hin; subst;
            match goal with
            | |- exists c, _ /\ _ /\ Returned ?t None = _ =>
                assert (Hcr : credential t) by credential_goal;
                exists t; rewrite (credential_fix t Hcr); auto
            end).
  all: intros rtok re Hret; inversion Hret; subst.
  all: try match goal with
       | H : (None = None /\ credential []) \/ _ |- _ =>
           exfalso; destruct H as [[_ [H _]]|[_ H]]; congruence
       end.
  all: (split; [reflexivity|]).
  all: try (left; split; [assumption | reflexivity]).
  all: right; (split; [assumption|]).
  all: match goal with
       | H : (Some _ = None /\ _) \/ (_ = [] /\ _) |- _ =>
           destruct H as [[H _]|[H _]];
           [discriminate H | rewrite H; reflexivity]
       end.
Qed.


(** C8.  On every path (environment variable, stored file, companion CLI,
    device flow) a credential the resolver returns is not empty and has no
    white space at either end, and whatever it writes to the store is that
    same credential followed by the newline that ends the line. *)
Theorem credentials_are_trimmed (fuel : nat) (w : World) :
  let o := fst (resolveGitHubToken fuel w) in
  (forall token, o = Returned token None -> credential token)
  /\ (forall p data perm,
        In (WriteFile p data perm) (effectsOf (resolveGitHubToken fuel) w) ->
        exists c, credential c /\ data = c ++ [newline] /\ o = Returned c None).
Proof.
  destruct (resolver_summary fuel w) as (H1 & H2 & _).
  split; [exact H1 | exact H2].
Qed.

Lemma credentials_are_trimmed_witness : credential (lit "ghu_xyz").
Proof.
  apply (proj1 (credentials_are_trimmed 5 Sample.viaDevice) (lit "ghu_xyz")).
  vm_compute; reflexivity.
Defined.




(** C4, as amended.  Whether the directory can be created and the file
    written has no bearing on what the resolver returns nor on anything it
    shows to the human: with any other outcome of the write the call returns
    the same result and prints and logs the same.  A failure to store the
    credential is thus not fatal, the credential is returned all the same,
    and the failure is dropped in silence, with no warning. *)
Theorem persistence_failure_silent (fuel : nat) (w : World)
  (mk wr : path -> option error) :
  let w2 := withWriteOutcome mk wr w in
  fst (resolveGitHubToken fuel w2) = fst (resolveGitHubToken fuel w)
  /\ filter isReport (w_trace (snd (resolveGitHubToken fuel w2)))
     = filter isReport (w_trace (snd (resolveGitHubToken fuel w))).
Proof.
  destruct w as [env cfg fs mk0 wr0 ghp [gho ghe] [lge [lgo lgerr]] dev tr].
  resolver_cases.
  all: cbn [fst snd]; rewrite ?filter_app; cbn [filter isReport app];
    rewrite ?app_nil_r.
  all: split; reflexivity.
Qed.

(** C4, as stated, fails on the warning.  [gh] gives a token and the token
    file cannot be written: the resolver returns the token, the file is not
    there afterwards, and nothing at all was printed or logged. *)
Lemma failed_write_not_reported :
  fst (resolveGitHubToken 0 Sample.readOnlyHome)
  = Returned (lit "gho_abc") None
  /\ fst (writeStoredToken (lit "gho_abc") Sample.readOnlyHome)
     = Some (lit "open /home/u/.config/repoinit/token: permission denied")
  /\ w_fs (snd (resolveGitHubToken 0 Sample.readOnlyHome))
          (tokenPath Sample.configDir) = Absent
  /\ filter isReport (w_trace (snd (resolveGitHubToken 0 Sample.readOnlyHome)))
     = []
  /\ w_trace (snd (resolveGitHubToken 0 Sample.readOnlyHome))
     = [ Getenv (lit "GITHUB_TOKEN"); UserConfigDir;
         ReadFile (tokenPath Sample.configDir);
         LookPath (lit "gh"); ExecOutput ghAuthToken;
         UserConfigDir; MkdirAll (filepathDir (tokenPath Sample.configDir)) 448;
         WriteFile (tokenPath Sample.configDir)
                   (lit "gho_abc" ++ [newline]) 384 ].
Proof. vm_compute; repeat split. Qed.

(* ================================================================== *)
(** * Further properties *)

(** ** The device flow *)

Lemma wakeTime_ge_now dw st : (now st <= wakeTime dw st)%Z.
Proof. unfold wakeTime; destruct (dw_cancel dw) as [[tc e]|]; lia. Qed.

Lemma loopIter_paced dw clientID deviceCode st :
  paced st ->
  match loopIter dw clientID deviceCode st with
  | Return st' token err =>
      (Z.of_nat (polled st') * period st' <= now st')%Z /\
      (err = None -> 1 <= polled st')
  | Continue st' => paced st'
  end.
Proof.
  intros (Hd & Hn & Ht).
  pose proof (wakeTime_ge_now dw st) as Hw.
  pose proof (selectCase_ready dw st) as Hr.
  assert (Ha : selectCase dw st = CaseTick ->
               paced (afterPoll dw clientID deviceCode st)).
  { intros Hsel; rewrite Hsel in Hr; simpl in Hr; apply Z.leb_le in Hr.
    unfold paced, afterPoll; cbn [now period nextTick polled].
    pose proof (N2Z.is_nonneg (fst (dw_poll dw (polled st)))) as H0.
    assert (Hq : (Z.of_nat (polled st) + 1 <= wakeTime dw st / period st)%Z)
      by (apply Z.div_le_lower_bound; lia).
    rewrite Nat2Z.inj_succ; unfold Z.succ.
    repeat split; try lia.
    apply Z.mul_le_mono_nonneg_r; lia. }
  unfold loopIter.
  destruct (selectCase dw st) eqn:Hsel.
  - simpl; split; [lia | discriminate].
  - simpl; split; [lia | discriminate].
  - specialize (Ha eq_refl). destruct Ha as (Ha1 & Ha2 & Ha3).
    assert (Hp : 1 <= polled (afterPoll dw clientID deviceCode st))
      by (simpl; lia).
    destruct (pollDeviceToken _) as [[token cont] [e|]]; [split; auto|].
    destruct (negb (isEmpty token)); [split; auto|].
    destruct (negb cont); [split; auto|].
    repeat split; assumption.
Qed.

Lemma deviceLoop_paced fuel dw clientID deviceCode :
  forall st, paced st ->
    let run := deviceLoop fuel dw clientID deviceCode st in
    (Z.of_nat (fr_polls run) * fr_period run <= fr_time run)%Z /\
    (forall token, fr_outcome run = Returned token None -> 1 <= fr_polls run).
Proof.
  induction fuel as [|fuel IH]; intros st Hp; simpl.
  - destruct Hp as (_ & Hn & _); split; [exact Hn | discriminate].
  - pose proof (loopIter_paced dw clientID deviceCode st Hp) as H.
    destruct (loopIter dw clientID deviceCode st) as [st' t e|st']; simpl.
    + destruct H as [H1 H2]; split; [exact H1|].
      intros token E; inversion E; subst; auto.
    + apply IH; exact H.
Qed.

(** X1.  The device flow never polls faster than its ticker: in every run,
    whatever the answers, the durations of the polls and the preferences of
    the [select], the number of polls made times the period is at most the
    time that has passed since the ticker was created.  A run that returns a
    token has polled at least once, so at least one period has passed. *)
Theorem poll_rate (fuel : nat) (dw : DeviceWorld) (clientID : gostring)
  (scopes : list gostring) :
  let run := runDeviceFlow fuel dw clientID scopes in
  (Z.of_nat (fr_polls run) * fr_period run <= fr_time run)%Z
  /\ (forall token, fr_outcome run = Returned token None ->
        1 <= fr_polls run /\ (0 < fr_period run <= fr_time run)%Z).
Proof.
  unfold runDeviceFlow.
  destruct (dw_init dw) as [e|e|status raw body]; simpl;
    try (split; [lia | discriminate]).
  destruct ((status <? 200) || (300 <=? status))%Z; simpl;
    try (split; [lia | discriminate]).
  destruct (decodeCode body) as [e|dc]; simpl;
    try (split; [lia | discriminate]).
  destruct (Z.leb_spec (tickerPeriod dc) 0); simpl;
    try (split; [lia | discriminate]).
  set (st0 := {| now := 0; period := tickerPeriod dc; nextTick := tickerPeriod dc;
                 deadline := expiryDuration dc; polled := 0; sent := _ |}).
  assert (Hp : paced st0)
    by (unfold paced, st0; cbn [now period nextTick polled]; lia).
  destruct (deviceLoop_paced fuel dw clientID (DeviceCode dc) st0 Hp) as [H1 H2].
  split; [exact H1|].
  intros token E. specialize (H2 token E).
  pose proof (deviceLoop_period fuel dw clientID (DeviceCode dc) st0) as Hper.
  simpl in Hper. split; [exact H2|].
  set (run := deviceLoop fuel dw clientID (DeviceCode dc) st0) in *.
  assert (Hpos : (0 < fr_period run)%Z) by (rewrite Hper; lia).
  assert (Hone : (1 * fr_period run <= Z.of_nat (fr_polls run) * fr_period run)%Z)
    by (apply Z.mul_le_mono_nonneg_r; lia).
  lia.
Qed.

(** X2.  The triple [pollDeviceToken] returns.  A token that is not empty is
    a credential and comes with [continuePolling] false and a [nil] error.
    [continuePolling] is true with a [nil] error exactly for a decoded body
    whose error member is [authorization_pending] or [slow_down]; it is true
    with an error exactly when the exchange itself failed: the request could
    not be built or sent, or the body could not be decoded. *)
Theorem poll_result_shape (r : httpResult tokenJSON) :
  let token := fst (fst (pollDeviceToken r)) in
  let cont := snd (fst (pollDeviceToken r)) in
  let err := snd (pollDeviceToken r) in
  (token <> [] -> credential token /\ cont = false /\ err = None)
  /\ (cont = true /\ err = None <->
      exists status raw j,
        r = Response status raw (Object j) /\
        (stringField (j_error j) = lit "authorization_pending" \/
         stringField (j_error j) = lit "slow_down"))
  /\ (forall e, cont = true /\ err = Some e <->
        r = NewRequestFailed e \/ r = DoFailed e \/
        exists status raw, r = Response status raw (Malformed e)).
Proof.
  destruct r as [e0|e0|status raw [e0|j]]; cbn [pollDeviceToken decodeToken].
  1, 2, 3: cbn [fst snd]; split; [intros H; contradiction H; reflexivity|];
    (split; [split; [intros [_ H]; discriminate H
                    | intros (? & ? & ? & H & _); discriminate H]|]);
    intros e; (split; [intros [_ H]; inversion H; eauto 6|]);
    intros [H|[H|(? & ? & H)]]; inversion H; split; reflexivity.
  unfold classify; cbn [Error AccessToken].
  repeat match goal with
  | |- context [if ?b then _ else _] => destruct b eqn:?
  end; cbn [fst snd].
  all: split;
    [ first [ intros H; split; [apply TrimSpace_credential; exact H
                               | split; reflexivity]
            | intros H; contradiction H; reflexivity ] |].
  all: split;
    [| intros e; split;
       [ intros [H1 H2]; first [discriminate H1 | discriminate H2]
       | intros [H|[H|(? & ? & H)]]; discriminate H ] ].
  all: split;
    [ intros [H1 H2]; first [discriminate H1 | discriminate H2 | idtac]
    | intros (? & ? & j' & H & Hj); inversion H; subst j';
      first [ split; reflexivity | exfalso ] ].
  all: try (refine (ex_intro _ status (ex_intro _ raw
                      (ex_intro _ j (conj eq_refl _))));
            first [ left; apply eqb_eq; assumption
                  | right; apply eqb_eq; assumption ]).
  all: repeat match goal with
         | H : GoString.eqb _ _ = true |- _ => apply eqb_eq in H
         | H : GoString.eqb _ _ = false |- _ => apply eqb_neq in H
         end.
  all: destruct Hj as [Hj|Hj]; try contradiction;
    rewrite Hj in *; try discriminate; congruence.
Qed.


(* ---- order of the effects ---- *)

Lemma loopIter_order dw clientID deviceCode shown st n :
  sent st = shown ++ repeat (tokenPost clientID deviceCode) n ->
  n <= polled st ->
  match loopIter dw clientID deviceCode st with
  | Return st' _ _ | Continue st' =>
      exists n', n' <= polled st' /\
                 sent st' = shown ++ repeat (tokenPost clientID deviceCode) n'
  end.
Proof.
  intros Hs Hn.
  assert (Ha : exists n', n' <= polled (afterPoll dw clientID deviceCode st) /\
                 sent (afterPoll dw clientID deviceCode st)
                 = shown ++ repeat (tokenPost clientID deviceCode) n').
  { unfold afterPoll; cbn [polled sent]. rewrite Hs, <- app_assoc.
    destruct (snd (dw_poll dw (polled st))) as [e|e|status raw body];
      cbn [pollEffects].
    - exists n; split; [lia | rewrite app_nil_r; reflexivity].
    - exists (n + 1); split; [lia|].
      rewrite repeat_app; reflexivity.
    - exists (n + 1); split; [lia|].
      rewrite repeat_app; reflexivity. }
  assert (Hw : exists n', n' <= polled (woken dw st) /\
                 sent (woken dw st)
                 = shown ++ repeat (tokenPost clientID deviceCode) n')
    by (exists n; split; assumption).
  unfold loopIter.
  destruct (selectCase dw st); try exact Hw.
  destruct (pollDeviceToken _) as [[token cont] [e|]]; [exact Ha|].
  destruct (negb (isEmpty token)); [exact Ha|].
  destruct (negb cont); exact Ha.
Qed.

Lemma deviceLoop_order fuel dw clientID deviceCode shown :
  forall st n,
    sent st = shown ++ repeat (tokenPost clientID deviceCode) n ->
    n <= polled st ->
    let run := deviceLoop fuel dw clientID deviceCode st in
    exists n', n' <= fr_polls run /\
               fr_effects run
               = shown ++ repeat (tokenPost clientID deviceCode) n'.
Proof.
  induction fuel as [|fuel IH]; intros st n Hs Hn; simpl.
  - exists n; split; assumption.
  - pose proof (loopIter_order dw clientID deviceCode shown st n Hs Hn) as H.
    destruct (loopIter dw clientID deviceCode st) as [st' t e|st'].
    + exact H.
    + destruct H as (n' & Hn' & Hs'). exact (IH st' n' Hs' Hn').
Qed.

(** X3.  What a run of the device flow does outside the process, in order.
    Without a decodable 2xx answer to the device-code request it polls
    nothing, returns an error, and has sent at most that one request.  With
    one, it sends the request, prints the instructions, and then only posts
    token requests for that device code, at most one per poll. *)
Theorem flow_effects_order (fuel : nat) (dw : DeviceWorld)
  (clientID : gostring) (scopes : list gostring) :
  let run := runDeviceFlow fuel dw clientID scopes in
  let post := HttpPost deviceCodeURL (codeForm clientID scopes) in
  match initiated dw with
  | None =>
      fr_polls run = 0 /\
      (exists e, fr_outcome run = Returned [] (Some e)) /\
      (fr_effects run = [] \/ fr_effects run = [post])
  | Some dc =>
      exists n, n <= fr_polls run /\
        fr_effects run
        = post :: display dc
          ++ repeat (tokenPost clientID (DeviceCode dc)) n
  end.
Proof.
  unfold initiated, runDeviceFlow.
  destruct (dw_init dw) as [e|e|status raw body]; simpl; eauto 6.
  destruct ((status <? 200) || (300 <=? status))%Z; simpl; eauto 6.
  destruct (decodeCode body) as [e|dc]; simpl; eauto 6.
  destruct (tickerPeriod dc <=? 0)%Z; simpl.
  - exists 0; split; [lia | simpl; rewrite app_nil_r; reflexivity].
  - apply (deviceLoop_order fuel dw clientID (DeviceCode dc)
             (HttpPost deviceCodeURL (codeForm clientID scopes) :: display dc)
             _ 0); [simpl; rewrite app_nil_r; reflexivity | simpl; lia].
Qed.

(* ---- entering the loop ---- *)

Lemma initiated_loop fuel dw clientID scopes dc :
  initiated dw = Some dc ->
  (0 < tickerPeriod dc)%Z ->
  runDeviceFlow fuel dw clientID scopes
  = deviceLoop fuel dw clientID (DeviceCode dc)
      {| now := 0; period := tickerPeriod dc; nextTick := tickerPeriod dc;
         deadline := expiryDuration dc; polled := 0;
         sent := HttpPost deviceCodeURL (codeForm clientID scopes)
                 :: display dc |}.
Proof.
  unfold initiated, runDeviceFlow.
  destruct (dw_init dw) as [e|e|status raw body]; try discriminate.
  destruct ((status <? 200) || (300 <=? status))%Z; try discriminate.
  destruct (decodeCode body) as [e|dc']; try discriminate.
  intros H Hp; inversion H; subst.
  destruct (Z.leb_spec (tickerPeriod dc) 0); [lia | reflexivity].
Qed.

Lemma decodeCode_expires j dc :
  decodeCode (Object j) = inr dc ->
  j_expires_in j = None -> ExpiresIn dc = 0%Z.
Proof.
  unfold decodeCode; intros H Hn; rewrite Hn in H; simpl in H.
  destruct (intField _ (j_interval j)); inversion H; reflexivity.
Qed.

(** X4.  A device-code response without [expires_in], or with one from
    -9223372036 to 0 seconds, and with an interval of at most 9223372036
    seconds (the seconds a [time.Duration] can count, so that neither
    product wraps around), makes the flow fail with the expiry error at
    once: when the context is not already done, the first [select] takes the
    timeout, no token request is sent, and the user has only been shown the
    instructions. *)
Theorem expired_at_once (fuel : nat) (dw : DeviceWorld) (clientID : gostring)
  (scopes : list gostring) (status : Z) (raw : gostring) (j : codeJSON)
  (dc : deviceCodeResponse) :
  dw_init dw = Response status raw (Object j) ->
  (200 <= status < 300)%Z ->
  decodeCode (Object j) = inr dc ->
  (Interval dc <= maxSeconds)%Z ->
  j_expires_in j = None \/ (- maxSeconds <= ExpiresIn dc <= 0)%Z ->
  (forall tc e, dw_cancel dw = Some (tc, e) -> (0 < tc)%Z) ->
  let run := runDeviceFlow (S fuel) dw clientID scopes in
  fr_outcome run
  = Returned [] (Some (errorsNew "device code expired; please try again"))
  /\ fr_polls run = 0
  /\ fr_time run = 0%Z
  /\ fr_effects run
     = HttpPost deviceCodeURL (codeForm clientID scopes) :: display dc.
Proof.
  intros Hi Hs Hd Hiv Hex Hc run.
  pose proof (pollInterval_pos dc) as Hpos.
  pose proof (tickerPeriod_seconds dc Hiv) as Hper.
  assert (Hd0 : (0 < tickerPeriod dc)%Z) by (unfold Second in *; lia).
  assert (HD : (expiryDuration dc <= 0)%Z).
  { assert (He : (- maxSeconds <= ExpiresIn dc <= 0)%Z).
    { destruct Hex as [Hn|He]; [|exact He].
      rewrite (decodeCode_expires j dc Hd Hn); unfold maxSeconds; lia. }
    unfold expiryDuration; rewrite wrap64_small;
      unfold two63, Second, maxSeconds in *; lia. }
  unfold run.
  rewrite (runDeviceFlow_loop (S fuel) dw clientID scopes status raw _ dc
             Hi Hs Hd Hd0).
  set (st0 := {| now := 0; period := tickerPeriod dc;
                 nextTick := tickerPeriod dc; deadline := expiryDuration dc;
                 polled := 0; sent := _ |}).
  assert (Hw : wakeTime dw st0 = 0%Z).
  { unfold wakeTime, st0; cbn [now nextTick deadline].
    destruct (dw_cancel dw) as [[tc e]|] eqn:E; [specialize (Hc tc e eq_refl)|];
      lia. }
  pose proof (selectCase_ready dw st0) as Hr. rewrite Hw in Hr.
  assert (Hpass : loopIter dw clientID (DeviceCode dc) st0
                  = Return (woken dw st0) [] (Some expiredError)).
  { unfold loopIter.
    destruct (selectCase dw st0); cbn [ready] in Hr.
    - destruct (dw_cancel dw) as [[tc e]|] eqn:E; [|discriminate].
      specialize (Hc tc e eq_refl). apply Z.leb_le in Hr; lia.
    - reflexivity.
    - apply Z.leb_le in Hr; unfold st0 in Hr; cbn [nextTick] in Hr; lia. }
  rewrite (deviceLoop_return fuel _ _ _ _ _ _ _ Hpass).
  cbn [fr_outcome fr_polls fr_time fr_effects woken now polled sent].
  rewrite Hw. repeat split.
Qed.

Lemma expired_at_once_witness :
  let run := runDeviceFlow 1 Demo.noExpiry (lit "cid") [lit "repo"] in
  fr_outcome run
  = Returned [] (Some (errorsNew "device code expired; please try again"))
  /\ fr_polls run = 0
  /\ fr_time run = 0%Z
  /\ fr_effects run
     = HttpPost deviceCodeURL (codeForm (lit "cid") [lit "repo"])
       :: display (Sample.codeOf 0 5).
Proof.
  apply (expired_at_once 0 Demo.noExpiry (lit "cid") [lit "repo"] 200 [] _
           (Sample.codeOf 0 5) eq_refl).
  - lia.
  - reflexivity.
  - vm_compute; discriminate.
  - left; reflexivity.
  - intros tc e H; discriminate H.
Defined.

(** Below that range the nanoseconds wrap around: an [expires_in] of
    -9223372037 seconds gives a timeout that lies in the future. *)
Example negative_expiry_wraps :
  (0 < expiryDuration (Sample.codeOf (-9223372037) 5))%Z.
Proof. vm_compute; reflexivity. Qed.

(* ---- cancellation ---- *)

Section Cancelled.

Variables (dw : DeviceWorld) (clientID deviceCode : gostring).
Variables (d D tc : Z) (e : error).

Hypothesis cancelled : dw_cancel dw = Some (tc, e).
Hypothesis period_pos : (0 < d)%Z.
Hypothesis before_expiry : (0 <= tc < D)%Z.
Hypothesis earlier_polls :
  forall i : nat,
    ((Z.of_nat i + 1) * d < tc)%Z ->
    continues (snd (dw_poll dw i)) /\ (Z.of_N (fst (dw_poll dw i)) < d)%Z.
Hypothesis idle : idleAt dw d tc.

Lemma pass_before_cancel st :
  beforeCancel d D tc st ->
  ((tc < nextTick st)%Z /\
   loopIter dw clientID deviceCode st = Return (woken dw st) [] (Some e) /\
   wakeTime dw st = tc)
  \/
  ((nextTick st < tc)%Z /\
   loopIter dw clientID deviceCode st
     = Continue (afterPoll dw clientID deviceCode st) /\
   beforeCancel d D tc (afterPoll dw clientID deviceCode st)).
Proof.
  intros (Hp & Hd & Hn & Hnow & Hle & Hpl).
  pose proof (selectCase_ready dw st) as Hr.
  assert (Hw : wakeTime dw st
               = Z.max (now st) (Z.min (Z.min (nextTick st) D) tc))
    by (unfold wakeTime; rewrite cancelled, Hd; reflexivity).
  destruct (idle (polled st)) as [Hi|Hi]; rewrite <- Hn in Hi.
  - left. split; [exact Hi|].
    assert (Ht : wakeTime dw st = tc) by lia.
    split; [|exact Ht].
    rewrite Ht in Hr.
    destruct (selectCase dw st) eqn:Hsel; cbn [ready] in Hr.
    + unfold loopIter; rewrite Hsel. unfold ctxErr; rewrite cancelled.
      reflexivity.
    + apply Z.leb_le in Hr. rewrite Hd in Hr. lia.
    + apply Z.leb_le in Hr. lia.
  - right.
    pose proof (N2Z.is_nonneg (fst (dw_poll dw (polled st)))) as H0.
    assert (Hlt : (nextTick st < tc)%Z) by lia.
    split; [exact Hlt|].
    assert (Ht : wakeTime dw st = nextTick st) by lia.
    rewrite Ht in Hr.
    assert (Hsel : selectCase dw st = CaseTick).
    { destruct (selectCase dw st); cbn [ready] in Hr.
      - rewrite cancelled in Hr. apply Z.leb_le in Hr. lia.
      - apply Z.leb_le in Hr. rewrite Hd in Hr. lia.
      - reflexivity. }
    destruct (earlier_polls (polled st)) as [Hco Hshort];
      [rewrite <- Hn; exact Hlt|].
    split; [apply pass_continue; [exact Hsel | exact Hco]|].
    unfold beforeCancel, afterPoll;
      cbn [now period deadline nextTick polled].
    rewrite Ht, Hn, Hp. rewrite Z.div_mul by lia.
    rewrite Nat2Z.inj_succ; unfold Z.succ.
    rewrite Hn in Hi, Hlt.
    repeat split; try assumption; try lia.
Qed.

Lemma loop_cancelled :
  forall n st,
    beforeCancel d D tc st ->
    (tc < nextTick st + Z.of_nat n * d)%Z ->
    forall fuel, n < fuel ->
      let run := deviceLoop fuel dw clientID deviceCode st in
      fr_outcome run = Returned [] (Some e) /\
      fr_time run = tc /\
      (Z.of_nat (fr_polls run) * d <= tc < (Z.of_nat (fr_polls run) + 1) * d)%Z.
Proof.
  induction n as [|n IH]; intros st Hinv Hn fuel Hfuel;
    (destruct fuel as [|fuel]; [lia|]);
    pose proof Hinv as (_ & _ & Hnt & _ & _ & Hpl);
    destruct (pass_before_cancel st Hinv)
      as [(Htc & Hret & Ht) | (Htc & Hco & Hinv')].
  - rewrite (deviceLoop_return fuel _ _ _ _ _ _ _ Hret).
    cbn [fr_outcome fr_time fr_polls woken now polled].
    rewrite <- Hnt. auto.
  - lia.
  - rewrite (deviceLoop_return fuel _ _ _ _ _ _ _ Hret).
    cbn [fr_outcome fr_time fr_polls woken now polled].
    rewrite <- Hnt. auto.
  - rewrite (deviceLoop_continue fuel _ _ _ _ _ Hco).
    apply IH; [exact Hinv' | | lia].
    destruct Hinv' as (_ & _ & Hnt' & _).
    rewrite Hnt'. unfold afterPoll; cbn [polled].
    rewrite Nat2Z.inj_succ; unfold Z.succ. rewrite Hnt in Hn. lia.
Qed.

End Cancelled.

(** X5.  Cancellation between two polls ends the flow with the error of the
    context, at the instant of the cancellation.  The context is done at
    [tc], not before the ticker is created and before the expiry; the polls
    that start before [tc] answer pending or slow-down in less than a
    period; and no request is in flight at [tc]: every poll is over before
    [tc] or starts after it.  Then the flow returns the context's error at
    [tc], after one poll for each tick before [tc].  (A request that is in
    flight at [tc] is cut short, since it is made with the context, and the
    flow returns the error of that exchange.) *)
Theorem cancellation_ends_flow
  (dw : DeviceWorld) (clientID : gostring) (scopes : list gostring)
  (status : Z) (raw : gostring) (body : jsonBody codeJSON)
  (dc : deviceCodeResponse) (tc : Z) (e : error) (fuel : nat) :
  let d := (pollInterval dc * Second)%Z in
  dw_init dw = Response status raw body ->
  (200 <= status < 300)%Z ->
  decodeCode body = inr dc ->
  (Interval dc <= maxSeconds)%Z ->
  (0 <= ExpiresIn dc <= maxSeconds)%Z ->
  dw_cancel dw = Some (tc, e) ->
  (0 <= tc < ExpiresIn dc * Second)%Z ->
  (forall i : nat,
     ((Z.of_nat i + 1) * d < tc)%Z ->
     continues (snd (dw_poll dw i)) /\ (Z.of_N (fst (dw_poll dw i)) < d)%Z) ->
  idleAt dw d tc ->
  Z.to_nat (tc / d) < fuel ->
  let run := runDeviceFlow fuel dw clientID scopes in
  fr_outcome run = Returned [] (Some e)
  /\ fr_time run = tc
  /\ fr_polls run = Z.to_nat (tc / d).
Proof.
  intros d Hi Hs Hd Hiv Hex Hc Htc Hearly Hidle Hfuel run.
  pose proof (pollInterval_pos dc) as Hpos.
  pose proof (tickerPeriod_seconds dc Hiv) as Hper.
  pose proof (expiryDuration_seconds dc Hex) as Hdl.
  assert (Hd0 : (0 < d)%Z) by (unfold d, Second in *; lia).
  fold d in Hper.
  unfold run.
  rewrite (runDeviceFlow_loop fuel dw clientID scopes status raw body dc
             Hi Hs Hd ltac:(lia)).
  rewrite Hper, Hdl.
  set (st0 := {| now := 0; period := d; nextTick := d;
                 deadline := (ExpiresIn dc * Second)%Z;
                 polled := 0; sent := _ |}).
  assert (Hinv : beforeCancel d (ExpiresIn dc * Second) tc st0).
  { unfold beforeCancel, st0; cbn [now period deadline nextTick polled].
    repeat split; try lia. }
  set (q := (tc / d)%Z) in *.
  pose proof (Z.div_mod tc d ltac:(lia)) as E.
  pose proof (Z.mod_pos_bound tc d Hd0) as B. fold q in E.
  assert (Hq0 : (0 <= q)%Z) by (apply Z.div_pos; lia).
  assert (Hn : (tc < nextTick st0 + Z.of_nat (Z.to_nat q) * d)%Z).
  { unfold st0; cbn [nextTick]. rewrite Z2Nat.id by exact Hq0. nia. }
  destruct (loop_cancelled dw clientID (DeviceCode dc) d
              (ExpiresIn dc * Second) tc e Hc Hd0 Htc Hearly Hidle
              (Z.to_nat q) st0 Hinv Hn fuel Hfuel) as (Ho & Ht & Hp).
  split; [exact Ho|]. split; [exact Ht|].
  set (p := fr_polls (deviceLoop fuel dw clientID (DeviceCode dc) st0)) in *.
  assert (Hpq : Z.of_nat p = q) by nia.
  rewrite <- Hpq. rewrite Nat2Z.id. reflexivity.
Qed.

Lemma cancellation_ends_flow_witness :
  let run := runDeviceFlow 3 Demo.interrupted (lit "cid") [lit "repo"] in
  fr_outcome run = Returned [] (Some (lit "context canceled"))
  /\ fr_time run = (12 * Second)%Z
  /\ fr_polls run = 2.
Proof.
  apply (cancellation_ends_flow Demo.interrupted (lit "cid") [lit "repo"]
           200 [] _ (Sample.codeOf 900 5) (12 * Second)
           (lit "context canceled") 3 eq_refl).
  - lia.
  - reflexivity.
  - vm_compute; discriminate.
  - vm_compute; split; discriminate.
  - reflexivity.
  - vm_compute; split; [discriminate | reflexivity].
  - intros i _. split; [reflexivity | vm_compute; reflexivity].
  - intros [|[|i]].
    + right; vm_compute; reflexivity.
    + right; vm_compute; reflexivity.
    + left. change (pollInterval (Sample.codeOf 900 5)) with 5%Z.
      unfold Second. lia.
  - vm_compute; lia.
Defined.

(* ---- the flow that is granted ---- *)

Section Granted.

Variables (dw : DeviceWorld) (clientID deviceCode : gostring).
Variables (d D L : Z) (k : nat) (token : gostring).

Hypothesis never_cancelled : dw_cancel dw = None.
Hypothesis pending_before : forall i, i < k -> continues (snd (dw_poll dw i)).
Hypothesis granted_then :
  pollDeviceToken (snd (dw_poll dw k)) = (token, false, None).
Hypothesis token_not_blank : token <> [].
Hypothesis polls_short :
  forall i, i < k -> (Z.of_N (fst (dw_poll dw i)) <= L)%Z.
Hypothesis within_period : (0 <= L < d)%Z.
Hypothesis before_expiry : ((Z.of_nat k + 1) * d < D)%Z.

Lemma pass_on_time i st :
  i <= k -> onTime d D i st ->
  selectCase dw st = CaseTick /\ wakeTime dw st = nextTick st.
Proof.
  intros Hi (Hp & Hd & Hpl & Hnow & Hn).
  assert (Hlt : (nextTick st < D)%Z) by (rewrite Hn; nia).
  assert (Hw : wakeTime dw st = nextTick st)
    by (unfold wakeTime; rewrite never_cancelled, Hd; lia).
  split; [|exact Hw].
  pose proof (selectCase_ready dw st) as Hr. rewrite Hw in Hr.
  destruct (selectCase dw st); cbn [ready] in Hr.
  - rewrite never_cancelled in Hr; discriminate.
  - apply Z.leb_le in Hr; lia.
  - reflexivity.
Qed.

Lemma loop_granted :
  forall m i st,
    i + m = k -> onTime d D i st ->
    forall fuel, m < fuel ->
      let run := deviceLoop fuel dw clientID deviceCode st in
      fr_outcome run = Returned token None /\
      fr_polls run = S k /\
      fr_time run
      = ((Z.of_nat k + 1) * d + Z.of_N (fst (dw_poll dw k)))%Z.
Proof.
  induction m as [|m IH]; intros i st Hik Hinv fuel Hfuel;
    (destruct fuel as [|fuel]; [lia|]);
    destruct (pass_on_time i st ltac:(lia) Hinv) as [Hsel Hw];
    pose proof Hinv as (Hp & Hd & Hpl & Hnow & Hn).
  - assert (Hi : i = k) by lia. rewrite Hi in Hpl, Hn.
    assert (Hret : loopIter dw clientID deviceCode st
                   = Return (afterPoll dw clientID deviceCode st) token None).
    { apply (pass_token dw clientID deviceCode st Hsel token false);
        [rewrite Hpl; exact granted_then | exact token_not_blank]. }
    rewrite (deviceLoop_return fuel _ _ _ _ _ _ _ Hret).
    unfold afterPoll; cbn [fr_outcome fr_polls fr_time now polled].
    rewrite Hw, Hn, Hpl. repeat split.
  - assert (Hco : loopIter dw clientID deviceCode st
                  = Continue (afterPoll dw clientID deviceCode st)).
    { apply pass_continue; [exact Hsel|]. rewrite Hpl.
      apply pending_before; lia. }
    rewrite (deviceLoop_continue fuel _ _ _ _ _ Hco).
    apply (IH (S i)); [lia | | lia].
    unfold onTime, afterPoll; cbn [now period deadline nextTick polled].
    rewrite Hw, Hn, Hp, Hpl.
    pose proof (polls_short i ltac:(lia)) as Hs.
    pose proof (N2Z.is_nonneg (fst (dw_poll dw i))) as H0.
    rewrite Z.div_mul by lia.
    rewrite Nat2Z.inj_succ; unfold Z.succ.
    repeat split; try assumption; try lia; nia.
Qed.

End Granted.

(** X6.  The device flow succeeds when the user authorises in time.  With
    [k] polls that answer pending or slow-down, each within less than a
    period, and a poll number [k] (from 0) that carries a token that is not
    blank and no error member, all before the expiry and without
    cancellation, the flow returns that token with the white space around it
    cut, after exactly [k + 1] polls, at tick [k + 1] plus the duration of
    the last poll. *)
Theorem device_flow_succeeds
  (dw : DeviceWorld) (clientID : gostring) (scopes : list gostring)
  (status : Z) (raw : gostring) (body : jsonBody codeJSON)
  (dc : deviceCodeResponse) (k : nat)
  (status' : Z) (raw' : gostring) (j : tokenJSON) (L : Z) (fuel : nat) :
  dw_init dw = Response status raw body ->
  (200 <= status < 300)%Z ->
  decodeCode body = inr dc ->
  (Interval dc <= maxSeconds)%Z ->
  (0 <= ExpiresIn dc <= maxSeconds)%Z ->
  dw_cancel dw = None ->
  (forall i, i < k -> continues (snd (dw_poll dw i))) ->
  (forall i, i < k -> (Z.of_N (fst (dw_poll dw i)) <= L)%Z) ->
  (0 <= L < pollInterval dc * Second)%Z ->
  snd (dw_poll dw k) = Response status' raw' (Object j) ->
  stringField (j_error j) = [] ->
  TrimSpace (stringField (j_access_token j)) <> [] ->
  ((Z.of_nat k + 1) * pollInterval dc < ExpiresIn dc)%Z ->
  k < fuel ->
  let run := runDeviceFlow fuel dw clientID scopes in
  fr_outcome run = Returned (TrimSpace (stringField (j_access_token j))) None
  /\ fr_polls run = S k
  /\ fr_time run
     = ((Z.of_nat k + 1) * (pollInterval dc * Second)
        + Z.of_N (fst (dw_poll dw k)))%Z.
Proof.
  intros Hi Hs Hd Hiv Hex Hc Hpend Hshort HL Hk He Htok Hbefore Hfuel run.
  pose proof (pollInterval_pos dc) as Hpos.
  pose proof (tickerPeriod_seconds dc Hiv) as Hper.
  pose proof (expiryDuration_seconds dc Hex) as Hdl.
  assert (Hd0 : (0 < tickerPeriod dc)%Z) by (unfold Second in *; lia).
  unfold run.
  rewrite (runDeviceFlow_loop fuel dw clientID scopes status raw body dc
             Hi Hs Hd Hd0).
  rewrite <- Hper.
  apply (loop_granted dw clientID (DeviceCode dc)
           (tickerPeriod dc) (expiryDuration dc) L k
           (TrimSpace (stringField (j_access_token j)))
           Hc Hpend) with (m := k) (i := 0).
  - rewrite Hk. unfold pollDeviceToken, decodeToken.
    rewrite classify_granted by exact He. reflexivity.
  - exact Htok.
  - exact Hshort.
  - lia.
  - rewrite Hper, Hdl. unfold Second in *; nia.
  - lia.
  - unfold onTime; cbn [now period deadline nextTick polled].
    repeat split; try lia.
  - exact Hfuel.
Qed.

Lemma device_flow_succeeds_witness :
  let run := runDeviceFlow 3 Sample.granted (lit "cid") [lit "repo"] in
  fr_outcome run = Returned (lit "ghu_xyz") None
  /\ fr_polls run = 3
  /\ fr_time run = (15 * Second)%Z.
Proof.
  apply (device_flow_succeeds Sample.granted (lit "cid") [lit "repo"]
           200 [] _ (Sample.codeOf 900 5) 2 200 [] Demo.grant 0 3 eq_refl).
  - lia.
  - reflexivity.
  - vm_compute; discriminate.
  - vm_compute; split; discriminate.
  - reflexivity.
  - intros [|[|i]] Hi; [reflexivity | reflexivity | lia].
  - intros i Hi; vm_compute; discriminate.
  - vm_compute; split; [discriminate | reflexivity].
  - reflexivity.
  - reflexivity.
  - vm_compute; discriminate.
  - vm_compute; reflexivity.
  - lia.
Defined.

(** ** The resolver *)

Lemma flow_filter (P : effect -> bool) fuel dw clientID scopes :
  (forall e, isFlowEffect e = true -> P e = false) ->
  filter P (fr_effects (runDeviceFlow fuel dw clientID scopes)) = [].
Proof.
  intros HP.
  pose proof (runDeviceFlow_effects fuel dw clientID scopes) as F.
  rewrite forallb_forall in F.
  induction (fr_effects (runDeviceFlow fuel dw clientID scopes)) as [|x l IH];
    [reflexivity|].
  simpl. rewrite (HP x (F x (or_introl eq_refl))).
  apply IH. intros y Hy; apply F; right; exact Hy.
Qed.

Lemma flow_effect_kind fuel dw clientID scopes e :
  In e (fr_effects (runDeviceFlow fuel dw clientID scopes)) ->
  isFlowEffect e = true.
Proof.
  intros H. pose proof (runDeviceFlow_effects fuel dw clientID scopes) as F.
  rewrite forallb_forall in F. exact (F e H).
Qed.

Ltac count_goal :=
  unfold count;
  cbn [filter isFileRead isTokenQuery isLogin isMkdir isStoreWrite];
  rewrite ?filter_app;
  rewrite ?flow_filter by (intros [] ; simpl; congruence);
  cbn [filter isFileRead isTokenQuery isLogin isMkdir isStoreWrite app List.length];
  repeat split; lia.

Ltac in_es H :=
  repeat (rewrite in_app_iff in H || simpl In in H);
  repeat match type of H with
  | _ \/ _ => destruct H as [H|H]
  end; try contradiction.

Ltac flow_case H :=
  apply flow_effect_kind in H;
  match type of H with
  | isFlowEffect ?e = true => destruct e; try discriminate H
  end.

Ltac gh_missing_goal :=
  let Hgh := fresh "Hgh" in let qe := fresh "qe" in let Hin := fresh "Hin" in
  intros Hgh qe Hin;
  try (exfalso; apply Hgh; reflexivity);
  in_es Hin;
  first [ subst qe; split; reflexivity
        | flow_case Hin; split; reflexivity ].

Ltac login_goal :=
  let qe := fresh "qe" in let Hin := fresh "Hin" in let Hl := fresh "Hl" in
  intros qe Hin Hl;
  in_es Hin;
  first [ subst qe; cbn [isLogin] in Hl; try discriminate Hl;
          (split; [reflexivity|]); (split; [reflexivity|]);
          first [ left; discriminate | right; assumption ]
        | flow_case Hin; cbn [isLogin] in Hl; discriminate Hl ].

Ltac network_goal :=
  let qe := fresh "qe" in let Hin := fresh "Hin" in let Hn := fresh "Hn" in
  intros qe Hin Hn;
  in_es Hin;
  first [ subst qe; cbn [isNetwork] in Hn; discriminate Hn | assumption ].

Ltac write_goal :=
  let wp := fresh "wp" in let wd := fresh "wd" in let wq := fresh "wq" in
  let Hin := fresh "Hin" in
  intros wp wd wq Hin;
  in_es Hin; try discriminate Hin;
  try (exfalso; exact (flow_effect_not_write _ _ _ _ _ _ _ Hin));
  inversion Hin; subst;
  eexists; (split; [reflexivity|]); (split; [reflexivity|]);
  (split; [reflexivity|]);
  (split; [repeat (rewrite in_app_iff || cbn [In]); auto 20|]);
  (split; [assumption|]);
  first [ intros Hok; congruence
        | intros _; rewrite path_eqb_refl; reflexivity ].

Ltac mkdir_goal :=
  let wp := fresh "wp" in let wq := fresh "wq" in let Hin := fresh "Hin" in
  intros wp wq Hin;
  in_es Hin; try discriminate Hin;
  try (apply flow_effect_kind in Hin; discriminate Hin);
  inversion Hin; subst;
  eexists; (split; [reflexivity|]); split; reflexivity.

Lemma resolveByGh_discipline (fuel : nat) (w : World) :
  discipline 0 (resolveByGh fuel) w.
Proof.
  unfold discipline, effectsOf.
  destruct w as [env cfg fs mk wr ghp [gho ghe] [lge [lgo lgerr]] dev tr].
  resolver_cases.
  all: rewrite <- ?app_assoc, ?skipn_app_length.
  all: cbn [fst snd app isEmpty negb w_env w_configDir w_fs w_mkdirErr w_writeErr
            w_ghPath w_ghToken w_trace] in *;
    try discriminate.
  all: nonblank.
  all: (split; [reflexivity|]).
  all: (split; [count_goal|]).
  all: (split; [gh_missing_goal|]).
  all: (split; [login_goal|]).
  all: (split; [network_goal|]).
  all: (split; [write_goal|]).
  all: (split; [mkdir_goal|]).
  all: split; reflexivity.
Qed.

Lemma count_app P (a b : list effect) : count P (a ++ b) = count P a + count P b.
Proof. unfold count; rewrite filter_app, length_app; reflexivity. Qed.

Lemma count_harmless P (pre : list effect) :
  (forall e, P e = true -> harmless e = false) ->
  forallb harmless pre = true -> count P pre = 0.
Proof.
  intros HP H. unfold count.
  induction pre as [|x l IH]; [reflexivity|].
  simpl in H. apply andb_true_iff in H. destruct H as [Hx Hl].
  simpl. destruct (P x) eqn:E; [rewrite (HP x E) in Hx; discriminate|].
  exact (IH Hl).
Qed.

(** A computation that starts by harmless effects. *)
Lemma discipline_later (reads : nat) (m m' : M outcome) (pre : list effect)
  (w w1 : World) :
  m' w = m w1 ->
  later pre w w1 ->
  forallb harmless pre = true ->
  discipline reads m w1 ->
  discipline (count isFileRead pre + reads) m' w.
Proof.
  intros Hm (He & Hc & Hfs & Hmk & Hwr & Hgp & Hgt & Htr) Hpre
         (D0 & (Dr & Dq & Dl & Dk & Dw) & D2 & D3 & D4 & D5 & D6 & D7).
  assert (Hes : effectsOf m' w = pre ++ effectsOf m w1).
  { unfold effectsOf at 1. rewrite Hm, D0, Htr, <- app_assoc.
    apply skipn_app_length. }
  assert (Hin : forall (P : effect -> bool) e,
            (forall x, P x = true -> harmless x = false) ->
            In e pre -> P e = false).
  { intros P e HP Hi. rewrite forallb_forall in Hpre.
    specialize (Hpre e Hi). destruct (P e) eqn:E; [|reflexivity].
    rewrite (HP e E) in Hpre; discriminate. }
  assert (Hq : forall x, isTokenQuery x = true -> harmless x = false)
    by (intros [] H; try discriminate H; reflexivity).
  assert (Hl : forall x, isLogin x = true -> harmless x = false)
    by (intros [] H; try discriminate H; reflexivity).
  assert (Hk : forall x, isMkdir x = true -> harmless x = false)
    by (intros [] H; try discriminate H; reflexivity).
  assert (Hw : forall x, isStoreWrite x = true -> harmless x = false)
    by (intros [] H; try discriminate H; reflexivity).
  assert (Hn : forall x, isNetwork x = true -> harmless x = false)
    by (intros [] H; try discriminate H; reflexivity).
  unfold discipline. rewrite Hes, Hm.
  rewrite <- He, <- Hc, <- Hfs, <- Hmk, <- Hwr, <- Hgp, <- Hgt.
  split; [rewrite D0, Htr, app_assoc; reflexivity|].
  split.
  { rewrite !count_app.
    rewrite (count_harmless isTokenQuery pre Hq Hpre),
            (count_harmless isLogin pre Hl Hpre),
            (count_harmless isMkdir pre Hk Hpre),
            (count_harmless isStoreWrite pre Hw Hpre).
    repeat split; lia. }
  split.
  { intros Hgh e Hi. apply in_app_iff in Hi. destruct Hi as [Hi|Hi].
    - split; [exact (Hin _ e Hq Hi) | exact (Hin _ e Hl Hi)].
    - exact (D2 Hgh e Hi). }
  split.
  { intros e Hi Hlog. apply in_app_iff in Hi. destruct Hi as [Hi|Hi].
    - rewrite (Hin _ e Hl Hi) in Hlog; discriminate.
    - exact (D3 e Hi Hlog). }
  split.
  { intros e Hi Hnet. apply in_app_iff in Hi. destruct Hi as [Hi|Hi].
    - rewrite (Hin _ e Hn Hi) in Hnet; discriminate.
    - exact (D4 e Hi Hnet). }
  split.
  { intros p data perm Hi. apply in_app_iff in Hi. destruct Hi as [Hi|Hi].
    - pose proof (Hin isStoreWrite _ Hw Hi) as F; discriminate F.
    - destruct (D5 p data perm Hi) as (dir & H1 & H2 & H3 & H4 & H5 & H6).
      exists dir. repeat split; try assumption.
      apply in_app_iff; right; exact H4. }
  split.
  { intros p perm Hi. apply in_app_iff in Hi. destruct Hi as [Hi|Hi].
    - pose proof (Hin isMkdir _ Hk Hi) as F; discriminate F.
    - exact (D6 p perm Hi). }
  destruct D7 as [E1 E2]. split; assumption.
Qed.

Lemma discipline_ret (o : outcome) (w : World) : discipline 0 (ret o) w.
Proof.
  assert (He : effectsOf (ret o) w = []).
  { unfold effectsOf, ret; simpl.
    rewrite <- (app_nil_r (w_trace w)) at 2. apply skipn_app_length. }
  unfold discipline. rewrite He. unfold ret; simpl.
  split; [rewrite app_nil_r; reflexivity|].
  split; [unfold count; simpl; repeat split; lia|].
  repeat split; try contradiction; intros; contradiction.
Qed.

Lemma discipline_weaken (a b : nat) (m : M outcome) (w : World) :
  a <= b -> discipline a m w -> discipline b m w.
Proof.
  intros Hab (D0 & (Dr & Dq) & D). unfold discipline.
  split; [exact D0|]. split; [split; [lia | exact Dq]|]. exact D.
Qed.

Ltac later_goal :=
  unfold later; cbn [w_env w_configDir w_fs w_mkdirErr w_writeErr w_ghPath
                     w_ghToken w_trace];
  repeat split; rewrite <- ?app_assoc; reflexivity.

Lemma resolver_discipline (fuel : nat) (w : World) :
  discipline 1 (resolveGitHubToken fuel) w.
Proof.
  assert (H : exists (k : M outcome) (pre : list effect) (w1 : World),
            resolveGitHubToken fuel w = k w1 /\ later pre w w1 /\
            forallb harmless pre = true /\ count isFileRead pre <= 1 /\
            discipline 0 k w1).
  { destruct w as [env cfg fs mk wr ghp ght ghl dev tr].
    unfold resolveGitHubToken, readStoredToken, configTokenPath,
      osGetenv, osUserConfigDir, osReadFile, bind, ret, emit.
    simpl_world.
    destruct (negb (isEmpty (TrimSpace (env (lit "GITHUB_TOKEN"))))).
    { eexists (ret _), [_], _.
      split; [reflexivity|]. split; [later_goal|].
      split; [reflexivity|]. split; [unfold count; simpl; lia|].
      apply discipline_ret. }
    destruct cfg as [e|dir]; simpl_world.
    { eexists (resolveByGh fuel), [_; _], _.
      split; [reflexivity|]. split; [later_goal|].
      split; [reflexivity|]. split; [unfold count; simpl; lia|].
      apply resolveByGh_discipline. }
    destruct (fs _) as [|e hidden|data]; simpl_world;
      try (eexists (resolveByGh fuel), [_; _; _], _;
           split; [reflexivity|]; split; [later_goal|];
           split; [reflexivity|]; split; [unfold count; simpl; lia|];
           apply resolveByGh_discipline).
    destruct (negb (isEmpty (TrimSpace data))).
    - eexists (ret _), [_; _; _], _.
      split; [reflexivity|]. split; [later_goal|].
      split; [reflexivity|]. split; [unfold count; simpl; lia|].
      apply discipline_ret.
    - eexists (resolveByGh fuel), [_; _; _], _.
      split; [reflexivity|]. split; [later_goal|].
      split; [reflexivity|]. split; [unfold count; simpl; lia|].
      apply resolveByGh_discipline. }
  destruct H as (k & pre & w1 & Hk & Hl & Hh & Hc & Hd).
  apply (discipline_weaken (count isFileRead pre + 0) 1); [lia|].
  exact (discipline_later 0 k (resolveGitHubToken fuel) pre w w1 Hk Hl Hh Hd).
Qed.

Lemma resolve_env (fuel : nat) (w : World) :
  TrimSpace (w_env w (lit "GITHUB_TOKEN")) <> [] ->
  resolveGitHubToken fuel w
  = (Returned (TrimSpace (w_env w (lit "GITHUB_TOKEN"))) None,
     emit [Getenv (lit "GITHUB_TOKEN")] w).
Proof.
  intros Hne. unfold resolveGitHubToken, bind, osGetenv, ret.
  apply isEmpty_false in Hne. rewrite Hne. reflexivity.
Qed.

Lemma resolve_stored (fuel : nat) (w : World) (dir : path) (data : gostring) :
  TrimSpace (w_env w (lit "GITHUB_TOKEN")) = [] ->
  w_configDir w = inr dir ->
  w_fs w (tokenPath dir) = Content data ->
  TrimSpace data <> [] ->
  resolveGitHubToken fuel w
  = (Returned (TrimSpace data) None,
     emit [ReadFile (tokenPath dir)]
       (emit [UserConfigDir] (emit [Getenv (lit "GITHUB_TOKEN")] w))).
Proof.
  intros He Hc Hf Hd. destruct w; simpl in He, Hc, Hf.
  unfold tokenPath in *.
  unfold resolveGitHubToken, readStoredToken, configTokenPath,
    osGetenv, osUserConfigDir, osReadFile, bind, ret, emit.
  simpl_world. rewrite He. cbn [isEmpty negb]. rewrite Hc. simpl_world.
  rewrite Hf. simpl_world.
  apply isEmpty_false in Hd. rewrite Hd. reflexivity.
Qed.

Lemma effectsOf_run {A : Type} (m : M A) (w w' : World) (a : A)
  (es : list effect) :
  m w = (a, w') -> w_trace w' = w_trace w ++ es -> effectsOf m w = es.
Proof.
  intros Hm Ht. unfold effectsOf. rewrite Hm; simpl. rewrite Ht.
  apply skipn_app_length.
Qed.

(** X7.  With no credential in [GITHUB_TOKEN] and a token file that holds a
    credential, the resolver returns the content of the file with the white
    space around it cut, and does nothing but read the variable, ask for the
    configuration directory and read the file: [gh] is not looked for, no
    request is sent, the file system is left as it was. *)
Theorem stored_token_short_circuit (fuel : nat) (w : World) (dir : path)
  (data : gostring) :
  TrimSpace (w_env w (lit "GITHUB_TOKEN")) = [] ->
  w_configDir w = inr dir ->
  w_fs w (tokenPath dir) = Content data ->
  TrimSpace data <> [] ->
  fst (resolveGitHubToken fuel w) = Returned (TrimSpace data) None
  /\ effectsOf (resolveGitHubToken fuel) w
     = [Getenv (lit "GITHUB_TOKEN"); UserConfigDir; ReadFile (tokenPath dir)]
  /\ w_fs (snd (resolveGitHubToken fuel w)) = w_fs w
  /\ w_ghToken (snd (resolveGitHubToken fuel w)) = w_ghToken w.
Proof.
  intros He Hc Hf Hd.
  pose proof (resolve_stored fuel w dir data He Hc Hf Hd) as Hrun.
  split; [rewrite Hrun; reflexivity|].
  split; [|rewrite Hrun; split; reflexivity].
  apply (effectsOf_run _ _ _ _ _ Hrun).
  simpl. rewrite <- !app_assoc. reflexivity.
Qed.

Lemma stored_token_short_circuit_witness :
  fst (resolveGitHubToken 0 Sample.oldFile) = Returned (lit "ghp_old") None
  /\ effectsOf (resolveGitHubToken 0) Sample.oldFile
     = [Getenv (lit "GITHUB_TOKEN"); UserConfigDir;
        ReadFile (tokenPath Sample.configDir)].
Proof.
  destruct (stored_token_short_circuit 0 Sample.oldFile Sample.configDir
              (lit "ghp_old" ++ [newline]) eq_refl eq_refl eq_refl
              ltac:(vm_compute; discriminate)) as (H1 & H2 & _).
  split; [exact H1 | exact H2].
Defined.

(** X8.  In every run the resolver reads the token file at most once,
    queries [gh] for a token at most twice, starts the [gh] login at most
    once, and creates the directory of the store and writes the token file
    at most once each. *)
Theorem resolver_attempts_bounded (fuel : nat) (w : World) :
  let es := effectsOf (resolveGitHubToken fuel) w in
  count isFileRead es <= 1 /\ count isTokenQuery es <= 2 /\
  count isLogin es <= 1 /\ count isMkdir es <= 1 /\ count isStoreWrite es <= 1.
Proof.
  destruct (resolver_discipline fuel w) as (_ & H & _). exact H.
Qed.

(** X9.  The resolver runs [gh] only when [exec.LookPath] finds it: when the
    lookup fails there is neither a token query nor a login.  A login it
    starts is [gh auth login --web --scopes repo], and it starts it only
    after the first token query failed or gave a blank token. *)
Theorem gh_only_when_found (fuel : nat) (w : World) :
  let es := effectsOf (resolveGitHubToken fuel) w in
  (w_ghPath w <> None ->
   forall e, In e es -> isTokenQuery e = false /\ isLogin e = false)
  /\ (forall e, In e es -> isLogin e = true ->
        e = ExecRun ghAuthLogin /\ w_ghPath w = None /\
        (snd (w_ghToken w) <> None \/ TrimSpace (fst (w_ghToken w)) = [])).
Proof.
  destruct (resolver_discipline fuel w) as (_ & _ & H2 & H3 & _).
  split; [exact H2 | exact H3].
Qed.

(** X10.  The network is the last resort of the resolver.  When a run sends
    a request, [GITHUB_OAUTH_CLIENT_ID] is set to something that is not
    blank, [GITHUB_TOKEN] is blank, and the token file, where there is one,
    holds no credential. *)
Theorem network_last_resort (fuel : nat) (w : World) (e : effect) :
  In e (effectsOf (resolveGitHubToken fuel) w) ->
  isNetwork e = true ->
  TrimSpace (w_env w (lit "GITHUB_OAUTH_CLIENT_ID")) <> []
  /\ TrimSpace (w_env w (lit "GITHUB_TOKEN")) = []
  /\ (forall dir data,
        w_configDir w = inr dir -> w_fs w (tokenPath dir) = Content data ->
        TrimSpace data = []).
Proof.
  intros Hin Hnet.
  destruct (resolver_discipline fuel w) as (_ & _ & _ & _ & H4 & _).
  split; [exact (H4 e Hin Hnet)|].
  assert (He : TrimSpace (w_env w (lit "GITHUB_TOKEN")) = []).
  { destruct (TrimSpace (w_env w (lit "GITHUB_TOKEN"))) eqn:E; [reflexivity|].
    exfalso.
    assert (Hne : TrimSpace (w_env w (lit "GITHUB_TOKEN")) <> [])
      by (rewrite E; discriminate).
    pose proof (resolve_env fuel w Hne) as Hrun.
    rewrite (effectsOf_run _ _ _ _ [Getenv (lit "GITHUB_TOKEN")] Hrun eq_refl)
      in Hin.
    destruct Hin as [<-|[]]. discriminate Hnet. }
  split; [exact He|].
  intros dir data Hc Hf.
  destruct (TrimSpace data) eqn:E; [reflexivity|]. exfalso.
  assert (Hd : TrimSpace data <> []) by (rewrite E; discriminate).
  pose proof (resolve_stored fuel w dir data He Hc Hf Hd) as Hrun.
  rewrite (effectsOf_run _ _ _ _
             [Getenv (lit "GITHUB_TOKEN"); UserConfigDir;
              ReadFile (tokenPath dir)] Hrun) in Hin
    by (simpl; rewrite <- !app_assoc; reflexivity).
  destruct Hin as [<-|[<-|[<-|[]]]]; discriminate Hnet.
Qed.

Lemma network_last_resort_witness :
  TrimSpace (w_env Sample.viaDevice (lit "GITHUB_OAUTH_CLIENT_ID")) <> []
  /\ TrimSpace (w_env Sample.viaDevice (lit "GITHUB_TOKEN")) = [].
Proof.
  destruct (network_last_resort 5 Sample.viaDevice
              (HttpPost deviceCodeURL (codeForm (lit "Iv1.abc") [lit "repo"])))
    as (H1 & H2 & _).
  - vm_compute. repeat (first [left; reflexivity | right]).
  - reflexivity.
  - split; [exact H1 | exact H2].
Defined.

(** X11.  The calls by which the resolver writes.  Every call of
    [os.WriteFile] it makes is on [repoinit/token] under the user's
    configuration directory, with [perm] 0600, in a run that also called
    [os.MkdirAll] on the directory of that file without error; every call
    of [os.MkdirAll] it makes is on that directory, with [perm] 0700.  (The
    arguments are the modes of what the calls create; a file or directory
    that exists keeps its mode.) *)
Theorem store_write_discipline (fuel : nat) (w : World) :
  let es := effectsOf (resolveGitHubToken fuel) w in
  (forall p data perm, In (WriteFile p data perm) es ->
     exists dir,
       w_configDir w = inr dir /\ p = tokenPath dir /\ perm = 384%N /\
       In (MkdirAll (filepathDir p) 448) es /\
       w_mkdirErr w (filepathDir p) = None)
  /\ (forall p perm, In (MkdirAll p perm) es ->
        exists dir, w_configDir w = inr dir /\
                    p = filepathDir (tokenPath dir) /\ perm = 448%N).
Proof.
  destruct (resolver_discipline fuel w) as (_ & _ & _ & _ & _ & H5 & H6 & _).
  split; [|exact H6].
  intros p data perm Hin.
  destruct (H5 p data perm Hin) as (dir & H). exists dir. tauto.
Qed.

(** X12.  What one run stores, the next run finds.  When a run of the
    resolver writes the token file, the write succeeds, and the file was
    not there before or could be read, that run returns a credential, and
    a run started in the world it leaves returns the same credential from
    the file alone: it reads the variable, asks for the configuration
    directory and reads the file, whatever [gh] and the network would now
    say.  (A file that could not be read before still cannot: the write
    keeps its mode.) *)
Theorem second_run_uses_store (fuel fuel' : nat) (w : World) (p : path)
  (data : gostring) (perm : N) :
  In (WriteFile p data perm) (effectsOf (resolveGitHubToken fuel) w) ->
  w_writeErr w p = None ->
  (forall e d, w_fs w p <> Unreadable e d) ->
  let w' := snd (resolveGitHubToken fuel w) in
  exists c,
    fst (resolveGitHubToken fuel w) = Returned c None
    /\ fst (resolveGitHubToken fuel' w') = Returned c None
    /\ effectsOf (resolveGitHubToken fuel') w'
       = [Getenv (lit "GITHUB_TOKEN"); UserConfigDir; ReadFile p].
Proof.
  intros Hin Hok Hread w'.
  destruct (resolver_summary fuel w) as (_ & S2 & _).
  destruct (S2 p data perm Hin) as (c & Hc & Hdata & Ho).
  destruct (resolver_discipline fuel w)
    as (_ & _ & _ & _ & _ & H5 & _ & Henv & Hcfg).
  destruct (H5 p data perm Hin) as (dir & Hd & Hp & _ & _ & _ & Hfs).
  specialize (Hfs Hok). fold w' in Hfs, Henv, Hcfg.
  assert (Hfs' : w_fs w' p = Content data).
  { rewrite Hfs. destruct (w_fs w p) as [|e0 d0|d0] eqn:Ef;
      [reflexivity | exfalso; exact (Hread e0 d0 eq_refl) | reflexivity]. }
  clear Hfs. rename Hfs' into Hfs.
  assert (He : TrimSpace (w_env w (lit "GITHUB_TOKEN")) = []).
  { destruct (TrimSpace (w_env w (lit "GITHUB_TOKEN"))) eqn:E; [reflexivity|].
    exfalso.
    assert (Hne : TrimSpace (w_env w (lit "GITHUB_TOKEN")) <> [])
      by (rewrite E; discriminate).
    pose proof (resolve_env fuel w Hne) as Hrun.
    rewrite (effectsOf_run _ _ _ _ [Getenv (lit "GITHUB_TOKEN")] Hrun eq_refl)
      in Hin.
    destruct Hin as [F|[]]; discriminate F. }
  assert (Htrim : TrimSpace data = c).
  { rewrite Hdata. apply TrimSpace_app_space; [exact (proj2 Hc) | reflexivity]. }
  assert (Hrun : resolveGitHubToken fuel' w'
                 = (Returned (TrimSpace data) None,
                    emit [ReadFile (tokenPath dir)]
                      (emit [UserConfigDir]
                         (emit [Getenv (lit "GITHUB_TOKEN")] w')))).
  { apply resolve_stored.
    - rewrite Henv; exact He.
    - rewrite Hcfg; exact Hd.
    - rewrite <- Hp; exact Hfs.
    - rewrite Htrim; exact (proj1 Hc). }
  exists c. split; [exact Ho|]. split; [rewrite Hrun, Htrim; reflexivity|].
  rewrite Hp.
  apply (effectsOf_run _ _ _ _ _ Hrun).
  simpl. rewrite <- !app_assoc. reflexivity.
Qed.

Lemma second_run_uses_store_witness :
  exists c,
    fst (resolveGitHubToken 5 Sample.viaDevice) = Returned c None
    /\ fst (resolveGitHubToken 0
              (snd (resolveGitHubToken 5 Sample.viaDevice)))
       = Returned c None
    /\ effectsOf (resolveGitHubToken 0)
         (snd (resolveGitHubToken 5 Sample.viaDevice))
       = [Getenv (lit "GITHUB_TOKEN"); UserConfigDir;
          ReadFile (tokenPath Sample.configDir)].
Proof.
  apply (second_run_uses_store 5 0 Sample.viaDevice
           (tokenPath Sample.configDir) (lit "ghu_xyz" ++ [newline]) 384).
  - vm_compute. repeat (first [left; reflexivity | right]).
  - reflexivity.
  - intros e d H. discriminate H.
Defined.

(** X13.  With nothing in the environment or the token file, and a [gh] that
    is installed and hands out a token that is not blank (at the first
    query, or at the query that follows a successful login when the first
    query gave nothing), the resolver returns that token with the white
    space around it cut, sends no request, and, when the directory can be
    made and the file written, leaves the token and a newline in the token
    file; the file can then be read, unless it was there before and could
    not be. *)
Theorem gh_token_adopted (fuel : nat) (w : World) (out : gostring) :
  nothingStored w ->
  ghAnswers w out ->
  let r := resolveGitHubToken fuel w in
  fst r = Returned (TrimSpace out) None
  /\ (forall e, In e (effectsOf (resolveGitHubToken fuel) w) ->
        isNetwork e = false)
  /\ (forall dir,
        w_configDir w = inr dir ->
        w_mkdirErr w (filepathDir (tokenPath dir)) = None ->
        w_writeErr w (tokenPath dir) = None ->
        holds (w_fs (snd r) (tokenPath dir)) (TrimSpace out ++ [newline]) /\
        ((forall e d, w_fs w (tokenPath dir) <> Unreadable e d) ->
         w_fs (snd r) (tokenPath dir)
         = Content (TrimSpace out ++ [newline]))).
Proof.
  intros [He Hs] (Hp & Hout & Hg).
  destruct w as [env cd fs mk wr gp [t0 e0] [l0 [t1 e1]] dw tr].
  unfold effectsOf, tokenPath in *. cbn [w_env w_configDir w_fs w_mkdirErr w_writeErr w_ghPath
       w_ghToken w_ghLogin w_device w_trace fst snd] in *.
  subst gp.
  assert (Hid : TrimSpace (TrimSpace out) = TrimSpace out)
    by (apply TrimSpace_id; apply TrimSpace_trimmed).
  apply isEmpty_false in Hout.
  destruct Hg as [Hg|[Hfirst Hg]]; inversion Hg; subst; clear Hg.
  all: resolver_cases.
  all: nonblank.
  all: try congruence.
  all: try match goal with
         | Hf : _ _ = Content ?d, Hn : TrimSpace ?d <> [] |- _ =>
             exfalso; apply Hn; eapply Hs; [reflexivity | exact Hf]
         end.
  all: try (destruct Hfirst as [Hfirst|Hfirst]; cbn [fst snd] in Hfirst;
            congruence).
  all: (split; [reflexivity|]).
  all: split;
    [ rewrite <- ?app_assoc; rewrite skipn_app_length; cbn [app];
      intros x Hin; cbn [In] in Hin;
      repeat match type of Hin with
        | _ \/ _ => destruct Hin as [Hin|Hin]
        end;
      first [contradiction | rewrite <- Hin; reflexivity]
    | intros dir Hd Hmk Hwr;
      first [ discriminate Hd
            | inversion Hd; subst;
              first [ congruence
                    | rewrite path_eqb_refl, Hid;
                      match goal with
                      | H : ?f _ = _ |- context [overwrite (?f _) _] =>
                          rewrite H
                      end;
                      cbn [overwrite holds];
                      split;
                      [ reflexivity
                      | intros Hr;
                        first [ reflexivity
                              | exfalso; eapply Hr; reflexivity ] ] ] ] ].
Qed.

Lemma gh_token_adopted_witness :
  fst (resolveGitHubToken 0 Demo.ghReady) = Returned (lit "gho_abc") None
  /\ w_fs (snd (resolveGitHubToken 0 Demo.ghReady))
          (tokenPath Sample.configDir)
     = Content (lit "gho_abc" ++ [newline]).
Proof.
  destruct (gh_token_adopted 0 Demo.ghReady (lit "gho_abc" ++ [newline]))
    as (H1 & _ & H3).
  - split; [reflexivity|]. intros dir data _ Hf. discriminate Hf.
  - split; [reflexivity|]. split; [vm_compute; discriminate|].
    left; reflexivity.
  - split; [exact H1|].
    apply (proj2 (H3 Sample.configDir eq_refl eq_refl eq_refl)).
    intros e d H. discriminate H.
Defined.

(** X14.  With nothing in the environment or the token file, no token from
    [gh], and a client id that is not blank, the resolver returns what the
    device flow returns for that client id (white space cut) and the scope
    [repo]: its token, its error (with an empty token), its panic. *)
Theorem device_flow_result_returned (fuel : nat) (w : World) :
  let clientID := TrimSpace (w_env w (lit "GITHUB_OAUTH_CLIENT_ID")) in
  let run := runDeviceFlow fuel (w_device w) clientID [lit "repo"] in
  nothingStored w ->
  ghSilent w ->
  clientID <> [] ->
  fst (resolveGitHubToken fuel w)
  = match fr_outcome run with
    | Returned token (Some e) => Returned [] (Some e)
    | o => o
    end.
Proof.
  intros clientID run [He Hs] Hg Hc. unfold run, clientID in *.
  destruct w as [env cd fs mk wr gp [t0 e0] [l0 [t1 e1]] dw tr].
  unfold tokenPath, ghSilent in *.
  cbn [w_env w_configDir w_fs w_mkdirErr w_writeErr w_ghPath
       w_ghToken w_ghLogin w_device w_trace fst snd] in *.
  resolver_cases.
  all: flow_facts.
  all: nonblank.
  all: try congruence.
  all: try match goal with
         | Hf : _ _ = Content ?d, Hn : TrimSpace ?d <> [] |- _ =>
             exfalso; apply Hn; eapply Hs; [reflexivity | exact Hf]
         end.
  all: exfalso; unfold credential in *; intuition congruence.
Qed.

Lemma device_flow_result_returned_witness :
  fst (resolveGitHubToken 5 Sample.viaDevice) = Returned (lit "ghu_xyz") None.
Proof.
  refine (device_flow_result_returned 5 Sample.viaDevice _ _ _).
  - split; [reflexivity|]. intros dir data _ Hf. discriminate Hf.
  - left. discriminate.
  - vm_compute; discriminate.
Defined.

(** ** [main] *)

Lemma record_record evs evs' mw :
  record evs' (record evs mw) = record (evs ++ evs') mw.
Proof. unfold record; simpl. rewrite app_assoc. reflexivity. Qed.

Lemma record_nil mw : record [] mw = mw.
Proof. destruct mw; unfold record; simpl. rewrite app_nil_r. reflexivity. Qed.

Lemma eventsOf_record {A : Type} (m : Prog A) mw r evs :
  m mw = (r, record evs mw) -> eventsOf m mw = evs.
Proof.
  intros H. unfold eventsOf. rewrite H. simpl. apply skipn_app_length.
Qed.

(** A name that begins with a dot is not [.gitignore]'s business: the third
    test of the loop never decides. *)
Lemma staged_two_tests (f : dirEntry) :
  staged f = negb (hasPrefix (lit ".") (entryName f)) && negb (entryIsDir f).
Proof.
  unfold staged.
  destruct (GoString.eqb (entryName f) (lit ".gitignore")) eqn:E;
    [|rewrite andb_true_r; reflexivity].
  apply eqb_eq in E. rewrite E. reflexivity.
Qed.

Lemma addFiles_run (files : list dirEntry) :
  forall mw, exists evs,
    addFiles files mw = (inl tt, record evs mw)
    /\ filter isExec evs = map addOf (filter staged files)
    /\ forallb (fun ev => isExec ev || isLogged ev) evs = true.
Proof.
  induction files as [|f rest IH]; intros mw.
  - exists []. rewrite record_nil. repeat split.
  - cbn [addFiles]. unfold andThen at 1.
    destruct (staged f) eqn:Hs.
    + unfold andThen at 1, execCmd, runCmd.
      set (mw1 := record [Exec (git ["add"%string] ++ [entryName f]) true] mw).
      destruct (mw_run mw (List.length (mw_events mw))
                  (git ["add"%string] ++ [entryName f])) as [err|].
      * unfold logPrint.
        destruct (IH (record [Logged (lit "Warning: Failed to add "
                                      ++ entryName f ++ lit ": " ++ err)] mw1))
          as (evs & Hrun & Hex & Hall).
        exists ([addOf f; Logged (lit "Warning: Failed to add "
                                  ++ entryName f ++ lit ": " ++ err)] ++ evs).
        rewrite Hrun. unfold mw1. rewrite !record_record.
        split; [reflexivity|]. split.
        -- rewrite filter_app. cbn [filter isExec addOf app].
           rewrite Hs, Hex. reflexivity.
        -- rewrite forallb_app, Hall. reflexivity.
      * unfold done.
        destruct (IH mw1) as (evs & Hrun & Hex & Hall).
        exists ([addOf f] ++ evs).
        rewrite Hrun. unfold mw1. rewrite !record_record.
        split; [reflexivity|]. split.
        -- rewrite filter_app. cbn [filter isExec addOf app].
           rewrite Hs, Hex. reflexivity.
        -- rewrite forallb_app, Hall. reflexivity.
    + unfold done.
      destruct (IH mw) as (evs & Hrun & Hex & Hall).
      exists evs. rewrite Hrun. split; [reflexivity|].
      cbn [filter]. rewrite Hs. split; assumption.
Qed.

(** X15.  The staging loop of [main] never ends the run: a [git add] that
    fails is logged and the loop goes on.  The commands it runs are, in the
    order of the listing, [git add <name>] for the entries that are not
    directories and whose name does not begin with a dot, and nothing else;
    everything else it does is logging.  The third test of the loop, against
    [.gitignore], never decides. *)
Theorem staging_loop (files : list dirEntry) (mw : MainWorld) :
  fst (addFiles files mw) = inl tt
  /\ filter isExec (eventsOf (addFiles files) mw)
     = map addOf (filter staged files)
  /\ (forall ev, In ev (eventsOf (addFiles files) mw) ->
        isExec ev = true \/ isLogged ev = true)
  /\ (forall f, In f (filter staged files) <->
        In f files /\ entryIsDir f = false /\
        hasPrefix (lit ".") (entryName f) = false).
Proof.
  destruct (addFiles_run files mw) as (evs & Hrun & Hex & Hall).
  rewrite (eventsOf_record _ _ _ _ Hrun), Hrun.
  split; [reflexivity|]. split; [exact Hex|]. split.
  - intros ev Hin. rewrite forallb_forall in Hall.
    apply orb_true_iff. exact (Hall ev Hin).
  - intros f. rewrite filter_In, staged_two_tests, andb_true_iff,
      !negb_true_iff. tauto.
Qed.

Ltac unfold_prog :=
  unfold initAndPush, obtainRepository, andThen, osStat, execCmd, runCmd,
    deref, done, stop, logFatal, logPrint, osReadDir, cmdOutput, printOut,
    osGetwd, apiCreate, apiGetUser, apiGetRepo.

Ltac simpl_prog :=
  cbn [fst snd mw_dotenv mw_auth mw_getwd mw_create mw_user mw_repo mw_stat
       mw_run mw_output mw_readDir mw_events record setAuth].

Ltac prog_case :=
  first
    [ match goal with
      | |- context [addFiles ?fs ?W] =>
          lazymatch W with
          | context [match _ with _ => _ end] => fail
          | _ =>
              let evs := fresh "evs" in
              let Hrun := fresh "Hrun" in
              let Hex := fresh "Hex" in
              let Hall := fresh "Hall" in
              destruct (addFiles_run fs W) as (evs & Hrun & Hex & Hall);
              rewrite Hrun
          end
      end
    | crush_match ].

Ltac prefix_of l :=
  lazymatch l with
  | ?x :: ?r => let p := prefix_of r in constr:(x :: p)
  | ?a ++ [_; _; _; _] => constr:(a)
  end.

Ltac same_index :=
  match goal with
  | |- ?r ?m ?argv = None =>
      match goal with
      | H : r ?n argv = None |- _ =>
          replace m with n; [exact H|];
          rewrite ?length_app; cbn [List.length]; rewrite ?length_app;
          cbn [List.length]; lia
      end
  end.

Ltac in_list := repeat (rewrite in_app_iff || cbn [In]); auto 20.

Lemma initAndPush_finished (repo : repository) (mw : MainWorld) :
  fst (initAndPush repo mw) = inl tt ->
  exists pre full,
    initAndPush repo mw
    = (inl tt, record (pre ++ closing (TrimSpace (fst (mw_output mw branchCmd))))
                      mw)
    /\ FullName repo = Some full
    /\ In (Exec (remoteAddCmd full) true) pre
    /\ snd (mw_output mw branchCmd) = None
    /\ mw_run mw (List.length (mw_events mw ++ pre)) commitCmd = None
    /\ mw_run mw (List.length (mw_events mw ++ pre) + 2)
              (pushCmd (TrimSpace (fst (mw_output mw branchCmd)))) = None.
Proof.
  destruct mw as [dot auth gw cr us rp st run out rd evs0].
  unfold_prog. simpl_prog.
  repeat (prog_case; simpl_prog).
  all: try (intros F; discriminate F).
  all: intros _.
  all: rewrite ?record_record; unfold record; simpl_prog.
  all: rewrite <- ?app_assoc; cbn [app].
  all: unfold closing, commitCmd, branchCmd, pushCmd, remoteAddCmd in *.
  all: match goal with
       | |- context [Build_MainWorld _ _ _ _ _ _ _ _ _ _ (_ ++ ?l)] =>
           let p := prefix_of l in exists p
       end; eexists.
  all: (split; [reflexivity|]).
  all: (split; [reflexivity|]).
  all: (split; [in_list|]).
  all: (split; [assumption|]).
  all: split; same_index.
Qed.

Lemma authenticate_run (fuel : nat) (mw : MainWorld) :
  let r := resolveGitHubToken fuel (authWorld mw) in
  let mw1 := record (authEvents fuel mw) (setAuth (snd r) mw) in
  match fst r with
  | Returned token (Some e) =>
      authenticate fuel mw
      = (inr (Fatal (lit "Authentication required. " ++ e)),
         record [Logged (lit "Authentication required. " ++ e)] mw1)
  | Returned token None =>
      authenticate fuel mw = (inl token, mw1) /\ credential token
  | Panicked msg => authenticate fuel mw = (inr (MainPanicked msg), mw1)
  | Running => authenticate fuel mw = (inr MainRunning, mw1)
  end.
Proof.
  intros r mw1.
  pose proof (resolver_summary fuel (authWorld mw)) as (S1 & _).
  unfold authenticate. fold r.
  destruct r as [o w1] eqn:Hr. cbn [fst snd] in *.
  assert (Ho : fst (resolveGitHubToken fuel (authWorld mw)) = o)
    by (unfold r in Hr; rewrite Hr; reflexivity).
  destruct o as [token [e|]| msg |]; try reflexivity.
  specialize (S1 token Ho). split; [|exact S1].
  destruct S1 as [Hne _]. apply isEmpty_false in Hne.
  cbn [isNil negb orb]. rewrite Hne. reflexivity.
Qed.

Lemma obtainRepository_run (token name : gostring) (mw : MainWorld) :
  exists evs,
    snd (obtainRepository token name mw) = record (ApiCreate token name :: evs) mw
    /\ forallb (fun ev => negb (isExec ev)) evs = true
    /\ (forall ev t, In ev evs -> apiToken ev = Some t -> t = token)
    /\ (forall status e,
          mw_create mw token name = CreateFailed status e ->
          status <> Some 422%Z ->
          fst (obtainRepository token name mw)
          = inr (Fatal (lit "Failed to create repository:" ++ e))
          /\ evs = [Logged (lit "Failed to create repository:" ++ e)])
    /\ (forall repo,
          fst (obtainRepository token name mw) = inl repo ->
          HTMLURL repo <> None /\
          (mw_create mw token name = Created repo \/
           exists e usr login,
             mw_create mw token name = CreateFailed (Some 422%Z) e /\
             mw_user mw token = inr usr /\ Login usr = Some login /\
             mw_repo mw token login name = inr repo /\
             In (ApiGetRepo token login name) evs)).
Proof.
  destruct mw as [dot auth gw cr us rp st run out rd evs0].
  unfold_prog. simpl_prog.
  repeat (crush_match; simpl_prog).
  all: rewrite ?record_record; unfold record; simpl_prog.
  all: rewrite <- ?app_assoc; cbn [app].
  all: eexists; (split; [reflexivity|]); (split; [reflexivity|]).
  all: (split;
        [ intros ev t Hin Ht; cbn [In] in Hin;
          repeat match goal with
            | H : _ \/ _ |- _ => destruct H as [H|H]
            | H : False |- _ => destruct H
            | H : _ = _ |- _ = _ =>
                rewrite <- H in Ht; cbn [apiToken] in Ht;
                first [discriminate Ht | inversion Ht; reflexivity]
            end
        |]).
  all: split;
    [ intros ? ? Hc Hn; inversion Hc; subst;
      first [ exfalso; apply Hn; reflexivity | split; reflexivity ]
    | intros ? Hr;
      first
        [ discriminate Hr
        | inversion Hr; subst;
          (split; [congruence|]);
          first [ left; reflexivity
                | right; do 3 eexists;
                  repeat (split; [first [reflexivity | eassumption]|]);
                  in_list ] ] ].
Qed.

Lemma mainProg_phases (fuel : nat) (mw : MainWorld) (token : gostring) :
  authenticate fuel mw = (inl token, authenticated fuel mw) ->
  mainProg fuel mw
  = match mw_getwd mw with
    | inl err =>
        (inr (Fatal (lit "Failed to get current directory:" ++ err)),
         record [Getwd; Logged (lit "Failed to get current directory:" ++ err)]
                (authenticated fuel mw))
    | inr pwd =>
        match obtainRepository token (filepathBase pwd)
                (record [Getwd] (authenticated fuel mw)) with
        | (inl repo, mw3) => initAndPush repo mw3
        | (inr o, mw3) => (inr o, mw3)
        end
    end.
Proof.
  intros H. unfold mainProg, andThen at 1. rewrite H.
  unfold andThen at 1, osGetwd. cbn [fst snd].
  replace (mw_getwd (authenticated fuel mw)) with (mw_getwd mw) by reflexivity.
  destruct (mw_getwd mw) as [err|pwd].
  - unfold logFatal. rewrite record_record. reflexivity.
  - unfold andThen. reflexivity.
Qed.

Lemma mainEvents_record (fuel : nat) (mw : MainWorld) o evs :
  main fuel mw = (o, record evs (authenticated fuel mw)) ->
  mainEvents fuel mw = authEvents fuel mw ++ evs.
Proof.
  intros H. unfold mainEvents. rewrite H.
  unfold authenticated. rewrite record_record.
  cbn [snd record mw_events setAuth]. apply skipn_app_length.
Qed.

Lemma authEvents_idle (fuel : nat) (mw : MainWorld) (ev : mainEvent) :
  In ev (authEvents fuel mw) -> isWork ev = false.
Proof.
  unfold authEvents. intros [<-|H]; [reflexivity|].
  apply in_map_iff in H as (e & <- & _). reflexivity.
Qed.

Lemma initAndPush_run (repo : repository) (mw : MainWorld) :
  exists evs,
    snd (initAndPush repo mw) = record evs mw
    /\ forall ev, In ev evs -> apiToken ev = None.
Proof.
  destruct mw as [dot auth gw cr us rp st run out rd evs0].
  unfold_prog. simpl_prog.
  repeat (prog_case; simpl_prog).
  all: rewrite ?record_record; unfold record; simpl_prog.
  all: rewrite <- ?app_assoc; cbn [app].
  all: eexists; (split; [reflexivity|]).
  all: intros ev Hin.
  all: repeat (rewrite in_app_iff in Hin || cbn [In] in Hin).
  all: repeat match goal with
         | H : _ \/ _ |- _ => destruct H as [H|H]
         | H : False |- _ => destruct H
         | H : _ = _ |- apiToken _ = None => rewrite <- H; reflexivity
         end.
  all: match goal with
       | Ha : forallb _ ?l = true, Hi : In ?e ?l |- _ =>
           rewrite forallb_forall in Ha; specialize (Ha e Hi);
           destruct e; try discriminate Ha; reflexivity
       end.
Qed.

Lemma obtainRepository_not_finished (token name : gostring)
    (mw : MainWorld) :
  fst (obtainRepository token name mw) <> inr Finished.
Proof.
  destruct mw as [dot auth gw cr us rp st run out rd evs0].
  unfold_prog. simpl_prog.
  repeat (crush_match; simpl_prog).
  all: intros F; discriminate F.
Qed.

Lemma initAndPush_not_finished (repo : repository) (mw : MainWorld) :
  fst (initAndPush repo mw) <> inr Finished.
Proof.
  destruct mw as [dot auth gw cr us rp st run out rd evs0].
  unfold_prog. simpl_prog.
  repeat (prog_case; simpl_prog).
  all: intros F; discriminate F.
Qed.

Lemma main_run (fuel : nat) (mw : MainWorld) (token : gostring) :
  fst (resolveGitHubToken fuel (authWorld mw)) = Returned token None ->
  exists evs,
    snd (main fuel mw) = record (Getwd :: evs) (authenticated fuel mw)
    /\ forall ev t, In ev evs -> apiToken ev = Some t -> t = token.
Proof.
  intros Hr. pose proof (authenticate_run fuel mw) as Ha.
  cbv zeta in Ha. rewrite Hr in Ha. destruct Ha as [Ha _].
  fold (authenticated fuel mw) in Ha.
  unfold main. rewrite (mainProg_phases _ _ _ Ha).
  destruct (mw_getwd mw) as [err|pwd].
  - eexists. split; [reflexivity|].
    intros ev t [<-|[]] Ht. discriminate Ht.
  - destruct (obtainRepository_run token (filepathBase pwd)
                (record [Getwd] (authenticated fuel mw)))
      as (evsR & HwR & _ & HtR & _).
    destruct (obtainRepository token (filepathBase pwd)
                (record [Getwd] (authenticated fuel mw))) as [[repo|o] mw3].
    + cbn [snd] in HwR. subst mw3.
      destruct (initAndPush_run repo
                  (record (ApiCreate token (filepathBase pwd) :: evsR)
                     (record [Getwd] (authenticated fuel mw))))
        as (evsI & HwI & HtI).
      destruct (initAndPush repo _) as [[[]|o] mw4]; cbn [snd] in *; subst mw4.
      all: rewrite !record_record; cbn [app].
      all: eexists; (split; [reflexivity|]).
      all: intros ev t Hin Ht; cbn [In] in Hin; rewrite in_app_iff in Hin.
      all: destruct Hin as [<-|[Hin|Hin]];
        [ inversion Ht; reflexivity
        | exact (HtR _ _ Hin Ht)
        | rewrite (HtI _ Hin) in Ht; discriminate Ht ].
    + cbn [snd] in *. subst mw3.
      rewrite !record_record; cbn [app].
      eexists; (split; [reflexivity|]).
      intros ev t Hin Ht; cbn [In] in Hin.
      destruct Hin as [<-|Hin];
        [ inversion Ht; reflexivity | exact (HtR _ _ Hin Ht) ].
Qed.

(** X16.  Whatever [main] does beyond looking for a credential and logging,
    it does after the resolver returned a credential, and every call of the
    GitHub API carries that credential. *)
Theorem work_needs_credential (fuel : nat) (mw : MainWorld) (ev : mainEvent) :
  In ev (mainEvents fuel mw) ->
  isWork ev = true ->
  exists token,
    fst (resolveGitHubToken fuel (authWorld mw)) = Returned token None
    /\ credential token
    /\ forall t, apiToken ev = Some t -> t = token.
Proof.
  intros Hin Hw.
  pose proof (authenticate_run fuel mw) as Ha. cbv zeta in Ha.
  fold (authenticated fuel mw) in Ha.
  destruct (fst (resolveGitHubToken fuel (authWorld mw)))
    as [token [e|]| msg |] eqn:Hr.
  - exfalso.
    assert (Hm : main fuel mw
                 = (Fatal (lit "Authentication required. " ++ e),
                    record [Logged (lit "Authentication required. " ++ e)]
                      (authenticated fuel mw))).
    { unfold main, mainProg, andThen. rewrite Ha. reflexivity. }
    rewrite (mainEvents_record _ _ _ _ Hm), in_app_iff in Hin.
    destruct Hin as [Hin|[<-|[]]]; [|discriminate Hw].
    rewrite (authEvents_idle _ _ _ Hin) in Hw. discriminate Hw.
  - destruct Ha as [_ Hc].
    destruct (main_run fuel mw token Hr) as (evs & Hs & Ht).
    exists token. split; [reflexivity|]. split; [exact Hc|].
    intros t Hev.
    assert (Hm : main fuel mw
                 = (fst (main fuel mw),
                    record (Getwd :: evs) (authenticated fuel mw)))
      by (rewrite <- Hs; apply surjective_pairing).
    rewrite (mainEvents_record _ _ _ _ Hm), in_app_iff in Hin.
    destruct Hin as [Hin|[<-|Hin]].
    + rewrite (authEvents_idle _ _ _ Hin) in Hw. discriminate Hw.
    + discriminate Hev.
    + exact (Ht _ _ Hin Hev).
  - exfalso.
    assert (Hm : main fuel mw
                 = (MainPanicked msg, record [] (authenticated fuel mw))).
    { unfold main, mainProg, andThen. rewrite Ha, record_nil. reflexivity. }
    rewrite (mainEvents_record _ _ _ _ Hm), app_nil_r in Hin.
    rewrite (authEvents_idle _ _ _ Hin) in Hw. discriminate Hw.
  - exfalso.
    assert (Hm : main fuel mw
                 = (MainRunning, record [] (authenticated fuel mw))).
    { unfold main, mainProg, andThen. rewrite Ha, record_nil. reflexivity. }
    rewrite (mainEvents_record _ _ _ _ Hm), app_nil_r in Hin.
    rewrite (authEvents_idle _ _ _ Hin) in Hw. discriminate Hw.
Qed.

Lemma work_needs_credential_witness :
  exists token,
    fst (resolveGitHubToken 0 (authWorld Demo.project)) = Returned token None
    /\ credential token
    /\ forall t,
         apiToken (ApiCreate (lit "ghp_env") (lit "demo")) = Some t ->
         t = token.
Proof.
  apply (work_needs_credential 0 Demo.project
           (ApiCreate (lit "ghp_env") (lit "demo"))).
  - vm_compute. repeat (first [left; reflexivity | right]).
  - reflexivity.
Defined.

Lemma main_authenticated (fuel : nat) (mw : MainWorld) (token : gostring) :
  fst (resolveGitHubToken fuel (authWorld mw)) = Returned token None ->
  authenticate fuel mw = (inl token, authenticated fuel mw)
  /\ credential token.
Proof.
  intros Hr. pose proof (authenticate_run fuel mw) as Ha.
  cbv zeta in Ha. rewrite Hr in Ha. exact Ha.
Qed.

Lemma obtainRepository_ok (token name url : gostring) (repo : repository)
    (mw : MainWorld) :
  answered mw token name repo ->
  HTMLURL repo = Some url ->
  exists evs,
    obtainRepository token name mw
    = (inl repo, record (ApiCreate token name :: evs) mw).
Proof.
  destruct mw as [dot auth gw cr us rp st run out rd evs0].
  unfold answered. simpl_prog.
  intros [Hc|(e & usr & login & Hc & Hu & Hl & Hp)] Hurl.
  all: unfold_prog; simpl_prog; rewrite Hc.
  all: repeat first [ rewrite Hu | rewrite Hl | rewrite Hp | rewrite Hurl
                    | progress simpl_prog ].
  all: rewrite ?record_record; unfold record; simpl_prog.
  all: rewrite <- ?app_assoc; cbn [app].
  all: eexists; reflexivity.
Qed.

Lemma initAndPush_succeeds (repo : repository) (full : gostring)
    (files : list dirEntry) (mw : MainWorld) :
  let branch := TrimSpace (fst (mw_output mw branchCmd)) in
  FullName repo = Some full ->
  mw_readDir mw = inr files ->
  snd (mw_output mw branchCmd) = None ->
  (forall n argv, In argv (vital full branch) -> mw_run mw n argv = None) ->
  exists pre,
    initAndPush repo mw = (inl tt, record (pre ++ closing branch) mw)
    /\ In (Exec (remoteAddCmd full) true) pre
    /\ forall f, In f (filter staged files) -> In (addOf f) pre.
Proof.
  destruct mw as [dot auth gw cr us rp st run out rd evs0].
  simpl_prog. intros Hfull Hdir Hbr Hgit. subst rd.
  unfold vital, closing, commitCmd, branchCmd, pushCmd, remoteAddCmd in *.
  unfold_prog. simpl_prog. rewrite Hfull.
  repeat (prog_case; simpl_prog).
  all: try match goal with
         | H : _ ?n ?argv = Some _ |- _ =>
             exfalso; rewrite (Hgit n argv) in H;
             [discriminate H | cbn [In]; solve [auto 10]]
         end.
  all: try congruence.
  all: rewrite ?record_record; unfold record; simpl_prog.
  all: rewrite <- ?app_assoc; cbn [app].
  all: match goal with
       | |- context [Build_MainWorld _ _ _ _ _ _ _ _ _ _ (_ ++ ?l)] =>
           let p := prefix_of l in exists p
       end.
  all: (split; [reflexivity|]).
  all: (split; [in_list|]).
  all: intros f Hf.
  all: match goal with
       | Hex : filter isExec ?l = map addOf _ |- _ =>
           assert (Hin : In (addOf f) l)
             by (apply (proj1 (filter_In isExec (addOf f) l));
                 rewrite Hex; apply in_map; exact Hf)
       end.
  all: in_list.
Qed.

(** X17.  When the resolver returns an error, [main] logs it behind
    [Authentication required. ] and exits; nothing but the search for a
    credential happened before. *)
Theorem authentication_required (fuel : nat) (mw : MainWorld)
    (token : gostring) (e : error) :
  fst (resolveGitHubToken fuel (authWorld mw)) = Returned token (Some e) ->
  fst (main fuel mw) = Fatal (lit "Authentication required. " ++ e)
  /\ mainEvents fuel mw
     = authEvents fuel mw ++ [Logged (lit "Authentication required. " ++ e)].
Proof.
  intros Hr. pose proof (authenticate_run fuel mw) as Ha.
  cbv zeta in Ha. rewrite Hr in Ha. fold (authenticated fuel mw) in Ha.
  assert (Hm : main fuel mw
               = (Fatal (lit "Authentication required. " ++ e),
                  record [Logged (lit "Authentication required. " ++ e)]
                    (authenticated fuel mw))).
  { unfold main, mainProg, andThen. rewrite Ha. reflexivity. }
  split; [rewrite Hm; reflexivity|].
  exact (mainEvents_record _ _ _ _ Hm).
Qed.

Lemma authentication_required_witness :
  fst (main 0 Demo.stranded)
  = Fatal (lit "Authentication required. " ++ noTokenError).
Proof.
  exact (proj1 (authentication_required 0 Demo.stranded [] noTokenError
                  ltac:(vm_compute; reflexivity))).
Defined.

(** X18.  A refusal to create the repository with a status other than 422
    (or without a response) ends [main] before any local command: the
    events are the search for the credential, [os.Getwd], the call and the
    log line. *)
Theorem create_failure_fatal (fuel : nat) (mw : MainWorld)
    (token pwd : gostring) (status : option Z) (e : error) :
  fst (resolveGitHubToken fuel (authWorld mw)) = Returned token None ->
  mw_getwd mw = inr pwd ->
  mw_create mw token (filepathBase pwd) = CreateFailed status e ->
  status <> Some 422%Z ->
  fst (main fuel mw) = Fatal (lit "Failed to create repository:" ++ e)
  /\ mainEvents fuel mw
     = authEvents fuel mw
       ++ [Getwd; ApiCreate token (filepathBase pwd);
           Logged (lit "Failed to create repository:" ++ e)].
Proof.
  intros Hr Hwd Hc Hs.
  destruct (main_authenticated fuel mw token Hr) as [Ha _].
  destruct (obtainRepository_run token (filepathBase pwd)
              (record [Getwd] (authenticated fuel mw)))
    as (evs & Hw & _ & _ & Hf & _).
  destruct (Hf status e Hc Hs) as [Hfst ->].
  assert (Hm : main fuel mw
               = (Fatal (lit "Failed to create repository:" ++ e),
                  record [Getwd; ApiCreate token (filepathBase pwd);
                          Logged (lit "Failed to create repository:" ++ e)]
                    (authenticated fuel mw))).
  { unfold main. rewrite (mainProg_phases _ _ _ Ha), Hwd.
    destruct (obtainRepository token (filepathBase pwd)
                (record [Getwd] (authenticated fuel mw))) as [r mw3].
    cbn [fst snd] in *. subst r mw3. rewrite record_record. reflexivity. }
  split; [rewrite Hm; reflexivity|].
  exact (mainEvents_record _ _ _ _ Hm).
Qed.

Lemma create_failure_fatal_witness :
  fst (main 0 Demo.refused)
  = Fatal (lit "Failed to create repository:401 Bad credentials")
  /\ mainEvents 0 Demo.refused
     = authEvents 0 Demo.refused
       ++ [Getwd; ApiCreate (lit "ghp_env") (lit "demo");
           Logged (lit "Failed to create repository:401 Bad credentials")].
Proof.
  apply (create_failure_fatal 0 Demo.refused (lit "ghp_env")
           (lit "/home/u/work/demo") (Some 401%Z)
           (lit "401 Bad credentials")).
  - vm_compute; reflexivity.
  - reflexivity.
  - reflexivity.
  - discriminate.
Defined.

(** X19.  When [main] returns, the resolver had returned a credential, the
    repository was asked for under the base name of the working directory
    with that credential (created, or found under the user's login after a
    422), its remote was added, the commit and the push were answered
    without error, and the run ends with commit, branch query, push of that
    branch and the success line. *)
Theorem main_finished (fuel : nat) (mw : MainWorld) :
  fst (main fuel mw) = Finished ->
  exists token pwd repo full pre,
    let branch := TrimSpace (fst (mw_output mw branchCmd)) in
    fst (resolveGitHubToken fuel (authWorld mw)) = Returned token None
    /\ credential token
    /\ mw_getwd mw = inr pwd
    /\ answered mw token (filepathBase pwd) repo
    /\ FullName repo = Some full
    /\ mainEvents fuel mw = pre ++ closing branch
    /\ In (ApiCreate token (filepathBase pwd)) pre
    /\ In (Exec (remoteAddCmd full) true) pre
    /\ snd (mw_output mw branchCmd) = None
    /\ mw_run mw (List.length (mw_events mw ++ pre)) commitCmd = None
    /\ mw_run mw (List.length (mw_events mw ++ pre) + 2) (pushCmd branch)
       = None.
Proof.
  intros Hfin.
  pose proof (authenticate_run fuel mw) as Ha. cbv zeta in Ha.
  fold (authenticated fuel mw) in Ha.
  unfold main in Hfin.
  destruct (fst (resolveGitHubToken fuel (authWorld mw)))
    as [token [e|]| msg |] eqn:Hr.
  1, 3, 4: unfold mainProg, andThen in Hfin; rewrite Ha in Hfin;
    cbn [fst snd] in Hfin; discriminate Hfin.
  destruct Ha as [Ha Hc].
  pose proof (mainProg_phases _ _ _ Ha) as Hp.
  destruct (mw_getwd mw) as [err|pwd] eqn:Hwd;
    [rewrite Hp in Hfin; cbn [fst snd] in Hfin; discriminate Hfin|].
  destruct (obtainRepository_run token (filepathBase pwd)
              (record [Getwd] (authenticated fuel mw)))
    as (evsR & HwR & _ & _ & _ & Hok).
  pose proof (obtainRepository_not_finished token (filepathBase pwd)
                (record [Getwd] (authenticated fuel mw))) as HnR.
  destruct (obtainRepository token (filepathBase pwd)
              (record [Getwd] (authenticated fuel mw))) as [[repo|o] mw3];
    [|rewrite Hp in Hfin; cbn [fst snd] in *; congruence].
  cbn [fst snd] in *. subst mw3. clear HnR.
  destruct (Hok repo eq_refl) as [_ Hans].
  set (mw3 := record (ApiCreate token (filepathBase pwd) :: evsR)
                (record [Getwd] (authenticated fuel mw))) in *.
  assert (Hi : fst (initAndPush repo mw3) = inl tt).
  { rewrite Hp in Hfin.
    pose proof (initAndPush_not_finished repo mw3) as HnI.
    destruct (initAndPush repo mw3) as [[[]|o] mw4];
      [reflexivity | cbn [fst snd] in *; congruence]. }
  destruct (initAndPush_finished repo mw3 Hi)
    as (preI & full & Hrun & Hfull & Hadd & Hbr & Hcommit & Hpush).
  exists token, pwd, repo, full,
    (authEvents fuel mw ++ Getwd :: ApiCreate token (filepathBase pwd)
       :: evsR ++ preI).
  cbv zeta.
  replace (mw_output mw3) with (mw_output mw) in * by reflexivity.
  replace (mw_run mw3) with (mw_run mw) in * by reflexivity.
  assert (Hev : mw_events mw3 ++ preI
                = mw_events mw
                  ++ (authEvents fuel mw ++ Getwd
                      :: ApiCreate token (filepathBase pwd) :: evsR ++ preI)).
  { unfold mw3, authenticated. rewrite !record_record.
    cbn [record mw_events setAuth]. rewrite <- !app_assoc. reflexivity. }
  rewrite Hev in Hcommit, Hpush.
  split; [reflexivity|]. split; [exact Hc|]. split; [reflexivity|].
  split.
  { destruct Hans as [Hcr|(e & usr & login & Hcr & Hu & Hl & Hrp & _)];
      [left; exact Hcr | right; exists e, usr, login; auto]. }
  split; [exact Hfull|]. split.
  { assert (Hm : main fuel mw
                 = (Finished,
                    record (Getwd :: ApiCreate token (filepathBase pwd)
                            :: evsR ++ preI
                            ++ closing (TrimSpace
                                          (fst (mw_output mw branchCmd))))
                      (authenticated fuel mw))).
    { unfold main. rewrite Hp, Hrun. unfold mw3.
      rewrite !record_record. cbn [app]. rewrite <- ?app_assoc.
      reflexivity. }
    rewrite (mainEvents_record _ _ _ _ Hm).
    rewrite <- !app_assoc. cbn [app]. rewrite <- !app_assoc. reflexivity. }
  split; [in_list|]. split; [in_list|].
  split; [exact Hbr|]. split; [exact Hcommit | exact Hpush].
Qed.

Lemma main_finished_witness :
  exists token pwd repo full pre,
    fst (resolveGitHubToken 0 (authWorld Demo.project)) = Returned token None
    /\ credential token
    /\ mw_getwd Demo.project = inr pwd
    /\ answered Demo.project token (filepathBase pwd) repo
    /\ FullName repo = Some full
    /\ mainEvents 0 Demo.project = pre ++ closing (lit "master")
    /\ In (ApiCreate token (filepathBase pwd)) pre
    /\ In (Exec (remoteAddCmd full) true) pre
    /\ snd (mw_output Demo.project branchCmd) = None
    /\ mw_run Demo.project (List.length (mw_events Demo.project ++ pre))
         commitCmd = None
    /\ mw_run Demo.project
         (List.length (mw_events Demo.project ++ pre) + 2)
         (pushCmd (lit "master")) = None.
Proof.
  apply (main_finished 0 Demo.project).
  vm_compute; reflexivity.
Defined.

(** X20.  With a credential, a working directory, a repository from the API
    and a directory listing, [main] returns once [git init] (where it is
    run), [git remote add], [git commit], the branch query and [git push]
    succeed: the removal of the old remote and every [git add] may fail.
    Every entry that passes the test of the loop is staged. *)
Theorem main_succeeds (fuel : nat) (mw : MainWorld)
    (token pwd url full : gostring) (repo : repository)
    (files : list dirEntry) :
  let branch := TrimSpace (fst (mw_output mw branchCmd)) in
  fst (resolveGitHubToken fuel (authWorld mw)) = Returned token None ->
  mw_getwd mw = inr pwd ->
  answered mw token (filepathBase pwd) repo ->
  HTMLURL repo = Some url ->
  FullName repo = Some full ->
  mw_readDir mw = inr files ->
  snd (mw_output mw branchCmd) = None ->
  (forall n argv, In argv (vital full branch) -> mw_run mw n argv = None) ->
  fst (main fuel mw) = Finished
  /\ exists pre,
       mainEvents fuel mw = pre ++ closing branch
       /\ In (Exec (remoteAddCmd full) true) pre
       /\ forall f, In f (filter staged files) -> In (addOf f) pre.
Proof.
  intros branch Hr Hwd Hans Hurl Hfull Hdir Hbr Hgit.
  destruct (main_authenticated fuel mw token Hr) as [Ha _].
  destruct (obtainRepository_ok token (filepathBase pwd) url repo
              (record [Getwd] (authenticated fuel mw)) Hans Hurl)
    as (evsR & HR).
  set (mw3 := record (ApiCreate token (filepathBase pwd) :: evsR)
                (record [Getwd] (authenticated fuel mw))) in *.
  destruct (initAndPush_succeeds repo full files mw3 Hfull Hdir Hbr Hgit)
    as (preI & HI & Hadd & Hst).
  assert (Hm : main fuel mw
               = (Finished,
                  record (Getwd :: ApiCreate token (filepathBase pwd)
                          :: evsR ++ preI ++ closing branch)
                    (authenticated fuel mw))).
  { unfold main. rewrite (mainProg_phases _ _ _ Ha), Hwd, HR, HI.
    unfold mw3. rewrite !record_record. cbn [app]. rewrite <- ?app_assoc.
    reflexivity. }
  split; [rewrite Hm; reflexivity|].
  exists (authEvents fuel mw ++ Getwd :: ApiCreate token (filepathBase pwd)
            :: evsR ++ preI).
  split.
  { rewrite (mainEvents_record _ _ _ _ Hm).
    rewrite <- !app_assoc. cbn [app]. rewrite <- !app_assoc. reflexivity. }
  split; [in_list|].
  intros f Hf. specialize (Hst f Hf). in_list.
Qed.

Lemma main_succeeds_witness :
  fst (main 0 Demo.project) = Finished
  /\ exists pre,
       mainEvents 0 Demo.project = pre ++ closing (lit "master")
       /\ In (Exec (remoteAddCmd (lit "u/demo")) true) pre
       /\ forall f,
            In f (filter staged
                    [ {| entryName := lit ".env"; entryIsDir := false |};
                      {| entryName := lit "README.md"; entryIsDir := false |};
                      {| entryName := lit "src"; entryIsDir := true |} ]) ->
            In (addOf f) pre.
Proof.
  apply (main_succeeds 0 Demo.project (lit "ghp_env")
           (lit "/home/u/work/demo") (lit "https://github.com/u/demo")
           (lit "u/demo") Demo.demoRepository).
  - vm_compute; reflexivity.
  - reflexivity.
  - left; reflexivity.
  - reflexivity.
  - reflexivity.
  - reflexivity.
  - reflexivity.
  - intros n argv [<-|[<-|[<-|[<-|[]]]]]; reflexivity.
Defined.
